(** * The query language of [experimentalist/reading/parser.py]

    The module builds a lexer (PLY [lex]) and an LR parser (PLY [yacc]) for
    one-line filter expressions, and its grammar actions ([binOp],
    [inclusionOp], [andOp], [orOp], [notOp]) assemble TinyDB query objects.

    The embedding is shallow: every Python function of the module is a Rocq
    function of the same name; exceptions are an explicit [result]; the
    token rules of [Lexer] are regular expressions interpreted with the
    backtracking discipline of Python's [re]; the grammar and the
    [precedence] table of [Parser] are data from which the LR automaton is
    computed, resolving shift/reduce conflicts the way yacc does.

    The three libraries the module calls ([ply], [tinydb],
    [ast.literal_eval]) are outside the repository; the parts of them that
    the module reaches are modelled here, each under its Python name.
    Characters are code points below 256.  The lexer is modelled as it is
    built by an interpreter that accepts the inline flag [(?i)] of [t_BOOL]
    in the middle of the master expression (Python up to 3.10, where the
    flag then applies to the whole expression).

    After the query language come three functions of the rest of the
    repository, embedded in the same way: [_flatten_dict] of
    [experimentalist/utils.py], [_get_overrides] of
    [experimentalist/launcher.py] and [_configure_scheduler] of
    [mlxpy/_internal/configure.py]. *)

From Stdlib Require Import ZArith List String Ascii Bool Lia SpecFloat.
From Stdlib Require DecimalString DecimalNat DecimalFacts.
Import ListNotations.
Local Open Scope string_scope.
Local Open Scope list_scope.
Set Warnings "-register-all".

(** ** Exceptions and results *)

(** The Python exceptions the module can raise or meet.  [Unmodelled] is not
    an exception: it marks an input on which the model of a library does not
    say what Python does (see [literal_eval]). *)
Inductive exn :=
| SyntaxError (msg : string)
| ValueError (msg : string)
| TypeError
| KeyError (key : string)
| Unmodelled.

Inductive result (A : Type) :=
| Ok (a : A)
| Raise (e : exn).
Arguments Ok {A} a.
Arguments Raise {A} e.

Definition bind {A B} (r : result A) (k : A -> result B) : result B :=
  match r with
  | Ok a => k a
  | Raise e => Raise e
  end.

Notation "x <- c1 ;; c2" := (bind c1 (fun x => c2))
  (at level 61, c1 at next level, right associativity).

(** ** Python values *)

(** The scalar constants of the language ([int], [float], [str], [bool],
    [None]).  A float is an IEEE 754 binary64 value. *)
Inductive literal :=
| PyInt (z : Z)
| PyFloat (f : spec_float)
| PyStr (s : string)
| PyBool (b : bool)
| PyNone.

(** Documents of the record store: scalars, lists and mappings with string
    keys.  A mapping is an association list; lookup takes the first entry
    of a key. *)
Inductive pyval :=
| Scalar (l : literal)
| PyList (xs : list pyval)
| PyDict (kv : list (string * pyval)).

(** *** Numbers

    [int], [bool] and [float] compare with each other by exact numerical
    value.  A finite number is [m * 2^e]. *)
Inductive number :=
| NaN
| Inf (negative : bool)
| Fin (m e : Z).

Definition number_of (l : literal) : option number :=
  match l with
  | PyInt z => Some (Fin z 0)
  | PyBool b => Some (Fin (if b then 1 else 0) 0)
  | PyFloat (S754_zero _) => Some (Fin 0 0)
  | PyFloat (S754_infinity s) => Some (Inf s)
  | PyFloat S754_nan => Some NaN
  | PyFloat (S754_finite s m e) => Some (Fin (if s then Zneg m else Zpos m) e)
  | PyStr _ | PyNone => None
  end.

(** [None] when one side is a NaN (every ordered comparison is then false). *)
Definition num_compare (x y : number) : option comparison :=
  match x, y with
  | NaN, _ | _, NaN => None
  | Inf a, Inf b =>
      Some (if a then (if b then Eq else Lt) else (if b then Gt else Eq))
  | Inf a, Fin _ _ => Some (if a then Lt else Gt)
  | Fin _ _, Inf b => Some (if b then Gt else Lt)
  | Fin m1 e1, Fin m2 e2 =>
      let e := Z.min e1 e2 in
      Some (Z.compare (m1 * 2 ^ (e1 - e)) (m2 * 2 ^ (e2 - e)))
  end%Z.

(** ** The [operator] functions of the table [ops] *)

Module operator.
Inductive fn := eq | ne | le | ge | lt | gt.
End operator.

Definition holds (f : operator.fn) (c : option comparison) : bool :=
  match f, c with
  | operator.eq, Some Eq => true
  | operator.ne, Some Eq => false
  | operator.ne, _ => true
  | operator.le, Some (Lt | Eq) => true
  | operator.ge, Some (Gt | Eq) => true
  | operator.lt, Some Lt => true
  | operator.gt, Some Gt => true
  | _, _ => false
  end.

Definition is_ordering (f : operator.fn) : bool :=
  match f with
  | operator.eq | operator.ne => false
  | _ => true
  end.

(** [value == rhs] for a scalar [rhs]: numbers by value, strings by
    content, [None] with itself; a list or a mapping never equals a
    scalar. *)
Definition py_eq (value : pyval) (rhs : literal) : bool :=
  match value with
  | Scalar l =>
      match number_of l, number_of rhs with
      | Some x, Some y => holds operator.eq (num_compare x y)
      | None, None =>
          match l, rhs with
          | PyStr a, PyStr b => String.eqb a b
          | PyNone, PyNone => true
          | _, _ => false
          end
      | _, _ => false
      end
  | _ => false
  end.

(** The operand kinds Python orders against a scalar: number with number,
    string with string. *)
Definition comparable (value : pyval) (rhs : literal) : bool :=
  match value with
  | Scalar l =>
      match number_of l, number_of rhs with
      | Some _, Some _ => true
      | None, None =>
          match l, rhs with
          | PyStr _, PyStr _ => true
          | _, _ => false
          end
      | _, _ => false
      end
  | _ => false
  end.

(** [f(value, rhs)] for [f] in [ops].  [==] and [!=] never raise; the four
    ordering operators raise [TypeError] on operands Python does not
    order. *)
Definition py_compare (f : operator.fn) (value : pyval) (rhs : literal)
  : result bool :=
  match f with
  | operator.eq => Ok (py_eq value rhs)
  | operator.ne => Ok (negb (py_eq value rhs))
  | _ =>
      match value with
      | Scalar l =>
          match number_of l, number_of rhs with
          | Some x, Some y => Ok (holds f (num_compare x y))
          | None, None =>
              match l, rhs with
              | PyStr a, PyStr b => Ok (holds f (Some (String.compare a b)))
              | _, _ => Raise TypeError
              end
          | _, _ => Raise TypeError
          end
      | _ => Raise TypeError
      end
  end.

(** [value in items]: true when some item is the object [value] itself
    or equals it.  An object equals itself, but for a NaN; so identity
    decides the answer only when [value] is a NaN and [items] holds a
    NaN.  Values carry no identity here, and there the answer is
    [Unmodelled]. *)
Definition is_nan (l : literal) : bool :=
  match l with
  | PyFloat S754_nan => true
  | _ => false
  end.

Definition py_in (value : pyval) (items : list literal) : result bool :=
  match value with
  | Scalar l =>
      if is_nan l && existsb is_nan items then Raise Unmodelled
      else Ok (existsb (py_eq value) items)
  | _ => Ok (existsb (py_eq value) items)
  end.

(** [value[part]] for a string [part]: only a mapping can be indexed by a
    string. *)
Fixpoint dict_get (kv : list (string * pyval)) (key : string) : option pyval :=
  match kv with
  | [] => None
  | (k, v) :: rest => if String.eqb k key then Some v else dict_get rest key
  end.

Definition getitem (value : pyval) (part : string) : result pyval :=
  match value with
  | PyDict kv =>
      match dict_get kv part with
      | Some v => Ok v
      | None => Raise (KeyError part)
      end
  | _ => Raise TypeError
  end.

(** ** TinyDB queries *)

(** [tinydb.Query]: a path of fields, extended by [q[item]]. *)
Record Query := { _path : list string }.

Definition Query_new : Query := {| _path := [] |}.

Definition Query_getitem (q : Query) (item : string) : Query :=
  {| _path := _path q ++ [item] |}.

(** The test a query runs on the resolved value: [lambda value: value op rhs]
    or [lambda value: value in items]. *)
Inductive test :=
| Compare (f : operator.fn) (rhs : literal)
| OneOf (items : list literal).

(** [tinydb.queries.QueryInstance], by the operation that built it. *)
Inductive QueryInstance :=
| Runner (path : list string) (t : test)
| QAnd (a b : QueryInstance)
| QOr (a b : QueryInstance)
| QNot (a : QueryInstance).

(** [Query._generate_test]. *)
Definition _generate_test (q : Query) (t : test) : result QueryInstance :=
  match _path q with
  | [] => Raise (ValueError "Query has no path")
  | _ => Ok (Runner (_path q) t)
  end.

Definition Query_compare (f : operator.fn) (q : Query) (rhs : literal)
  : result QueryInstance :=
  _generate_test q (Compare f rhs).

Definition one_of (q : Query) (items : list literal) : result QueryInstance :=
  _generate_test q (OneOf items).

(** The loop [for part in self._path: value = value[part]] of
    [runner]. *)
Fixpoint resolve (path : list string) (value : pyval) : result pyval :=
  match path with
  | [] => Ok value
  | part :: rest => v <- getitem value part ;; resolve rest v
  end.

Definition run_test (t : test) (value : pyval) : result bool :=
  match t with
  | Compare f rhs => py_compare f value rhs
  | OneOf items => py_in value items
  end.

(** [runner]: the [try] covers the path only; [KeyError] and [TypeError]
    raised there give [False], an exception of the test itself is not
    caught. *)
Definition runner (path : list string) (t : test) (value : pyval)
  : result bool :=
  match resolve path value with
  | Ok v => run_test t v
  | Raise (KeyError _) | Raise TypeError => Ok false
  | Raise e => Raise e
  end.

(** [QueryInstance.__call__]; [and] and [or] are Python's short-circuit
    operators. *)
Fixpoint call (q : QueryInstance) (value : pyval) : result bool :=
  match q with
  | Runner path t => runner path t value
  | QAnd a b => x <- call a value ;; if x then call b value else Ok false
  | QOr a b => x <- call a value ;; if x then Ok true else call b value
  | QNot a => x <- call a value ;; Ok (negb x)
  end.

(** ** The functions of the module below the grammar *)

Definition ops : list (string * operator.fn) :=
  [ ("==", operator.eq);
    ("!=", operator.ne);
    ("<=", operator.le);
    (">=", operator.ge);
    ("<", operator.lt);
    (">", operator.gt) ].

Fixpoint ops_get (table : list (string * operator.fn)) (op : string)
  : option operator.fn :=
  match table with
  | [] => None
  | (k, f) :: rest => if String.eqb k op then Some f else ops_get rest op
  end.

Definition _build_field_struct (key : string) : Query :=
  let field := Query_new in
  let field := Query_getitem field key in
  field.

Definition binOp (k op : string) (v : literal) : result QueryInstance :=
  match ops_get ops op with
  | None => Raise (ValueError "")
  | Some opf =>
      let field := _build_field_struct k in
      Query_compare opf field v
  end.

Definition inclusionOp (key : string) (values : list literal)
  : result QueryInstance :=
  let field := _build_field_struct key in
  one_of field values.

Definition andOp (left right : QueryInstance) : QueryInstance := QAnd left right.
Definition orOp (left right : QueryInstance) : QueryInstance := QOr left right.
Definition notOp (expr : QueryInstance) : QueryInstance := QNot expr.

(** ** Regular expressions, as Python's [re] matches them *)

Inductive regex :=
| Empty
| Chr (c : ascii)
| In_ (negate : bool) (ranges : list (ascii * ascii))
| Dot
| Cat (r1 r2 : regex)
| Alt (r1 r2 : regex)
| Star (greedy : bool) (r : regex).

Definition range (lo hi : ascii) : ascii * ascii := (lo, hi).
Definition only (c : ascii) : ascii * ascii := (c, c).

Definition Plus (r : regex) : regex := Cat r (Star true r).
Definition Opt (r : regex) : regex := Alt r Empty.

Fixpoint Word (s : string) : regex :=
  match s with
  | "" => Empty
  | String c rest => Cat (Chr c) (Word rest)
  end.

Definition code (c : ascii) : N := N_of_ascii c.

Definition between (lo hi c : ascii) : bool :=
  (code lo <=? code c)%N && (code c <=? code hi)%N.

(** Case folding of the ASCII letters, the only case pairs the patterns
    of this lexer can tell apart. *)
Definition lower (c : ascii) : ascii :=
  if between "A" "Z" c then ascii_of_N (code c + 32) else c.

Definition upper (c : ascii) : ascii :=
  if between "a" "z" c then ascii_of_N (code c - 32) else c.

Definition in_set (negate : bool) (ranges : list (ascii * ascii)) (c : ascii)
  : bool :=
  xorb negate (existsb (fun r => between (fst r) (snd r) c) ranges).

Definition or_else (a b : option string) : option string :=
  match a with
  | Some x => Some x
  | None => b
  end.

Section Matching.
(** [re.IGNORECASE]. *)
Variable ignorecase : bool.

Definition chr_matches (c x : ascii) : bool :=
  if ignorecase then Ascii.eqb (lower c) (lower x) else Ascii.eqb c x.

Definition set_matches (negate : bool) (ranges : list (ascii * ascii))
  (x : ascii) : bool :=
  if ignorecase
  then in_set negate ranges (lower x) || in_set negate ranges (upper x)
  else in_set negate ranges x.

(** A repetition of [m], at most [n] times: a greedy one first tries one
    more turn, a lazy one first tries to go on with [k].  A turn must
    consume a character. *)
Fixpoint repeat_ (m : string -> (string -> option string) -> option string)
  (greedy : bool) (k : string -> option string) (n : nat) (s : string)
  : option string :=
  let more :=
    match n with
    | O => None
    | S n' =>
        m s (fun s' =>
               if (String.length s' <? String.length s)%nat
               then repeat_ m greedy k n' s' else None)
    end in
  if greedy then or_else more (k s) else or_else (k s) more.

(** Backtracking search in the order of [re]: the left alternative
    first; [k] is what remains to be matched after [r]. *)
Fixpoint backtrack (r : regex) (s : string) (k : string -> option string)
  {struct r} : option string :=
  match r with
  | Empty => k s
  | Chr c =>
      match s with
      | String x rest => if chr_matches c x then k rest else None
      | "" => None
      end
  | In_ negate ranges =>
      match s with
      | String x rest => if set_matches negate ranges x then k rest else None
      | "" => None
      end
  | Dot =>
      match s with
      | String x rest => if Ascii.eqb x "010" then None else k rest
      | "" => None
      end
  | Cat r1 r2 => backtrack r1 s (fun s1 => backtrack r2 s1 k)
  | Alt r1 r2 => or_else (backtrack r1 s k) (backtrack r2 s k)
  | Star greedy r1 => repeat_ (backtrack r1) greedy k (String.length s) s
  end.

(** [pattern.match(s)]: the text left after the match. *)
Definition re_match (r : regex) (s : string) : option string :=
  backtrack r s Some.
End Matching.

(** The text consumed when [rest] is what a match left of [s]. *)
Definition consumed (s rest : string) : string :=
  substring 0 (String.length s - String.length rest) s.

(** ** [ast.literal_eval]

    The model decodes a fragment of Python's literal syntax: decimal
    integers, decimals [digits.digits], quoted strings without backslash,
    line break or NUL, the names [True], [False] and [None], and flat list
    displays of those.  On the rest of Python's syntax it answers
    [Unmodelled].  The texts of the messages are the interpreter's and are
    not modelled beyond the two constants below. *)

Definition invalid_syntax : exn := SyntaxError "invalid syntax".
Definition malformed_node : exn := ValueError "malformed node or string".

Definition dquote : ascii := "034".

Definition is_digit (c : ascii) : bool := between "0" "9" c.

Definition is_name_start (c : ascii) : bool :=
  between "a" "z" c || between "A" "Z" c || Ascii.eqb c "_".

Definition is_space (c : ascii) : bool :=
  Ascii.eqb c " " || Ascii.eqb c "009".

Fixpoint forall_chars (p : ascii -> bool) (s : string) : bool :=
  match s with
  | "" => true
  | String c rest => p c && forall_chars p rest
  end.

Fixpoint digits_value (acc : Z) (s : string) : Z :=
  match s with
  | "" => acc
  | String c rest => digits_value (10 * acc + (Z.of_N (code c) - 48)) rest
  end.

(** The digits at the head of [s], and what follows them. *)
Fixpoint span_digits (s : string) : string * string :=
  match s with
  | String c rest =>
      if is_digit c
      then let (d, r) := span_digits rest in (String c d, r)
      else ("", s)
  | "" => ("", "")
  end.

(** The binary64 value nearest to [n / 10^k], ties to even. *)
Definition float_of_decimal (n : Z) (k : nat) : spec_float :=
  match n with
  | Zpos m =>
      SFdiv 53 1024 (S754_finite false m 0)
        (S754_finite false (Z.to_pos (10 ^ Z.of_nat k)) 0)
  | _ => S754_zero false
  end.

Definition is_plain_char (quote c : ascii) : bool :=
  negb (Ascii.eqb c quote || Ascii.eqb c "092" || Ascii.eqb c "010"
        || Ascii.eqb c "013" || Ascii.eqb c "000").

Fixpoint plain_string_body (quote : ascii) (s : string) : option string :=
  match s with
  | "" => None
  | String c "" => if Ascii.eqb c quote then Some "" else None
  | String c rest =>
      if is_plain_char quote c
      then option_map (String c) (plain_string_body quote rest)
      else None
  end.

Fixpoint lowercase (s : string) : string :=
  match s with
  | "" => ""
  | String c rest => String (lower c) (lowercase rest)
  end.

Definition same_word (a b : string) : bool :=
  String.eqb (lowercase a) (lowercase b).

Definition eval_name (s : string) : result literal :=
  if String.eqb s "True" then Ok (PyBool true)
  else if String.eqb s "False" then Ok (PyBool false)
  else if String.eqb s "None" then Ok PyNone
  else if same_word s "true" || same_word s "false" then Raise malformed_node
  else Raise Unmodelled.

Definition eval_number (s : string) : result literal :=
  let (whole, r) := span_digits s in
  match r with
  | "" =>
      if (4300 <? String.length whole)%nat then Raise Unmodelled
      else if forall_chars (Ascii.eqb "0") whole then Ok (PyInt 0)
      else if String.prefix "0" whole then Raise invalid_syntax
      else Ok (PyInt (digits_value 0 whole))
  | String "." f =>
      if negb (String.eqb f "") && forall_chars is_digit f
      then Ok (PyFloat (float_of_decimal (digits_value 0 (whole ++ f))
                          (String.length f)))
      else Raise Unmodelled
  | _ => Raise Unmodelled
  end.

(** One constant, written without surrounding blanks. *)
Definition eval_atom (s : string) : result literal :=
  match s with
  | "" => Raise invalid_syntax
  | String c rest =>
      if is_digit c then eval_number s
      else if Ascii.eqb c "'" || Ascii.eqb c dquote then
        match plain_string_body c rest with
        | Some body => Ok (PyStr body)
        | None => Raise Unmodelled
        end
      else if is_name_start c then eval_name s
      else Raise Unmodelled
  end.

Fixpoint lstrip (s : string) : string :=
  match s with
  | String c rest => if is_space c then lstrip rest else s
  | "" => ""
  end.

Fixpoint rstrip (s : string) : string :=
  match s with
  | String c rest =>
      match rstrip rest with
      | "" => if is_space c then "" else String c ""
      | r => String c r
      end
  | "" => ""
  end.

Definition strip (s : string) : string := rstrip (lstrip s).

(** The pieces of a list body between the commas that stand outside
    quotes; [quote] is the open quote, if any, and [piece] the current
    piece, reversed. *)
Fixpoint split_commas (quote : option ascii) (piece : string) (s : string)
  : list string :=
  match s with
  | "" => [piece]
  | String c rest =>
      match quote with
      | Some q =>
          split_commas (if Ascii.eqb c q then None else quote)
            (piece ++ String c "") rest
      | None =>
          if Ascii.eqb c "," then piece :: split_commas None "" rest
          else split_commas
                 (if Ascii.eqb c "'" || Ascii.eqb c dquote then Some c else None)
                 (piece ++ String c "") rest
      end
  end.

(** A comma after the last element is allowed. *)
Fixpoint drop_trailing (pieces : list string) : list string :=
  match pieces with
  | [] => []
  | [p] => []
  | p :: rest => p :: drop_trailing rest
  end.

Definition elements (body : string) : list string :=
  let pieces := map strip (split_commas None "" body) in
  match pieces with
  | [p] => if String.eqb p "" then [] else [p]
  | _ =>
      if String.eqb (last pieces "") "" then drop_trailing pieces else pieces
  end.

Definition is_unmodelled {A} (r : result A) : bool :=
  match r with Raise Unmodelled => true | _ => false end.

Definition is_syntax_error {A} (r : result A) : bool :=
  match r with Raise (SyntaxError _) => true | _ => false end.

Fixpoint sequence {A} (rs : list (result A)) : result (list A) :=
  match rs with
  | [] => Ok []
  | r :: rest => x <- r ;; xs <- sequence rest ;; Ok (x :: xs)
  end.

(** The text is compiled as a whole before any node is converted: a
    syntax error anywhere wins over a malformed node. *)
Definition eval_list (body : string) : result (list literal) :=
  let rs := map eval_atom (elements body) in
  if existsb is_unmodelled rs then Raise Unmodelled
  else if existsb is_syntax_error rs then Raise invalid_syntax
  else sequence rs.

(** The values the lexer and the grammar actions hand around. *)
Inductive object :=
| Const (l : literal)
| Items (xs : list literal)
| Instance (q : QueryInstance).

(** [s] without its last character, when that is [c]. *)
Fixpoint without_last (c : ascii) (s : string) : option string :=
  match s with
  | "" => None
  | String x "" => if Ascii.eqb x c then Some "" else None
  | String x rest => option_map (String x) (without_last c rest)
  end.

Definition literal_eval (text : string) : result object :=
  match text with
  | String "[" rest =>
      match without_last "]" rest with
      | Some body => xs <- eval_list body ;; Ok (Items xs)
      | None => Raise Unmodelled
      end
  | _ => l <- eval_atom (strip text) ;; Ok (Const l)
  end.

(** ** The lexer *)

Inductive terminal :=
| ID | LIST | SCALAR
| EQUAL | LESS_THAN | GREATER_THAN
| LESS_THAN_OR_EQUAL | GREATER_THAN_OR_EQUAL | NOT_EQUAL
| AND | OR | NOT | LPAREN | RPAREN | IN.

Definition tokens : list terminal :=
  [ ID; LIST; SCALAR; EQUAL; LESS_THAN; GREATER_THAN; LESS_THAN_OR_EQUAL;
    GREATER_THAN_OR_EQUAL; NOT_EQUAL; AND; OR; NOT; LPAREN; RPAREN; IN ].

(** [lex.LexToken]: [value] is the matched text until a rule function
    replaces it. *)
Record LexToken := { type : terminal; value : object }.

Definition text (s : string) : object := Const (PyStr s).

Module Lexer.

Definition reserved : list (string * terminal) := [ ("in", IN) ].

Fixpoint reserved_get (table : list (string * terminal)) (key : string)
  (default : terminal) : terminal :=
  match table with
  | [] => default
  | (k, t) :: rest =>
      if String.eqb k key then t else reserved_get rest key default
  end.

(** *** The rules given as strings *)
Definition t_EQUAL := Word "==".
Definition t_LESS_THAN_OR_EQUAL := Word "<=".
Definition t_GREATER_THAN_OR_EQUAL := Word ">=".
Definition t_NOT_EQUAL := Word "!=".
Definition t_LESS_THAN := Word "<".
Definition t_GREATER_THAN := Word ">".
Definition t_AND := Word "&".
Definition t_OR := Chr "|".
Definition t_NOT := Word "~".
Definition t_LPAREN := Chr "(".
Definition t_RPAREN := Chr ")".
Definition t_IN := Word "in".
Definition t_ignore (c : ascii) : bool :=
  Ascii.eqb c " " || Ascii.eqb c "009".

(** *** The rules given as functions: the pattern of the docstring,
    then the body, applied to the matched text *)

(** [\[[^\]]*\]] *)
Definition t_LIST_doc : regex :=
  Cat (Chr "[") (Cat (Star true (In_ true [only "]"])) (Chr "]")).

Definition t_LIST (t_value : string) : result LexToken :=
  v <- literal_eval t_value ;; Ok {| type := LIST; value := v |}.

(** [(?i)(true|false)] *)
Definition t_BOOL_doc : regex := Alt (Word "true") (Word "false").

Definition t_BOOL (t_value : string) : result LexToken :=
  v <- literal_eval t_value ;; Ok {| type := SCALAR; value := v |}.

(** ['(.*?)'] *)
Definition t_STRING_doc : regex :=
  Cat (Chr "'") (Cat (Star false Dot) (Chr "'")).

Definition t_STRING (t_value : string) : result LexToken :=
  v <- literal_eval t_value ;; Ok {| type := SCALAR; value := v |}.

(** [[0-9]+(\.[0-9]+)?], or a text between two single quotes
    without a single quote inside, or the same with double quotes *)
Definition digit : regex := In_ false [range "0" "9"].

Definition quoted (q : ascii) : regex :=
  Cat (Chr q) (Cat (Star true (In_ true [only q])) (Chr q)).

Definition t_SCALAR_doc : regex :=
  Alt (Cat (Plus digit) (Opt (Cat (Chr ".") (Plus digit))))
    (Alt (quoted "'") (quoted dquote)).

Definition t_SCALAR (t_value : string) : result LexToken :=
  v <- literal_eval t_value ;; Ok {| type := SCALAR; value := v |}.

(** [[a-zA-Z_\d]+(\.[a-zA-Z_\d]+)*] *)
Definition word_char : regex :=
  In_ false [range "a" "z"; range "A" "Z"; only "_"; range "0" "9"].

Definition t_ID_doc : regex :=
  Cat (Plus word_char) (Star true (Cat (Chr ".") (Plus word_char))).

Definition t_ID (t_value : string) : result LexToken :=
  Ok {| type := reserved_get reserved t_value ID; value := text t_value |}.

Definition t_error (t_value : string) : exn :=
  SyntaxError
    ("Illegal character " ++ String dquote (substring 0 1 t_value)
       ++ String dquote "").

(** *** [lex.lex]

    A rule of the master expression: its pattern and what becomes of
    the matched text. *)
Record rule := { pattern : regex; produce : string -> result LexToken }.

Definition plain (t : terminal) (r : regex) : rule :=
  {| pattern := r;
     produce := fun t_value => Ok {| type := t; value := text t_value |} |}.

(** The alternatives of the master expression: the functions in the
    order of their definition, then the strings by decreasing length of
    their pattern text (the escaped [\|], [\(] and [\)] count two
    characters). *)
Definition rules : list rule :=
  [ {| pattern := t_LIST_doc; produce := t_LIST |};
    {| pattern := t_BOOL_doc; produce := t_BOOL |};
    {| pattern := t_STRING_doc; produce := t_STRING |};
    {| pattern := t_SCALAR_doc; produce := t_SCALAR |};
    {| pattern := t_ID_doc; produce := t_ID |};
    plain EQUAL t_EQUAL;
    plain LESS_THAN_OR_EQUAL t_LESS_THAN_OR_EQUAL;
    plain GREATER_THAN_OR_EQUAL t_GREATER_THAN_OR_EQUAL;
    plain NOT_EQUAL t_NOT_EQUAL;
    plain OR t_OR;
    plain LPAREN t_LPAREN;
    plain RPAREN t_RPAREN;
    plain IN t_IN;
    plain LESS_THAN t_LESS_THAN;
    plain GREATER_THAN t_GREATER_THAN;
    plain AND t_AND;
    plain NOT t_NOT ].

(** The inline flag of [t_BOOL] puts the whole master expression under
    [re.IGNORECASE]. *)
Definition ignorecase : bool := true.

(** [lexre.match(lexdata, lexpos)]: the first alternative that matches,
    with the text it leaves. *)
Fixpoint first_match (rs : list rule) (s : string) : option (rule * string) :=
  match rs with
  | [] => None
  | r :: rest =>
      match re_match ignorecase (pattern r) s with
      | Some remaining => Some (r, remaining)
      | None => first_match rest s
      end
  end.

Definition scan (lexdata : string) : result (LexToken * string) :=
  match first_match rules lexdata with
  | Some (r, remaining) =>
      tok <- produce r (consumed lexdata remaining) ;; Ok (tok, remaining)
  | None => Raise (t_error lexdata)
  end.

(** [Lexer.token]: the next token and the input left after it, [None]
    at the end of the input. *)
Fixpoint token (lexdata : string) : result (option (LexToken * string)) :=
  match lexdata with
  | "" => Ok None
  | String c rest =>
      if t_ignore c then token rest
      else r <- scan lexdata ;; Ok (Some r)
  end.

End Lexer.

(** All the tokens of an input, for inputs the lexer reads to the end. *)
Fixpoint tokenize (fuel : nat) (lexdata : string) : result (list LexToken) :=
  match fuel with
  | O => Ok []
  | S n =>
      r <- Lexer.token lexdata ;;
      match r with
      | None => Ok []
      | Some (tok, remaining) =>
          toks <- tokenize n remaining ;; Ok (tok :: toks)
      end
  end.

(** ** The parser *)

Scheme Equality for terminal.

Module Parser.

Inductive associativity := left_assoc | right_assoc | nonassoc.

Definition precedence : list (associativity * list terminal) :=
  [ (left_assoc, [OR]);
    (left_assoc, [AND]);
    (left_assoc, [NOT]);
    (left_assoc, [EQUAL; LESS_THAN; GREATER_THAN; LESS_THAN_OR_EQUAL;
                  GREATER_THAN_OR_EQUAL; NOT_EQUAL; IN]) ].

(** [expr], and the start symbol yacc adds. *)
Inductive nonterminal := Start | expr.

Inductive symbol :=
| T (t : terminal)
| N (n : nonterminal).

(** *** The grammar actions; [p] holds [p[1]], [p[2]], ... and the result
    is [p[0]].  A value of the wrong kind cannot come from the lexer. *)

Definition p_expression_binop (p : list object) : result object :=
  match p with
  | [Const (PyStr k); Const (PyStr op); Const v] =>
      q <- binOp k op v ;; Ok (Instance q)
  | _ => Raise Unmodelled
  end.

Definition p_expression_inclusion (p : list object) : result object :=
  match p with
  | [Const (PyStr key); _; Items values] =>
      q <- inclusionOp key values ;; Ok (Instance q)
  | _ => Raise Unmodelled
  end.

Definition p_expression_group (p : list object) : result object :=
  match p with
  | [_; e; _] => Ok e
  | _ => Raise Unmodelled
  end.

Definition p_expression_and (p : list object) : result object :=
  match p with
  | [Instance l; _; Instance r] => Ok (Instance (andOp l r))
  | _ => Raise Unmodelled
  end.

Definition p_expression_or (p : list object) : result object :=
  match p with
  | [Instance l; _; Instance r] => Ok (Instance (orOp l r))
  | _ => Raise Unmodelled
  end.

Definition p_expression_not (p : list object) : result object :=
  match p with
  | [_; Instance e] => Ok (Instance (notOp e))
  | _ => Raise Unmodelled
  end.

Definition p_error : exn := SyntaxError " Syntax error in input!".

(** *** The grammar *)

Record production :=
  { name : nonterminal;
    prod : list symbol;
    callable : list object -> result object }.

Definition rule_ (rhs : list symbol) (f : list object -> result object)
  : production :=
  {| name := expr; prod := rhs; callable := f |}.

(** Production 0 is yacc's [S' -> expr]; the others in the order of the
    docstrings. *)
Definition productions : list production :=
  [ {| name := Start; prod := [N expr];
       callable := fun p => Raise Unmodelled |};
    rule_ [T ID; T EQUAL; T SCALAR] p_expression_binop;
    rule_ [T ID; T NOT_EQUAL; T SCALAR] p_expression_binop;
    rule_ [T ID; T LESS_THAN; T SCALAR] p_expression_binop;
    rule_ [T ID; T GREATER_THAN; T SCALAR] p_expression_binop;
    rule_ [T ID; T LESS_THAN_OR_EQUAL; T SCALAR] p_expression_binop;
    rule_ [T ID; T GREATER_THAN_OR_EQUAL; T SCALAR] p_expression_binop;
    rule_ [T ID; T IN; T LIST] p_expression_inclusion;
    rule_ [T LPAREN; N expr; T RPAREN] p_expression_group;
    rule_ [N expr; T AND; N expr] p_expression_and;
    rule_ [N expr; T OR; N expr] p_expression_or;
    rule_ [T NOT; N expr] p_expression_not ].

Definition nonterminal_eqb (a b : nonterminal) : bool :=
  match a, b with
  | Start, Start | expr, expr => true
  | _, _ => false
  end.

Definition symbol_eqb (x y : symbol) : bool :=
  match x, y with
  | T a, T b => terminal_beq a b
  | N a, N b => nonterminal_eqb a b
  | _, _ => false
  end.

Definition symbols : list symbol := N expr :: map T tokens.

(** *** Precedence of tokens and of productions *)

Fixpoint level_of (table : list (associativity * list terminal)) (level : nat)
  (t : terminal) : option (associativity * nat) :=
  match table with
  | [] => None
  | (a, ts) :: rest =>
      if existsb (terminal_beq t) ts then Some (a, level)
      else level_of rest (S level) t
  end.

(** [Precedence.get(t, ('right', 0))]; the first line of the table has
    level 1. *)
Definition token_precedence (t : terminal) : associativity * nat :=
  match level_of precedence 1 t with
  | Some p => p
  | None => (right_assoc, 0)
  end.

Fixpoint rightmost_terminal (rhs : list symbol) : option terminal :=
  match rhs with
  | [] => None
  | x :: rest =>
      match rightmost_terminal rest, x with
      | Some t, _ => Some t
      | None, T t => Some t
      | None, N _ => None
      end
  end.

Definition production_precedence (p : production) : associativity * nat :=
  match rightmost_terminal (prod p) with
  | Some t => token_precedence t
  | None => (right_assoc, 0)
  end.

(** *** LR(0) items: a production number and the position of the dot *)

Definition item : Type := nat * nat.

Definition item_eqb (a b : item) : bool :=
  Nat.eqb (fst a) (fst b) && Nat.eqb (snd a) (snd b).

Definition rhs_of (p : nat) : list symbol :=
  match nth_error productions p with
  | Some pr => prod pr
  | None => []
  end.

Definition after_dot (i : item) : option symbol :=
  nth_error (rhs_of (fst i)) (snd i).

Definition mem_item (i : item) (J : list item) : bool :=
  existsb (item_eqb i) J.

Fixpoint add_items (new J : list item) : list item :=
  match new with
  | [] => J
  | i :: rest =>
      if mem_item i J then add_items rest J else add_items rest (J ++ [i])
  end.

(** The items [B -> . gamma] of the nonterminal [B]. *)
Definition initial_items (B : nonterminal) : list item :=
  flat_map
    (fun np => if nonterminal_eqb (name (snd np)) B then [(fst np, 0)] else [])
    (combine (seq 0 (List.length productions)) productions).

Fixpoint lr0_closure (fuel : nat) (J : list item) : list item :=
  match fuel with
  | O => J
  | S n =>
      lr0_closure n
        (add_items
           (flat_map
              (fun i =>
                 match after_dot i with
                 | Some (N B) => initial_items B
                 | _ => []
                 end) J)
           J)
  end.

Definition closure (J : list item) : list item :=
  lr0_closure (List.length productions) J.

Definition lr0_goto (J : list item) (x : symbol) : list item :=
  closure
    (flat_map
       (fun i =>
          match after_dot i with
          | Some y => if symbol_eqb x y then [(fst i, S (snd i))] else []
          | None => []
          end) J).

Definition same_items (J K : list item) : bool :=
  forallb (fun i => mem_item i K) J && forallb (fun i => mem_item i J) K.

Fixpoint index_of (J : list item) (C : list (list item)) (n : nat)
  : option nat :=
  match C with
  | [] => None
  | K :: rest => if same_items J K then Some n else index_of J rest (S n)
  end.

Definition add_state (C : list (list item)) (J : list item)
  : list (list item) :=
  match J, index_of J C 0 with
  | [], _ => C
  | _, Some _ => C
  | _, None => C ++ [J]
  end.

(** The sets of items: from [n] on, every set of [C] adds its successors. *)
Fixpoint lr0_items (fuel n : nat) (C : list (list item)) : list (list item) :=
  match fuel with
  | O => C
  | S f =>
      match nth_error C n with
      | None => C
      | Some J =>
          lr0_items f (S n)
            (fold_left add_state (map (lr0_goto J) symbols) C)
      end
  end.

Definition states : list (list item) :=
  Eval vm_compute in lr0_items 100 0 [closure [(0, 0)]].

Definition items_of (st : nat) : list item := nth st states [].

Definition transition (st : nat) (x : symbol) : option nat :=
  match lr0_goto (items_of st) x with
  | [] => None
  | J => index_of J states 0
  end.

(** *** Lookahead sets

    yacc computes the lookaheads of a reduction by the LALR method.  In
    this grammar every set of items with a complete item is entered from
    every context of [expr], so the lookaheads of each reduction are the
    terminals that can follow [expr]; they are computed as such.  [None]
    is the end of the input, [$end].  No production is empty. *)

Definition lookahead_symbol : Type := option terminal.

Definition lookahead_eqb (a b : lookahead_symbol) : bool :=
  match a, b with
  | Some x, Some y => terminal_beq x y
  | None, None => true
  | _, _ => false
  end.

Fixpoint first (fuel : nat) (x : symbol) : list terminal :=
  match x with
  | T t => [t]
  | N A =>
      match fuel with
      | O => []
      | S n =>
          flat_map
            (fun p =>
               match prod p with
               | y :: _ =>
                   if nonterminal_eqb (name p) A && negb (symbol_eqb y (N A))
                   then first n y else []
               | [] => []
               end) productions
      end
  end.

(** What follows each occurrence of [N B] in [rhs], given the sets [F]
    of the left-hand side. *)
Fixpoint after_occurrences (F : list lookahead_symbol) (B : nonterminal)
  (rhs : list symbol) : list lookahead_symbol :=
  match rhs with
  | [] => []
  | x :: rest =>
      (if symbol_eqb x (N B)
       then match rest with
            | y :: _ => map Some (first 2 y)
            | [] => F
            end
       else [])
        ++ after_occurrences F B rest
  end.

Fixpoint follow (fuel : nat) (B : nonterminal) : list lookahead_symbol :=
  match fuel with
  | O => []
  | S n =>
      (match B with Start => [None] | expr => [] end)
        ++ flat_map
             (fun p => after_occurrences (follow n (name p)) B (prod p))
             productions
  end.

Fixpoint distinct (l : list lookahead_symbol) : list lookahead_symbol :=
  match l with
  | [] => []
  | a :: rest =>
      if existsb (lookahead_eqb a) rest then distinct rest
      else a :: distinct rest
  end.

Definition lookaheads (p : nat) : list lookahead_symbol :=
  match nth_error productions p with
  | Some pr => distinct (follow 3 (name pr))
  | None => []
  end.

(** *** The parsing table *)

Inductive action :=
| Shift (st : nat)
| Reduce (p : nat)
| Accept.

Definition is_left (a : associativity) : bool :=
  match a with left_assoc => true | _ => false end.

Definition is_nonassoc (a : associativity) : bool :=
  match a with nonassoc => true | _ => false end.

(** A shift of [a] against the reduction by [p]: reduce when the
    production has the higher level, or the same level and associates
    to the left; otherwise shift ([None]: a syntax error, for
    [nonassoc]). *)
Definition resolve (a : terminal) (st p : nat) : option action :=
  let (_, slevel) := token_precedence a in
  let (rprec, rlevel) :=
    match nth_error productions p with
    | Some pr => production_precedence pr
    | None => (right_assoc, 0)
    end in
  if (slevel <? rlevel)%nat || ((slevel =? rlevel)%nat && is_left rprec)
  then Some (Reduce p)
  else if (slevel =? rlevel)%nat && is_nonassoc rprec then None
  else Some (Shift st).

Definition row : Type := list (lookahead_symbol * option action).

Fixpoint row_get (r : row) (a : lookahead_symbol) : option (option action) :=
  match r with
  | [] => None
  | (b, x) :: rest => if lookahead_eqb a b then Some x else row_get rest a
  end.

Fixpoint row_set (r : row) (a : lookahead_symbol) (x : option action) : row :=
  match r with
  | [] => [(a, x)]
  | (b, y) :: rest =>
      if lookahead_eqb a b then (b, x) :: rest else (b, y) :: row_set rest a x
  end.

(** Entering [new] for the lookahead [a]: a conflict with the entry
    already there is resolved by [resolve]; of two reductions the one
    defined first stays. *)
Definition enter (r : row) (a : lookahead_symbol) (new : action) : row :=
  match row_get r a, a with
  | None, _ => row_set r a (Some new)
  | Some (Some (Shift st)), Some t =>
      match new with
      | Reduce p => row_set r a (resolve t st p)
      | _ => r
      end
  | Some (Some (Reduce p)), Some t =>
      match new with
      | Shift st => row_set r a (resolve t st p)
      | Reduce q => if (q <? p)%nat then row_set r a (Some new) else r
      | Accept => r
      end
  | Some _, _ => r
  end.

Definition item_actions (st : nat) (r : row) (i : item) : row :=
  match after_dot i with
  | None =>
      match fst i with
      | O => enter r None Accept
      | p => fold_left (fun r a => enter r a (Reduce p)) (lookaheads p) r
      end
  | Some (T a) =>
      match transition st (T a) with
      | Some j => enter r (Some a) (Shift j)
      | None => r
      end
  | Some (N _) => r
  end.

Definition lr_parse_table : list row :=
  Eval vm_compute in
    map (fun st => fold_left (item_actions st) (items_of st) [])
      (seq 0 (List.length states)).

Definition lr_goto_table : list (option nat) :=
  Eval vm_compute in
    map (fun st => transition st (N expr)) (seq 0 (List.length states)).

Definition action_of (st : nat) (a : lookahead_symbol) : option action :=
  match row_get (nth st lr_parse_table []) a with
  | Some x => x
  | None => None
  end.

Definition goto (st : nat) : option nat := nth st lr_goto_table None.

(** The states yacc would leave without reading the lookahead: those
    whose row is a single reduction. *)
Definition defaulted_states : list nat :=
  filter
    (fun st =>
       match nth st lr_parse_table [] with
       | [(_, Some (Reduce _))] => true
       | _ => false
       end) (seq 0 (List.length states)).

(** *** [LRParser.parse] *)

Definition YaccSymbol : Type := symbol * object.

Definition lookahead_type (t : option LexToken) : lookahead_symbol :=
  option_map type t.

Section Driver.
(** Where the tokens come from: [get_token] is [lexer.token]. *)
Variable Source : Type.
Variable get_token : Source -> result (option (LexToken * Source)).

(** One turn of the loop: read the lookahead if there is none, look
    the action up, and shift, reduce, return or fail.  [statestack]
    and [symstack] have their top first. *)
Inductive turn :=
| Continue (statestack : list nat) (symstack : list YaccSymbol)
    (lookahead : option (option LexToken)) (src : Source)
| Return (r : result object).

(** A reduction by production [p]: the action is called on the values of
    the symbols popped, then the state entered on the left-hand side is
    pushed.  An exception of the action leaves the parser (yacc catches
    [SyntaxError] alone, which no action of this grammar raises). *)
Definition reduce (p : nat) (statestack : list nat)
  (symstack : list YaccSymbol) (lookahead : option LexToken) (src : Source)
  : turn :=
  match nth_error productions p with
  | None => Return (Raise Unmodelled)
  | Some pr =>
      let plen := List.length (prod pr) in
      if (List.length symstack <? plen)%nat then Return (Raise Unmodelled)
      else
        let targ := rev (map snd (firstn plen symstack)) in
        match callable pr targ with
        | Raise e => Return (Raise e)
        | Ok v =>
            match skipn plen statestack with
            | [] => Return (Raise Unmodelled)
            | (below :: _) as rest =>
                match goto below with
                | None => Return (Raise Unmodelled)
                | Some st =>
                    Continue (st :: rest)
                      ((N (name pr), v) :: skipn plen symstack)
                      (Some lookahead) src
                end
            end
        end
  end.

Definition act (statestack : list nat) (symstack : list YaccSymbol)
  (lookahead : option LexToken) (src : Source) : turn :=
  match statestack with
  | [] => Return (Raise Unmodelled)
  | state :: _ =>
      match action_of state (lookahead_type lookahead), lookahead with
      | Some (Shift t), Some tok =>
          Continue (t :: statestack) ((T (type tok), value tok) :: symstack)
            None src
      | Some (Shift _), None => Return (Raise Unmodelled)
      | Some (Reduce p), _ => reduce p statestack symstack lookahead src
      | Some Accept, _ =>
          match symstack with
          | (_, v) :: _ => Return (Ok v)
          | [] => Return (Raise Unmodelled)
          end
      | None, _ => Return (Raise p_error)
      end
  end.

Definition step (statestack : list nat) (symstack : list YaccSymbol)
  (lookahead : option (option LexToken)) (src : Source) : turn :=
  match lookahead with
  | Some la => act statestack symstack la src
  | None =>
      match get_token src with
      | Raise e => Return (Raise e)
      | Ok None => act statestack symstack None src
      | Ok (Some (tok, src')) => act statestack symstack (Some tok) src'
      end
  end.

(** The loop, [fuel] turns long; [None] when they do not suffice. *)
Fixpoint loop (fuel : nat) (statestack : list nat)
  (symstack : list YaccSymbol) (lookahead : option (option LexToken))
  (src : Source) : option (result object) :=
  match fuel with
  | O => None
  | S n =>
      match step statestack symstack lookahead src with
      | Return r => Some r
      | Continue statestack' symstack' lookahead' src' =>
          loop n statestack' symstack' lookahead' src'
      end
  end.

Definition run (fuel : nat) (src : Source) : option (result object) :=
  loop fuel [0] [] None src.
End Driver.

(** Parsing a sequence of tokens. *)
Definition next_of_list (toks : list LexToken)
  : result (option (LexToken * list LexToken)) :=
  match toks with
  | [] => Ok None
  | tok :: rest => Ok (Some (tok, rest))
  end.

Definition parse_tokens (toks : list LexToken) : option (result object) :=
  run (list LexToken) next_of_list (3 * List.length toks + 3) toks.

(** [Parser().parse(input, lexer=Lexer())]. *)
Definition parse (input : string) : option (result object) :=
  run string Lexer.token (3 * String.length input + 3) input.
End Parser.

(** ** Using the module: build the query of an expression, call it on a
    document *)

Definition evaluate (input : string) (record : pyval) : option (result bool) :=
  match Parser.parse input with
  | Some (Ok (Instance q)) => Some (call q record)
  | Some (Ok _) => Some (Raise Unmodelled)
  | Some (Raise e) => Some (Raise e)
  | None => None
  end.

(** ** Notions of the specification *)

(** The field path the specification describes: the segments of a dotted
    name, in order. *)
Fixpoint split_dots (segment : string) (s : string) : list string :=
  match s with
  | "" => [segment]
  | String c rest =>
      if Ascii.eqb c "." then segment :: split_dots "" rest
      else split_dots (segment ++ String c "") rest
  end.

Definition FieldPath (dotted : string) : list string := split_dots "" dotted.

(** The text of each operator of [ops]. *)
Definition op_text (f : operator.fn) : string :=
  match f with
  | operator.eq => "=="
  | operator.ne => "!="
  | operator.le => "<="
  | operator.ge => ">="
  | operator.lt => "<"
  | operator.gt => ">"
  end.

(** The node [Comparison{field, op, value}] and the node
    [Membership{field, values}] of the specification, as the queries the
    grammar actions build for them. *)
Definition Comparison (field : string) (f : operator.fn) (v : literal)
  : QueryInstance :=
  Runner [field] (Compare f v).

Definition Membership (field : string) (values : list literal)
  : QueryInstance :=
  Runner [field] (OneOf values).

Definition nested_record : pyval :=
  PyDict [("user_config", PyDict [("seed", Scalar (PyInt 1))])].

Definition flat_record : pyval :=
  PyDict [("user_config.seed", Scalar (PyInt 1))].

(** ** Notions used by the proofs *)

(** [r] cannot match the empty text. *)
Fixpoint consumes (r : regex) : bool :=
  match r with
  | Empty | Star _ _ => false
  | Chr _ | In_ _ _ | Dot => true
  | Cat a b => consumes a || consumes b
  | Alt a b => consumes a && consumes b
  end.

(** The continuation [k] succeeds with [x] on an end [s'] of [s]; what
    stands before [s'] is not empty when [nonempty] is set. *)
Definition splits (s : string) (k : string -> option string)
  (x : string) (nonempty : bool) : Prop :=
  exists p s',
    s = (p ++ s')%string /\ k s' = Some x /\ (nonempty = true -> p <> "").

(** The operator a comparison token stands for. *)
Definition operator_of (t : terminal) : option operator.fn :=
  match t with
  | EQUAL => Some operator.eq
  | NOT_EQUAL => Some operator.ne
  | LESS_THAN_OR_EQUAL => Some operator.le
  | GREATER_THAN_OR_EQUAL => Some operator.ge
  | LESS_THAN => Some operator.lt
  | GREATER_THAN => Some operator.gt
  | _ => None
  end.

(** What the lexer guarantees of the value of a token: an identifier
    carries its name, a comparison operator its text, [SCALAR] a constant
    and [LIST] a list of constants.  The grammar actions do not read the
    value of the other tokens. *)
Definition lexed (tok : LexToken) : Prop :=
  match type tok with
  | ID => exists s, value tok = text s
  | SCALAR => exists l, value tok = Const l
  | LIST => exists xs, value tok = Items xs
  | t =>
      match operator_of t with
      | Some f => value tok = text (op_text f)
      | None => True
      end
  end.

(** The language of the grammar: [yields xs w] when the symbols [xs]
    derive the terminals [w] by the productions of [Parser]. *)
Inductive yields : list Parser.symbol -> list terminal -> Prop :=
| yields_nil : yields [] []
| yields_T t xs w : yields xs w -> yields (Parser.T t :: xs) (t :: w)
| yields_N p pr xs w1 w2 :
    nth_error Parser.productions p = Some pr ->
    yields (Parser.prod pr) w1 ->
    yields xs w2 ->
    yields (Parser.N (Parser.name pr) :: xs) (w1 ++ w2).

(** A sequence of tokens obeys the grammar when [expr] derives it. *)
Definition sentence (w : list terminal) : Prop :=
  yields [Parser.N Parser.expr] w.

(** The state the parser enters from [st] on the symbol [x]. *)
Definition target (st : nat) (x : Parser.symbol) : option nat :=
  match x with
  | Parser.T a =>
      match Parser.action_of st (Some a) with
      | Some (Parser.Shift j) => Some j
      | _ => None
      end
  | Parser.N Parser.expr => Parser.goto st
  | Parser.N Parser.Start => None
  end.

(** What the parser's stack holds for a symbol: a token of the lexer, or
    the query built for an [expr]. *)
Definition held (x : Parser.symbol) (v : object) : Prop :=
  match x with
  | Parser.T t => lexed {| type := t; value := v |}
  | Parser.N _ => exists q, v = Instance q
  end.

(** The stacks the parser can reach: state 0 at the bottom, every other
    state entered from the one below on the symbol pushed with it. *)
Inductive stacked : list nat -> list Parser.YaccSymbol -> Prop :=
| stacked_bottom : stacked [0] []
| stacked_push st st' x v ss sy :
    stacked (st :: ss) sy ->
    target st x = Some st' ->
    held x v ->
    stacked (st' :: st :: ss) ((x, v) :: sy).

Definition state_numbers : list nat := seq 0 (List.length Parser.states).

Definition all_symbols : list Parser.symbol :=
  Parser.N Parser.Start :: Parser.symbols.

Definition all_lookaheads : list Parser.lookahead_symbol :=
  None :: map Some tokens.

(** An item with the dot after [d + 1] symbols stands in [st] only if
    [st] is entered on the symbol before the dot, from states holding the
    item with the dot one place to the left. *)
Definition item_supported (st0 : nat) (x : Parser.symbol) (i : Parser.item)
  : bool :=
  match snd i with
  | O => true
  | S d =>
      match nth_error (Parser.rhs_of (fst i)) d with
      | Some y => Parser.symbol_eqb y x
      | None => false
      end
      && Parser.mem_item (fst i, d) (Parser.items_of st0)
  end.

Definition transitions_checked : bool :=
  forallb
    (fun st0 =>
       forallb
         (fun x =>
            match target st0 x with
            | None => true
            | Some st =>
                (st <? List.length Parser.states)%nat
                && negb (st =? 0)%nat
                && forallb (item_supported st0 x) (Parser.items_of st)
            end) all_symbols) state_numbers.

(** A reduction is entered only where its production is complete; the
    reduced production is one of [expr], with two symbols at least. *)
Definition actions_checked : bool :=
  forallb
    (fun st =>
       forallb
         (fun a =>
            match Parser.action_of st a with
            | Some (Parser.Reduce p) =>
                Parser.mem_item (p, List.length (Parser.rhs_of p))
                  (Parser.items_of st)
                && (1 <=? p)%nat && (p <? List.length Parser.productions)%nat
                && (2 <=? List.length (Parser.rhs_of p))%nat
            | Some Parser.Accept =>
                Parser.mem_item (0, 1) (Parser.items_of st)
                && match a with None => true | Some _ => false end
            | Some (Parser.Shift _) =>
                match a with None => false | Some _ => true end
            | None => true
            end) all_lookaheads) state_numbers.

(** Where an item of [expr] begins, [expr] can be entered; the item of
    the start symbol begins in state 0 only. *)
Definition gotos_checked : bool :=
  forallb
    (fun st =>
       forallb
         (fun i =>
            match i with
            | (O, O) => (st =? 0)%nat
            | (S _, O) =>
                match Parser.goto st with Some _ => true | None => false end
            | _ => true
            end) (Parser.items_of st)) state_numbers
  && forallb (fun i => (snd i =? 0)%nat) (Parser.items_of 0).

(** [reads get_token src toks]: read to its end, the source gives the
    tokens [toks] and raises nothing. *)
Inductive reads {Source : Type}
  (get_token : Source -> result (option (LexToken * Source)))
  : Source -> list LexToken -> Prop :=
| reads_end src : get_token src = Ok None -> reads get_token src []
| reads_token src tok src' toks :
    get_token src = Ok (Some (tok, src')) ->
    reads get_token src' toks ->
    reads get_token src (tok :: toks).

(** The tokens the parser has still to see: its lookahead, then what the
    source gives. *)
Definition pending {Source : Type}
  (get_token : Source -> result (option (LexToken * Source)))
  (lookahead : option (option LexToken)) (src : Source)
  (rest : list LexToken) : Prop :=
  match lookahead with
  | None => reads get_token src rest
  | Some None => rest = []
  | Some (Some tok) =>
      exists rest', rest = tok :: rest' /\ reads get_token src rest'
  end.

(** A bound on the turns the loop has still to make. *)
Definition effort {Source : Type} (size : Source -> nat)
  (statestack : list nat) (lookahead : option (option LexToken))
  (src : Source) : nat :=
  3 * size src + List.length statestack
  + match lookahead with
    | None => 1
    | Some None => 0
    | Some (Some _) => 3
    end.

(** What holds of the parser at every turn, [w] being the tokens shifted
    so far and [src0] the source it started from. *)
Definition invariant {Source : Type}
  (get_token : Source -> result (option (LexToken * Source)))
  (good : Source -> Prop) (src0 : Source) (w : list LexToken)
  (statestack : list nat) (symstack : list Parser.YaccSymbol)
  (lookahead : option (option LexToken)) (src : Source) : Prop :=
  stacked statestack symstack
  /\ good src
  /\ match lookahead with Some (Some tok) => lexed tok | _ => True end
  /\ yields (map fst (rev symstack)) (map type w)
  /\ forall toks,
      reads get_token src0 toks ->
      exists rest, pending get_token lookahead src rest /\ toks = w ++ rest.

(** How the parser can end: with the syntax error of [p_error]; with a
    query, and then the tokens of the source obey the grammar; or with an
    exception of the source. *)
Definition outcome {Source : Type}
  (get_token : Source -> result (option (LexToken * Source)))
  (src0 : Source) (r : result object) : Prop :=
  r = Raise Parser.p_error
  \/ (exists q, r = Ok (Instance q)
                /\ forall toks, reads get_token src0 toks ->
                                sentence (map type toks))
  \/ (exists e src, r = Raise e /\ get_token src = Raise e
                    /\ forall toks, ~ reads get_token src0 toks).

(** The sum of the weights [phi] of terminals, over a sequence of
    terminals and over the terminals of a sequence of symbols. *)
Definition weight (phi : terminal -> Z) (w : list terminal) : Z :=
  fold_right (fun t acc => (phi t + acc)%Z) 0%Z w.

Definition weight_of_symbols (phi : terminal -> Z) (xs : list Parser.symbol)
  : Z :=
  fold_right
    (fun x acc => match x with Parser.T t => (phi t + acc)%Z | _ => acc end)
    0%Z xs.

(** Identifiers against constants: every production has as many of the
    ones as of the others. *)
Definition names_against_constants (t : terminal) : Z :=
  match t with
  | ID => 1
  | SCALAR | LIST => -1
  | _ => 0
  end.

(** The exceptions the lexer raises: an illegal character, or what
    [literal_eval] raises. *)
Definition lexer_error (e : exn) : Prop :=
  (exists s, e = Lexer.t_error s)
  \/ e = invalid_syntax \/ e = malformed_node \/ e = Unmodelled.

(** The token of each comparison operator, and the three tokens of a
    comparison [k op v]. *)
Definition operator_token (f : operator.fn) : LexToken :=
  {| type := match f with
             | operator.eq => EQUAL
             | operator.ne => NOT_EQUAL
             | operator.le => LESS_THAN_OR_EQUAL
             | operator.ge => GREATER_THAN_OR_EQUAL
             | operator.lt => LESS_THAN
             | operator.gt => GREATER_THAN
             end;
     value := text (op_text f) |}.

Definition comparison_tokens (k : string) (f : operator.fn) (v : literal)
  : list LexToken :=
  [ {| type := ID; value := text k |};
    operator_token f;
    {| type := SCALAR; value := Const v |} ].

Definition and_token : LexToken := {| type := AND; value := text "&" |}.
Definition or_token : LexToken := {| type := OR; value := text "|" |}.
Definition not_token : LexToken := {| type := NOT; value := text "~" |}.

Definition parsed (q : QueryInstance) : option (result object) :=
  Some (Ok (Instance q)).

(** The rule of the lexer for booleans. *)
Definition bool_rule : Lexer.rule :=
  {| Lexer.pattern := Lexer.t_BOOL_doc; Lexer.produce := Lexer.t_BOOL |}.

(** [w] is [true] or [false] in some letter case. *)
Definition boolean_spelling (w : string) : bool :=
  same_word w "true" || same_word w "false".

(** [x], on its own, is read by the lexer as one Scalar token with the
    constant [v]. *)
Definition scalar_text (x : string) (v : literal) : Prop :=
  Lexer.token x = Ok (Some ({| type := SCALAR; value := Const v |}, "")).

Definition no_bracket (x : string) : bool :=
  forall_chars (fun c => negb (Ascii.eqb c "]")) x.

(** A text that [split_commas] passes over without cutting it, coming
    back outside quotes. *)
Definition closed (a : string) : Prop :=
  forall piece s,
    split_commas None piece (a ++ s) = split_commas None (piece ++ a) s.

Definition outside_quotes (c : ascii) : bool :=
  negb (Ascii.eqb c "," || Ascii.eqb c "'" || Ascii.eqb c dquote).

Definition list_rule : Lexer.rule :=
  {| Lexer.pattern := Lexer.t_LIST_doc; Lexer.produce := Lexer.t_LIST |}.

(** The exceptions [ast.literal_eval] raises. *)
Definition literal_error_of (e : exn) : Prop :=
  e = invalid_syntax \/ e = malformed_node \/ e = Unmodelled.


(** ** Further notions *)

Definition lparen_token : LexToken := {| type := LPAREN; value := text "(" |}.
Definition rparen_token : LexToken := {| type := RPAREN; value := text ")" |}.

(** The query of [k==v | k==x1 | ... | k==xn], as the parser builds it. *)
Definition any_equal (k : string) (v : literal) (xs : list literal)
  : QueryInstance :=
  fold_left (fun q x => orOp q (Comparison k operator.eq x)) xs
    (Comparison k operator.eq v).

(** The characters a token can begin with, and those that are neither
    blanks nor the beginning of any token. *)
Definition begins_token (c : ascii) : bool :=
  between "a" "z" c || between "A" "Z" c || between "0" "9" c
  || existsb (Ascii.eqb c)
       ["_"; "["; "'"; dquote; "="; "!"; "<"; ">"; "&"; "|"; "~"; "("; ")"]%char.

Definition illegal (c : ascii) : bool :=
  negb (Lexer.t_ignore c || begins_token c).

(** The text does not go on with the character [c]. *)
Definition not_followed_by (c : ascii) (rest : string) : Prop :=
  match rest with
  | "" => True
  | String x _ => x <> c
  end.

Definition id_rule : Lexer.rule :=
  {| Lexer.pattern := Lexer.t_ID_doc; Lexer.produce := Lexer.t_ID |}.

(** Two turns of the parser over two sources agree: the same stacks and
    lookahead over sources related by [R], or the same result. *)
Definition same_turn {S1 S2 : Type} (R : S1 -> S2 -> Prop)
  (t1 : Parser.turn S1) (t2 : Parser.turn S2) : Prop :=
  match t1, t2 with
  | Parser.Continue _ ss1 sy1 la1 s1, Parser.Continue _ ss2 sy2 la2 s2 =>
      ss1 = ss2 /\ sy1 = sy2 /\ la1 = la2 /\ R s1 s2
  | Parser.Return _ r1, Parser.Return _ r2 => r1 = r2
  | _, _ => False
  end.

(** Two sources related by [R] give the same token, and sources related
    again, or end together, or raise the same exception. *)
Definition same_tokens {S1 S2 : Type} (R : S1 -> S2 -> Prop)
  (g1 : S1 -> result (option (LexToken * S1)))
  (g2 : S2 -> result (option (LexToken * S2))) : Prop :=
  forall s1 s2, R s1 s2 ->
    match g1 s1, g2 s2 with
    | Ok None, Ok None => True
    | Ok (Some (t1, s1')), Ok (Some (t2, s2')) => t1 = t2 /\ R s1' s2'
    | Raise e1, Raise e2 => e1 = e2
    | _, _ => False
    end.

(** The decimal writing of a natural number. *)
Definition decimal (n : nat) : string :=
  DecimalString.NilZero.string_of_uint (Nat.to_uint n).

(** The text does not go on with a digit or a point. *)
Definition number_ends (rest : string) : Prop :=
  match rest with
  | "" => True
  | String c _ => is_digit c = false /\ c <> "."%char
  end.

Definition scalar_rule : Lexer.rule :=
  {| Lexer.pattern := Lexer.t_SCALAR_doc; Lexer.produce := Lexer.t_SCALAR |}.

(** ** [utils._flatten_dict]

    A [dict] is an association list with distinct keys, in the order of
    insertion.  [dict_set] is [d[key] = v]: the value of an entry is
    replaced where it stands, a new entry goes to the end. *)
Fixpoint dict_set (kv : list (string * pyval)) (key : string) (v : pyval)
  : list (string * pyval) :=
  match kv with
  | [] => [(key, v)]
  | (k, x) :: rest =>
      if String.eqb k key then (k, v) :: rest
      else (k, x) :: dict_set rest key v
  end.

(** [d.update(items)] and [dict(items)] *)
Definition dict_update (d items : list (string * pyval))
  : list (string * pyval) :=
  fold_left (fun d item => dict_set d (fst item) (snd item)) items d.

Definition dict_ (items : list (string * pyval)) : list (string * pyval) :=
  dict_update [] items.

(** [isinstance(v, MutableMapping)] *)
Definition is_mapping (v : pyval) : bool :=
  match v with
  | PyDict _ => true
  | _ => false
  end.

Section FlattenDictGen.
(** [on_mapping v new_key] is [_flatten_dict(v, new_key, sep=sep).items()]
    for a value [v] that is a mapping. *)
Variable on_mapping : pyval -> string -> list (string * pyval).
Variable sep : string.

Fixpoint _flatten_dict_gen (d : list (string * pyval)) (parent_key : string)
  : list (string * pyval) :=
  match d with
  | [] => []
  | (k, v) :: rest =>
      let new_key :=
        if negb (String.eqb parent_key "")
        then ((parent_key ++ sep) ++ k)%string
        else k in
      (if is_mapping v then on_mapping v new_key else [(new_key, v)])
        ++ _flatten_dict_gen rest parent_key
  end.
End FlattenDictGen.

Fixpoint flatten_mapping (sep : string) (v : pyval) (parent_key : string)
  {struct v} : list (string * pyval) :=
  match v with
  | PyDict d =>
      dict_ (_flatten_dict_gen (flatten_mapping sep) sep d parent_key)
  | _ => []
  end.

Definition _flatten_dict (d : list (string * pyval)) (parent_key sep : string)
  : list (string * pyval) :=
  flatten_mapping sep (PyDict d) parent_key.

(** The mappings whose keys, at every depth, are not empty, hold no
    point and are distinct. *)
Definition key_ok (k : string) : bool :=
  negb (String.eqb k "") && forall_chars (fun c => negb (Ascii.eqb c ".")) k.

Section EntriesOk.
Variable nested : pyval -> bool.

Fixpoint entries_ok (d : list (string * pyval)) : bool :=
  match d with
  | [] => true
  | (k, v) :: rest =>
      key_ok k && negb (existsb (String.eqb k) (map fst rest))
      && nested v && entries_ok rest
  end.
End EntriesOk.

Fixpoint well_formed (v : pyval) : bool :=
  match v with
  | PyDict d => entries_ok well_formed d
  | _ => true
  end.

(** The last entry of a key in a list of items. *)
Fixpoint last_of (items : list (string * pyval)) (key : string) : option pyval :=
  match items with
  | [] => None
  | (k, v) :: rest =>
      match last_of rest key with
      | Some x => Some x
      | None => if String.eqb k key then Some v else None
      end
  end.

(** [key] under the prefix [parent_key], as [_flatten_dict_gen] writes it. *)
Definition under (parent_key key : string) : string :=
  if negb (String.eqb parent_key "")
  then ((parent_key ++ ".") ++ key)%string
  else key.

(** ** [launcher._get_overrides]

    [starts_with sub s] is [s.startswith(sub)] and [contains sub s] is
    [sub in s] on strings. *)
Fixpoint starts_with (sub s : string) : bool :=
  match sub with
  | "" => true
  | String c sub' =>
      match s with
      | "" => false
      | String x s' => Ascii.eqb c x && starts_with sub' s'
      end
  end.

Fixpoint contains (sub s : string) : bool :=
  starts_with sub s
  || match s with
     | "" => false
     | String _ s' => contains sub s'
     end.

Definition filter_fn (x : string) : bool :=
  negb (contains "scheduler" x) && negb (contains "logger.parent_log_dir" x).

(** [overrides] is [HydraConfig.get().overrides.task], the overrides of
    the command line. *)
Definition _get_overrides (overrides : list string) : string :=
  let filtered_args := filter filter_fn overrides in
  let args := String.concat " " filtered_args in
  args.

(** ** Field names

    The characters of a name, a segment of a dotted name, the text of a
    dotted name after its first segment, and the texts that do not go on
    with the name. *)
Definition is_word (c : ascii) : bool := is_name_start c || is_digit c.

Definition word_segment (s : string) : bool :=
  negb (String.eqb s "") && forall_chars is_word s.

Fixpoint after_first (segments : list string) : string :=
  match segments with
  | [] => ""
  | s :: rest => String "." (s ++ after_first rest)
  end.

Definition name_ends (rest : string) : Prop :=
  match rest with
  | "" => True
  | String c rest' =>
      is_word c = false
      /\ (c = "."%char ->
          match rest' with
          | "" => True
          | String c' _ => is_word c' = false
          end)
  end.

(** The text begins with [true] or [false] in some letter case. *)
Definition boolean_prefix (s : string) : bool :=
  starts_with "true" (lowercase s) || starts_with "false" (lowercase s).

Definition begins_with_digit (s : string) : bool :=
  match s with
  | String c _ => is_digit c
  | "" => false
  end.

(** [txt] is a way of writing the constant [v] in an expression: a
    natural number in decimal, a text between quotes, [True] or
    [False]. *)
Definition written (v : literal) (txt : string) : Prop :=
  match v with
  | PyInt z =>
      exists n, z = Z.of_nat n /\ txt = decimal n /\ String.length txt <= 4300
  | PyStr body =>
      exists q, (q = "'"%char \/ q = dquote)
                /\ forall_chars (is_plain_char q) body = true
                /\ txt = String q (body ++ String q "")
  | PyBool b => txt = if b then "True" else "False"
  | _ => False
  end.

(** ** [configure._configure_scheduler]

    The loop that asks for the name of a scheduler class.  [inputs] are
    the lines that [input] returns, one a call; what the function prints
    is not modelled, and the assignment to
    [mlxpy_config.mlxpy.scheduler.name] is the name it answers. *)

(** [str.isspace], on the code points below 256. *)
Definition isspace (c : ascii) : bool :=
  between "009" "013" c || between "028" "032" c
  || Ascii.eqb c "133" || Ascii.eqb c "160".

Fixpoint str_lstrip (s : string) : string :=
  match s with
  | String c rest => if isspace c then str_lstrip rest else s
  | "" => ""
  end.

Fixpoint str_rstrip (s : string) : string :=
  match s with
  | String c rest =>
      match str_rstrip rest with
      | "" => if isspace c then "" else String c ""
      | r => String c r
      end
  | "" => ""
  end.

(** [s.strip()] *)
Definition str_strip (s : string) : string := str_rstrip (str_lstrip s).

(** [s.rsplit('.', 1)]: cut at the last point, if there is one. *)
Fixpoint rsplit_point (s : string) : option (string * string) :=
  match s with
  | "" => None
  | String c rest =>
      match rsplit_point rest with
      | Some (a, b) => Some (String c a, b)
      | None => if Ascii.eqb c "." then Some ("", rest) else None
      end
  end.

Definition rsplit (s : string) : list string :=
  match rsplit_point s with
  | Some (a, b) => [a; b]
  | None => [s]
  end.

(** [s.isidentifier()].  The letters of ASCII, the digits and the
    underscore are told apart here; a text with a character beyond ASCII
    and no ASCII character out of place is left undecided. *)
Definition is_ascii (c : ascii) : bool := (code c <? 128)%N.

Definition isidentifier (s : string) : option bool :=
  match s with
  | "" => Some false
  | String c rest =>
      if (is_ascii c && negb (is_name_start c))
         || negb (forall_chars (fun x => negb (is_ascii x) || is_word x) rest)
      then Some false
      else if forall_chars is_ascii s then Some true
      else None
  end.

(** The loop over [names], from [is_valid = True]. *)
Definition all_identifiers (names : list string) : option bool :=
  fold_left
    (fun is_valid name =>
       match isidentifier name, is_valid with
       | Some false, _ => Some false
       | Some true, v => v
       | None, Some false => Some false
       | None, _ => None
       end)
    names (Some true).

Inductive configured :=
| Chosen (name : string)
| Skipped
| EOFError
| Undecided.

Fixpoint _configure_scheduler (inputs : list string)
  : configured * list string :=
  match inputs with
  | [] => (EOFError, [])
  | files_input :: rest =>
      if negb (String.eqb files_input "") then
        let names := rsplit (str_strip files_input) in
        match all_identifiers names with
        | Some true => (Chosen files_input, rest)
        | Some false => _configure_scheduler rest
        | None => (Undecided, rest)
        end
      else (Skipped, rest)
  end.

Fixpoint count_points (s : string) : nat :=
  match s with
  | "" => 0
  | String c rest => (if Ascii.eqb c "." then 1 else 0) + count_points rest
  end.
(** * Properties *)

(** ** Field paths (C1) *)

Lemma binOp_builds (k : string) (f : operator.fn) (v : literal) :
  binOp k (op_text f) v = Ok (Comparison k f v).
Proof. destruct f; reflexivity. Qed.

Lemma inclusionOp_builds (key : string) (values : list literal) :
  inclusionOp key values = Ok (Membership key values).
Proof. reflexivity. Qed.

Lemma ops_get_text (op : string) (f : operator.fn) :
  ops_get ops op = Some f -> op = op_text f.
Proof.
  unfold ops; cbn [ops_get].
  repeat match goal with
    | |- (if String.eqb ?a op then _ else _) = _ -> _ =>
        let E := fresh "E" in
        destruct (String.eqb a op) eqn:E;
        [apply String.eqb_eq in E; intros H; injection H as <-; now subst|]
    end.
  intros H; discriminate H.
Qed.

Lemma binOp_inv (k op : string) (v : literal) (q : QueryInstance) :
  binOp k op v = Ok q -> exists f, op = op_text f /\ q = Comparison k f v.
Proof.
  unfold binOp. destruct (ops_get ops op) as [f|] eqn:E; [|discriminate].
  intros H. exists f. split; [now apply ops_get_text|].
  cbv in H. now injection H as <-.
Qed.

(** C1, as the specification states it, fails: the dotted name
    [user_config.seed] is not split into the segments [user_config] and
    [seed]; it is looked up as one key, so the nested document does not
    resolve and the flat one does. *)
Lemma C1_dotted_name_is_not_split :
  _path (_build_field_struct "user_config.seed") <> FieldPath "user_config.seed"
  /\ resolve (FieldPath "user_config.seed") nested_record = Ok (Scalar (PyInt 1))
  /\ resolve (_path (_build_field_struct "user_config.seed")) nested_record
     = Raise (KeyError "user_config.seed")
  /\ evaluate "user_config.seed==1" nested_record = Some (Ok false)
  /\ evaluate "user_config.seed==1" flat_record = Some (Ok true).
Proof. repeat split; try discriminate; vm_compute; reflexivity. Qed.

(** C1, amended: the identifier is kept whole as the single segment of the
    path; resolving it is one lookup of that name in the record, and a
    comparison or membership test on it gives [False], not an error, when
    the record has no such key or is not a mapping. *)
Theorem C1_field_is_one_lookup (key : string) (t : test) (record : pyval) :
  _path (_build_field_struct key) = [key]
  /\ resolve (_path (_build_field_struct key)) record = getitem record key
  /\ runner (_path (_build_field_struct key)) t record
     = match getitem record key with
       | Ok v => run_test t v
       | Raise _ => Ok false
       end.
Proof.
  split; [reflexivity|]. split.
  - simpl. destruct (getitem record key); reflexivity.
  - unfold runner. simpl. destruct record as [l|xs|kv]; simpl; try reflexivity.
    destruct (dict_get kv key); reflexivity.
Qed.

(** ** Operands that Python does not order (C2) *)

(** C2, as the specification states it, fails: with the string ["abc"]
    under the key [n], the query of [n<5] raises [TypeError]. *)
Lemma C2_string_against_number_raises :
  evaluate "n<5" (PyDict [("n", Scalar (PyStr "abc"))]) = Some (Raise TypeError).
Proof. vm_compute. reflexivity. Qed.

(** C2, amended: when the field resolves to a value that Python does not
    order against the literal, a comparison with [<], [>], [<=] or [>=]
    raises [TypeError]; it does not give [False]. *)
Theorem C2_unordered_operands_raise
  (key : string) (f : operator.fn) (rhs : literal) (record v : pyval)
  (q : QueryInstance) :
  binOp key (op_text f) rhs = Ok q ->
  is_ordering f = true ->
  getitem record key = Ok v ->
  comparable v rhs = false ->
  call q record = Raise TypeError.
Proof.
  rewrite binOp_builds. intros [= <-] Hf Hget Hcmp.
  unfold Comparison; simpl. unfold runner; simpl. rewrite Hget; simpl.
  unfold comparable in Hcmp.
  destruct f; try discriminate Hf; simpl;
    destruct v as [l| |]; try reflexivity;
    destruct (number_of l), (number_of rhs); try discriminate Hcmp;
    try reflexivity; destruct l, rhs; try discriminate Hcmp; reflexivity.
Qed.

Lemma C2_unordered_operands_raise_witness :
  call (Comparison "n" operator.lt (PyInt 5))
    (PyDict [("n", Scalar (PyStr "abc"))]) = Raise TypeError.
Proof.
  apply (C2_unordered_operands_raise "n" operator.lt (PyInt 5)
           (PyDict [("n", Scalar (PyStr "abc"))]) (Scalar (PyStr "abc")));
    reflexivity.
Defined.

(** ** Missing fields (C3) *)

(** C3: a comparison or a membership test whose field does not resolve in
    the record gives [False] and raises nothing; the empty record gives
    [False] for [x==1] and [True] for [~(x==1)]. *)
Theorem C3_missing_field_is_false :
  (forall key op rhs q record e,
      binOp key op rhs = Ok q ->
      resolve (_path (_build_field_struct key)) record = Raise e ->
      call q record = Ok false)
  /\ (forall key values q record e,
         inclusionOp key values = Ok q ->
         resolve (_path (_build_field_struct key)) record = Raise e ->
         call q record = Ok false)
  /\ evaluate "x==1" (PyDict []) = Some (Ok false)
  /\ evaluate "~(x==1)" (PyDict []) = Some (Ok true).
Proof.
  assert (Hrun : forall key t record e,
             resolve [key] record = Raise e -> runner [key] t record = Ok false).
  { intros key t record e H. unfold runner. rewrite H.
    simpl in H. destruct record as [l|xs|kv]; simpl in H;
      try (injection H as <-; reflexivity).
    destruct (dict_get kv key); simpl in H; [discriminate|].
    injection H as <-; reflexivity. }
  repeat split.
  - intros key op rhs q record e Hq Hres.
    apply binOp_inv in Hq as (f & -> & ->). simpl. eapply Hrun, Hres.
  - intros key values q record e Hq Hres.
    rewrite inclusionOp_builds in Hq. injection Hq as <-. simpl.
    eapply Hrun, Hres.
Qed.

Lemma C3_missing_field_is_false_witness :
  call (Comparison "x" operator.ne (PyInt 1)) (PyDict []) = Ok false
  /\ call (Membership "x" [PyInt 1]) (Scalar (PyInt 3)) = Ok false.
Proof.
  split.
  - apply (proj1 C3_missing_field_is_false "x" "!=" (PyInt 1) _ (PyDict [])
             (KeyError "x")); reflexivity.
  - apply (proj1 (proj2 C3_missing_field_is_false) "x" [PyInt 1] _
             (Scalar (PyInt 3)) TypeError); reflexivity.
Defined.

(** ** Texts *)

Lemma length_app (a b : string) :
  String.length (a ++ b) = String.length a + String.length b.
Proof. induction a; simpl; congruence. Qed.

Lemma app_assoc_s (a b c : string) : ((a ++ b) ++ c = a ++ (b ++ c))%string.
Proof. induction a; simpl; congruence. Qed.

Lemma app_empty_r (a : string) : (a ++ "" = a)%string.
Proof. induction a; simpl; congruence. Qed.

Lemma substring_app (w rest : string) :
  substring 0 (String.length w) (w ++ rest) = w.
Proof.
  induction w; simpl.
  - destruct rest; reflexivity.
  - now rewrite IHw.
Qed.

Lemma consumed_app (w rest : string) : consumed (w ++ rest) rest = w.
Proof.
  unfold consumed. rewrite length_app, Nat.add_sub. apply substring_app.
Qed.

Lemma lower_inv (c l : ascii) : lower c = l -> c = l \/ c = upper l.
Proof.
  intros <-.
  destruct c as [[] [] [] [] [] [] [] []];
    first [left; reflexivity | right; reflexivity].
Qed.

(** ** Matching *)

Section MatchingFacts.
Variable ic : bool.

Lemma repeat_splits m greedy k
  (Hm : forall s k x, m s k = Some x -> splits s k x false) :
  forall n s x, repeat_ m greedy k n s = Some x -> splits s k x false.
Proof.
  assert (Hk : forall s x, k s = Some x -> splits s k x false).
  { intros s x H. exists "", s. repeat split; [exact H | discriminate]. }
  induction n as [|n IH]; intros s x H; simpl in H.
  - destruct greedy; simpl in H; [now apply Hk|].
    destruct (k s) eqn:E; simpl in H; [|discriminate].
    injection H as <-. now apply Hk.
  - set (more := m s _) in H.
    assert (Hmore : more = Some x -> splits s k x false).
    { unfold more. intros H1. apply Hm in H1 as (p & s1 & -> & H1 & _).
      destruct (_ <? _)%nat; [|discriminate].
      apply IH in H1 as (p' & s' & -> & H1 & _).
      exists (p ++ p')%string, s'. rewrite app_assoc_s.
      repeat split; [exact H1 | discriminate]. }
    destruct greedy.
    + destruct more eqn:E; simpl in H.
      * injection H as <-. now apply Hmore.
      * now apply Hk.
    + destruct (k s) eqn:E; simpl in H.
      * injection H as <-. now apply Hk.
      * now apply Hmore.
Qed.

Lemma splits_weaken s k x b : splits s k x b -> splits s k x false.
Proof.
  intros (p & s' & H1 & H2 & _). exists p, s'.
  repeat split; [exact H1 | exact H2 | discriminate].
Qed.

Lemma backtrack_splits (r : regex) :
  forall s k x, backtrack ic r s k = Some x -> splits s k x (consumes r).
Proof.
  induction r as [|c|negate ranges| |r1 IH1 r2 IH2|r1 IH1 r2 IH2|greedy r1 IH1];
    intros s k x H; simpl in H.
  - exists "", s. repeat split; [exact H | discriminate].
  - destruct s as [|a s]; [discriminate|].
    destruct (chr_matches ic c a); [|discriminate].
    exists (String a ""), s. repeat split; [exact H | discriminate].
  - destruct s as [|a s]; [discriminate|].
    destruct (set_matches ic negate ranges a); [|discriminate].
    exists (String a ""), s. repeat split; [exact H | discriminate].
  - destruct s as [|a s]; [discriminate|].
    destruct (Ascii.eqb a "010"); [discriminate|].
    exists (String a ""), s. repeat split; [exact H | discriminate].
  - apply IH1 in H as (p1 & s1 & -> & H & N1).
    apply IH2 in H as (p2 & s2 & -> & H & N2).
    exists (p1 ++ p2)%string, s2. rewrite app_assoc_s. repeat split; [exact H|].
    simpl. intros Hc. apply orb_true_iff in Hc as [Hc|Hc].
    + specialize (N1 Hc). destruct p1; [contradiction | discriminate].
    + specialize (N2 Hc). destruct p1; [exact N2 | discriminate].
  - destruct (backtrack ic r1 s k) eqn:E; simpl in H.
    + injection H as <-. apply IH1 in E as (p & s' & H1 & H2 & N).
      exists p, s'. repeat split; [exact H1 | exact H2 |].
      simpl. intros Hc. apply andb_true_iff in Hc as [Hc _]. auto.
    + apply IH2 in H as (p & s' & H1 & H2 & N).
      exists p, s'. repeat split; [exact H1 | exact H2 |].
      simpl. intros Hc. apply andb_true_iff in Hc as [_ Hc]. auto.
  - apply (repeat_splits (backtrack ic r1)) in H; [exact H|].
    intros s0 k0 x0 H0. eapply splits_weaken, IH1, H0.
Qed.

(** What a match leaves is the end of the text; the match is what
    [consumed] cuts off, and it is not empty when the pattern cannot
    match the empty text. *)
Lemma re_match_consumed (r : regex) (s remaining : string) :
  re_match ic r s = Some remaining ->
  s = (consumed s remaining ++ remaining)%string
  /\ (consumes r = true -> consumed s remaining <> "").
Proof.
  intros H. apply backtrack_splits in H as (p & s' & -> & [= ->] & N).
  rewrite consumed_app. split; [reflexivity | exact N].
Qed.
End MatchingFacts.

(** ** The lexer *)

Lemma chr_matches_exact (c x : ascii) :
  between "A" "Z" c = false -> between "a" "z" c = false ->
  chr_matches true c x = true -> x = c.
Proof.
  unfold chr_matches. intros HA Ha H. apply Ascii.eqb_eq in H.
  assert (Hc : lower c = c) by (unfold lower; now rewrite HA).
  rewrite Hc in H. symmetry in H. apply lower_inv in H as [H|H]; [exact H|].
  rewrite H. unfold upper. now rewrite Ha.
Qed.

(** A pattern without letters matches its own text only. *)
Lemma word_exact (w : string) :
  forall_chars (fun c => negb (between "A" "Z" c || between "a" "z" c)) w = true ->
  forall s k x,
    backtrack true (Word w) s k = Some x ->
    exists remaining, s = (w ++ remaining)%string /\ k remaining = Some x.
Proof.
  induction w as [|c w IH]; intros Hw s k x H;
    cbn [Word backtrack forall_chars] in *.
  - now exists s.
  - apply andb_true_iff in Hw as [Hc Hw].
    apply negb_true_iff, orb_false_iff in Hc as [HA Ha].
    destruct s as [|a s]; [discriminate H|].
    destruct (chr_matches true c a) eqn:E; [|discriminate H].
    apply chr_matches_exact in E; [subst a | assumption..].
    apply IH in H as (remaining & -> & H); [|exact Hw].
    now exists remaining.
Qed.

Lemma plain_lexeme (w s remaining : string) :
  re_match true (Word w) s = Some remaining ->
  forall_chars (fun c => negb (between "A" "Z" c || between "a" "z" c)) w = true ->
  consumed s remaining = w.
Proof.
  intros H Hw. apply word_exact in H as (r & -> & [= ->]); [|exact Hw].
  apply consumed_app.
Qed.

Lemma first_match_In rs s r remaining :
  Lexer.first_match rs s = Some (r, remaining) ->
  In r rs /\ re_match Lexer.ignorecase (Lexer.pattern r) s = Some remaining.
Proof.
  induction rs as [|r0 rs IH]; simpl; [discriminate|].
  destruct (re_match _ (Lexer.pattern r0) s) eqn:E.
  - intros [= <- <-]. auto.
  - intros H. apply IH in H as [H1 H2]. auto.
Qed.

Lemma lexeme_head ic r c rest remaining :
  re_match ic r (String c rest) = Some remaining ->
  consumes r = true ->
  exists p, consumed (String c rest) remaining = String c p
            /\ String.length remaining < String.length (String c rest).
Proof.
  intros H Hc. apply re_match_consumed in H as [H N]. specialize (N Hc).
  destruct (consumed (String c rest) remaining) as [|c' p] eqn:E;
    [contradiction|].
  simpl in H. injection H as <- Hrest.
  exists p. split; [reflexivity|]. rewrite Hrest. simpl.
  rewrite length_app. lia.
Qed.

Lemma literal_eval_head (c : ascii) (p : string) :
  literal_eval (String c p)
  = if Ascii.eqb c "["
    then match without_last "]" p with
         | Some body => xs <- eval_list body ;; Ok (Items xs)
         | None => Raise Unmodelled
         end
    else l <- eval_atom (strip (String c p)) ;; Ok (Const l).
Proof. destruct c as [[] [] [] [] [] [] [] []]; reflexivity. Qed.

Lemma literal_eval_list (p : string) (v : object) :
  literal_eval (String "[" p) = Ok v -> exists xs, v = Items xs.
Proof.
  rewrite literal_eval_head. simpl.
  destruct (without_last "]" p); [|discriminate].
  destruct (eval_list s); simpl; [|discriminate].
  intros [= <-]. eauto.
Qed.

Lemma literal_eval_atom (c : ascii) (p : string) (v : object) :
  c <> "["%char -> literal_eval (String c p) = Ok v -> exists l, v = Const l.
Proof.
  intros Hc. rewrite literal_eval_head.
  destruct (Ascii.eqb c "[") eqn:E; [apply Ascii.eqb_eq in E; contradiction|].
  destruct (eval_atom _); simpl; [|discriminate].
  intros [= <-]. eauto.
Qed.

Lemma list_rule_head c rest remaining :
  re_match true Lexer.t_LIST_doc (String c rest) = Some remaining ->
  c = "["%char.
Proof.
  unfold re_match, Lexer.t_LIST_doc. cbn [backtrack].
  destruct (chr_matches true "[" c) eqn:E; [|discriminate].
  intros _. now apply chr_matches_exact in E.
Qed.

Lemma scalar_rules_head r c rest remaining :
  In r [Lexer.t_BOOL_doc; Lexer.t_STRING_doc; Lexer.t_SCALAR_doc] ->
  re_match true r (String c rest) = Some remaining ->
  c <> "["%char.
Proof.
  intros Hr H ->. simpl in Hr.
  destruct Hr as [<-|[<-|[<-|[]]]]; vm_compute in H; discriminate H.
Qed.

Lemma produce_scalar r c rest remaining tok :
  In r [Lexer.t_BOOL_doc; Lexer.t_STRING_doc; Lexer.t_SCALAR_doc] ->
  re_match true r (String c rest) = Some remaining ->
  consumes r = true ->
  (v <- literal_eval (consumed (String c rest) remaining) ;;
   Ok {| type := SCALAR; value := v |}) = Ok tok ->
  lexed tok.
Proof.
  intros Hr H Hc Htok.
  pose proof (scalar_rules_head _ _ _ _ Hr H) as Hhead.
  apply lexeme_head in H as (p & Hp & _); [|exact Hc]. rewrite Hp in Htok.
  destruct (literal_eval (String c p)) as [v|] eqn:E; simpl in Htok;
    [|discriminate].
  injection Htok as <-. apply literal_eval_atom in E; [|exact Hhead].
  exact E.
Qed.

Lemma Ok_inj {A} (a b : A) : Ok a = Ok b -> a = b.
Proof. now intros [= ->]. Qed.

Lemma reserved_get_ID_or_IN (v : string) :
  Lexer.reserved_get Lexer.reserved v ID = ID
  \/ Lexer.reserved_get Lexer.reserved v ID = IN.
Proof.
  unfold Lexer.reserved, Lexer.reserved_get.
  destruct (String.eqb "in" v); auto.
Qed.

(** Every token the lexer emits is as [lexed] says, and emitting it
    shortens the input. *)
Lemma scan_lexed c rest tok remaining :
  Lexer.scan (String c rest) = Ok (tok, remaining) ->
  lexed tok /\ String.length remaining < String.length (String c rest).
Proof.
  unfold Lexer.scan.
  destruct (Lexer.first_match _ _) as [[r rem]|] eqn:E; [|discriminate].
  apply first_match_In in E as [Hr H].
  destruct (Lexer.produce r _) as [tok'|] eqn:P; simpl; [|discriminate].
  intros [= -> ->]. unfold Lexer.ignorecase in H.
  assert (Hlen : consumes (Lexer.pattern r) = true ->
                 String.length remaining < String.length (String c rest)).
  { intros Hc. now apply lexeme_head in H as (p & _ & L). }
  unfold Lexer.rules in Hr. simpl in Hr.
  repeat match type of Hr with
         | _ \/ _ => destruct Hr as [<-|Hr]
         | False => destruct Hr
         end;
    (split; [|apply Hlen; reflexivity]);
    cbn [Lexer.pattern Lexer.produce Lexer.plain] in H, P;
    try (apply Ok_inj in P; subst tok; unfold lexed;
         cbn [type value operator_of];
         first [ rewrite (plain_lexeme _ _ _ H eq_refl); reflexivity
               | exact Logic.I ]).
  - (* t_LIST *)
    unfold Lexer.t_LIST in P.
    pose proof (list_rule_head _ _ _ H) as ->.
    apply lexeme_head in H as (p & Hp & _); [|reflexivity].
    rewrite Hp in P.
    destruct (literal_eval _) as [v|] eqn:L; simpl in P; [|discriminate].
    injection P as <-. apply literal_eval_list in L. exact L.
  - eapply produce_scalar; [| exact H | reflexivity | exact P]. simpl; auto.
  - eapply produce_scalar; [| exact H | reflexivity | exact P]. simpl; auto.
  - eapply produce_scalar; [| exact H | reflexivity | exact P]. simpl; auto.
  - (* t_ID *)
    unfold Lexer.t_ID in P. apply Ok_inj in P. subst tok.
    unfold lexed. cbn [type value].
    destruct (reserved_get_ID_or_IN (consumed (String c rest) remaining))
      as [->| ->]; cbn [operator_of]; eauto.
Qed.

Lemma token_lexed lexdata tok remaining :
  Lexer.token lexdata = Ok (Some (tok, remaining)) ->
  lexed tok /\ String.length remaining < String.length lexdata.
Proof.
  induction lexdata as [|c rest IH]; simpl; [discriminate|].
  destruct (Lexer.t_ignore c).
  - intros H. apply IH in H as [H1 H2]. split; [exact H1 | lia].
  - destruct (Lexer.scan (String c rest)) as [[tok' rem]|] eqn:E; simpl;
      [|discriminate].
    intros [= -> ->]. apply scan_lexed in E. exact E.
Qed.

(** ** The parsing table *)

Lemma transitions_ok : transitions_checked = true.
Proof. vm_compute. reflexivity. Qed.

Lemma actions_ok : actions_checked = true.
Proof. vm_compute. reflexivity. Qed.

Lemma gotos_ok : gotos_checked = true.
Proof. vm_compute. reflexivity. Qed.

(** No state of the table is left without reading the lookahead. *)
Lemma no_defaulted_state : Parser.defaulted_states = [].
Proof. vm_compute. reflexivity. Qed.

Lemma state_number (st : nat) :
  st < List.length Parser.states -> In st state_numbers.
Proof. intros H. apply in_seq. lia. Qed.

Lemma every_symbol (x : Parser.symbol) : In x all_symbols.
Proof. destruct x as [[]|[]]; simpl; tauto. Qed.

Lemma every_lookahead (a : Parser.lookahead_symbol) : In a all_lookaheads.
Proof. destruct a as [[]|]; simpl; tauto. Qed.

Lemma item_eqb_eq (i j : Parser.item) : Parser.item_eqb i j = true -> i = j.
Proof.
  destruct i, j. unfold Parser.item_eqb. simpl. intros H.
  apply andb_true_iff in H as [H1 H2].
  apply Nat.eqb_eq in H1, H2. congruence.
Qed.

Lemma mem_item_In (i : Parser.item) (J : list Parser.item) :
  Parser.mem_item i J = true -> In i J.
Proof.
  unfold Parser.mem_item. intros H.
  apply existsb_exists in H as (j & Hj & E). apply item_eqb_eq in E. now subst.
Qed.

Lemma symbol_eqb_eq (x y : Parser.symbol) :
  Parser.symbol_eqb x y = true -> x = y.
Proof. destruct x as [[]|[]], y as [[]|[]]; simpl; congruence. Qed.

Lemma target_supported st0 x st :
  st0 < List.length Parser.states -> target st0 x = Some st ->
  st < List.length Parser.states /\ st <> 0
  /\ forall p d, Parser.mem_item (p, S d) (Parser.items_of st) = true ->
                 nth_error (Parser.rhs_of p) d = Some x
                 /\ Parser.mem_item (p, d) (Parser.items_of st0) = true.
Proof.
  intros Hst0 Ht. pose proof transitions_ok as C. unfold transitions_checked in C.
  rewrite forallb_forall in C. specialize (C st0 (state_number _ Hst0)).
  rewrite forallb_forall in C. specialize (C x (every_symbol x)).
  rewrite Ht in C. apply andb_true_iff in C as [C C3].
  apply andb_true_iff in C as [C1 C2].
  apply Nat.ltb_lt in C1. apply negb_true_iff, Nat.eqb_neq in C2.
  repeat split; [exact C1 | exact C2 | |];
    rewrite forallb_forall in C3; apply mem_item_In in H;
    specialize (C3 _ H); unfold item_supported in C3; simpl in C3;
    apply andb_true_iff in C3 as [C4 C5].
  - destruct (nth_error (Parser.rhs_of p) d); [|discriminate].
    apply symbol_eqb_eq in C4. now subst.
  - exact C5.
Qed.

Lemma reduce_complete st a p :
  st < List.length Parser.states ->
  Parser.action_of st a = Some (Parser.Reduce p) ->
  Parser.mem_item (p, List.length (Parser.rhs_of p)) (Parser.items_of st) = true
  /\ 1 <= p < List.length Parser.productions
  /\ 2 <= List.length (Parser.rhs_of p).
Proof.
  intros Hst Ha. pose proof actions_ok as C. unfold actions_checked in C.
  rewrite forallb_forall in C. specialize (C st (state_number _ Hst)).
  rewrite forallb_forall in C. specialize (C a (every_lookahead a)).
  rewrite Ha in C. repeat (apply andb_true_iff in C as [C ?]).
  repeat split; try assumption.
  - now apply Nat.leb_le.
  - now apply Nat.ltb_lt.
  - now apply Nat.leb_le.
Qed.

Lemma accept_complete st a :
  st < List.length Parser.states ->
  Parser.action_of st a = Some Parser.Accept ->
  Parser.mem_item (0, 1) (Parser.items_of st) = true /\ a = None.
Proof.
  intros Hst Ha. pose proof actions_ok as C. unfold actions_checked in C.
  rewrite forallb_forall in C. specialize (C st (state_number _ Hst)).
  rewrite forallb_forall in C. specialize (C a (every_lookahead a)).
  rewrite Ha in C. apply andb_true_iff in C as [C1 C2].
  split; [exact C1|]. destruct a; [discriminate | reflexivity].
Qed.

Lemma shift_terminal st a j :
  st < List.length Parser.states ->
  Parser.action_of st a = Some (Parser.Shift j) ->
  exists t, a = Some t /\ target st (Parser.T t) = Some j.
Proof.
  intros Hst Ha. pose proof actions_ok as C. unfold actions_checked in C.
  rewrite forallb_forall in C. specialize (C st (state_number _ Hst)).
  rewrite forallb_forall in C. specialize (C a (every_lookahead a)).
  rewrite Ha in C. destruct a as [t|]; [|discriminate].
  exists t. split; [reflexivity|]. simpl. now rewrite Ha.
Qed.

Lemma item_start st p :
  st < List.length Parser.states ->
  Parser.mem_item (p, 0) (Parser.items_of st) = true ->
  match p with
  | O => st = 0
  | S _ => exists st', target st (Parser.N Parser.expr) = Some st'
  end.
Proof.
  intros Hst Hi. pose proof gotos_ok as C. unfold gotos_checked in C.
  apply andb_true_iff in C as [C _].
  rewrite forallb_forall in C. specialize (C st (state_number _ Hst)).
  rewrite forallb_forall in C. specialize (C _ (mem_item_In _ _ Hi)).
  destruct p; simpl in C.
  - now apply Nat.eqb_eq.
  - simpl. destruct (Parser.goto st); [eauto | discriminate].
Qed.

Lemma bottom_items p d :
  Parser.mem_item (p, S d) (Parser.items_of 0) = false.
Proof.
  pose proof gotos_ok as C. unfold gotos_checked in C.
  apply andb_true_iff in C as [_ C]. rewrite forallb_forall in C.
  destruct (Parser.mem_item _ _) eqn:E; [|reflexivity].
  apply mem_item_In in E. specialize (C _ E). discriminate C.
Qed.

(** ** The stacks of the parser *)

Lemma stacked_top ss sy :
  stacked ss sy ->
  exists st ss', ss = st :: ss' /\ st < List.length Parser.states
                 /\ List.length ss' = List.length sy.
Proof.
  induction 1 as [|st st' x v ss sy H IH Ht Hv].
  - exists 0, []. repeat split. vm_compute. lia.
  - destruct IH as (st0 & ss0 & [= <- <-] & Hst & Hlen).
    apply target_supported in Ht as (Ht & _); [|exact Hst].
    exists st', (st :: ss). repeat split; [exact Ht | simpl; congruence].
Qed.

Lemma firstn_snoc {A} (l : list A) (d : nat) (x : A) :
  nth_error l d = Some x -> firstn (S d) l = firstn d l ++ [x].
Proof.
  revert l. induction d as [|d IH]; intros [|a l] H; simpl in *;
    try discriminate.
  - now injection H as ->.
  - f_equal. now apply IH.
Qed.

(** An item with the dot after [d] symbols in the top state: these [d]
    symbols are the top of the stack, and below them lies a state where
    the item begins. *)
Lemma items_on_stack (p : nat) :
  forall d ss sy st ss',
    stacked ss sy -> ss = st :: ss' ->
    Parser.mem_item (p, d) (Parser.items_of st) = true ->
    d <= List.length sy
    /\ map fst (rev (firstn d sy)) = firstn d (Parser.rhs_of p)
    /\ List.Forall (fun e => held (fst e) (snd e)) (firstn d sy)
    /\ stacked (skipn d ss) (skipn d sy)
    /\ exists st0 ss0, skipn d ss = st0 :: ss0
                       /\ Parser.mem_item (p, 0) (Parser.items_of st0) = true.
Proof.
  induction d as [|d IH]; intros ss sy st ss' Hs -> Hi.
  - simpl. repeat split; [lia | constructor | exact Hs | eauto].
  - inversion Hs as [E1 E2|st1 st2 x v ss1 sy1 Hs1 Ht Hv E1 E2].
    + subst. now rewrite bottom_items in Hi.
    + subst.
      destruct (stacked_top _ _ Hs1) as (? & ? & [= <- <-] & Hst1 & _).
      apply target_supported in Ht as (_ & _ & Hsup); [|exact Hst1].
      destruct (Hsup _ _ Hi) as [Hnth Hi1].
      destruct (IH _ _ _ _ Hs1 eq_refl Hi1) as (L & M & F & S' & B).
      repeat split.
      * simpl. lia.
      * rewrite (firstn_snoc _ _ _ Hnth), <- M.
        change (firstn (S d) ((x, v) :: sy1)) with ((x, v) :: firstn d sy1).
        change (rev ((x, v) :: firstn d sy1))
          with (rev (firstn d sy1) ++ [(x, v)]).
        now rewrite map_app.
      * simpl. constructor; [exact Hv | exact F].
      * exact S'.
      * exact B.
Qed.

Lemma stacked_zero ss sy : stacked (0 :: ss) sy -> ss = [] /\ sy = [].
Proof.
  inversion 1 as [|st st' x v ss1 sy1 Hs Ht Hv]; subst; [auto|].
  destruct (stacked_top _ _ Hs) as (? & ? & [= <- <-] & Hst & _).
  apply target_supported in Ht as (_ & N0 & _); [|exact Hst]. contradiction.
Qed.

(** ** The language of the grammar *)

Lemma yields_app xs ys w1 w2 :
  yields xs w1 -> yields ys w2 -> yields (xs ++ ys) (w1 ++ w2).
Proof.
  induction 1 as [|t xs w H IH|p pr xs u1 u2 Hp Hr _ Hx IH]; intros Hy; simpl.
  - exact Hy.
  - constructor. now apply IH.
  - rewrite <- app_assoc. econstructor; eauto.
Qed.

Lemma yields_app_inv xs ys w :
  yields (xs ++ ys) w ->
  exists w1 w2, w = w1 ++ w2 /\ yields xs w1 /\ yields ys w2.
Proof.
  revert w. induction xs as [|x xs IH]; intros w H; simpl in H.
  - exists [], w. repeat split; [constructor | exact H].
  - inversion H as [|t xs' w' H'|p pr xs' u1 u2 Hp Hr Hx]; subst.
    + apply IH in H' as (w1 & w2 & -> & H1 & H2).
      exists (t :: w1), w2. repeat split; [constructor; exact H1 | exact H2].
    + apply IH in Hx as (w1 & w2 & -> & H1 & H2).
      exists (u1 ++ w1), w2. rewrite app_assoc.
      repeat split; [econstructor; eauto | exact H2].
Qed.

Lemma yields_reduce p pr xs w :
  nth_error Parser.productions p = Some pr ->
  yields (xs ++ Parser.prod pr) w ->
  yields (xs ++ [Parser.N (Parser.name pr)]) w.
Proof.
  intros Hp H. apply yields_app_inv in H as (w1 & w2 & -> & H1 & H2).
  apply yields_app; [exact H1|].
  rewrite <- (app_nil_r w2). econstructor; [exact Hp | exact H2 | constructor].
Qed.

(** ** The grammar actions *)

Ltac held_values :=
  repeat match goal with
    | H : List.Forall _ (_ :: _) |- _ => inversion H; clear H; subst
    | H : held _ _ |- _ =>
        unfold held, lexed in H; cbn [type value operator_of fst snd] in H
    | H : exists _, _ |- _ => destruct H as [? H]
    end; cbn [fst snd] in *; subst.

(** On the symbols of its production, held as the parser holds them, an
    action of [expr] returns a query and raises nothing. *)
Lemma callable_ok p pr (l : list Parser.YaccSymbol) :
  1 <= p -> nth_error Parser.productions p = Some pr ->
  map fst l = Parser.prod pr ->
  List.Forall (fun e => held (fst e) (snd e)) l ->
  Parser.name pr = Parser.expr
  /\ exists q, Parser.callable pr (map snd l) = Ok (Instance q).
Proof.
  intros Hp Hpr Hm Hl.
  destruct p as [|p]; [lia|].
  do 11 (destruct p as [|p];
         [ injection Hpr as <-; split; [reflexivity|];
           cbn [Parser.prod Parser.rule_] in Hm;
           repeat (destruct l as [|[? ?] l]; try discriminate Hm);
           cbn [map fst] in Hm;
           repeat match goal with
             | H : _ :: _ = _ :: _ |- _ => injection H as ? H
             end; subst; held_values;
           eexists; reflexivity
         | ]).
  destruct p; discriminate Hpr.
Qed.

(** ** The parser *)

Section DriverFacts.
Variable Source : Type.
Variable get_token : Source -> result (option (LexToken * Source)).
Variable size : Source -> nat.
Variable good : Source -> Prop.
Hypothesis get_good :
  forall s tok s',
    good s -> get_token s = Ok (Some (tok, s')) ->
    lexed tok /\ good s' /\ size s' < size s.
Variable src0 : Source.

Let Inv := invariant get_token good src0.
Let Out := outcome get_token src0.

Lemma lexed_eta tok : lexed tok -> held (Parser.T (type tok)) (value tok).
Proof. destruct tok. exact (fun H => H). Qed.

(** One action of the parser keeps the invariant and lowers the effort,
    or ends the run as [outcome] says. *)
Lemma act_invariant w ss sy la src :
  Inv w ss sy (Some la) src ->
  match Parser.act Source ss sy la src with
  | Parser.Continue _ ss' sy' la' src' =>
      (exists w', Inv w' ss' sy' la' src')
      /\ effort size ss' la' src' < effort size ss (Some la) src
  | Parser.Return _ r => Out r
  end.
Proof.
  intros (Hs & Hg & Hla & Hy & Hr).
  destruct (stacked_top _ _ Hs) as (st & ss' & -> & Hst & Hlen).
  unfold Parser.act.
  destruct (Parser.action_of st (Parser.lookahead_type la)) as [[j|p|]|] eqn:A.
  - (* shift *)
    apply shift_terminal in A as (t & Ht & Hj); [|exact Hst].
    destruct la as [tok|]; [|discriminate Ht].
    injection Ht as <-. split.
    + exists (w ++ [tok]). repeat split.
      * apply stacked_push; [exact Hs | exact Hj | now apply lexed_eta].
      * exact Hg.
      * cbn [rev map]. rewrite !map_app. apply yields_app; [exact Hy|].
        repeat constructor.
      * intros toks Htoks.
        destruct (Hr _ Htoks) as (rest & (rest' & -> & Hrest) & ->).
        exists rest'. split; [exact Hrest|]. now rewrite <- app_assoc.
    + unfold effort. simpl. lia.
  - (* reduce *)
    apply reduce_complete in A as (Hi & [Hp1 Hp2] & Hp3); [|exact Hst].
    unfold Parser.reduce.
    destruct (nth_error Parser.productions p) as [pr|] eqn:Hpr;
      [|apply nth_error_None in Hpr; lia].
    cbv zeta.
    assert (Hrhs : Parser.rhs_of p = Parser.prod pr)
      by (unfold Parser.rhs_of; now rewrite Hpr).
    rewrite Hrhs in Hi, Hp3.
    destruct (items_on_stack _ _ _ _ _ _ Hs eq_refl Hi)
      as (L & M & F & S' & st0 & ss0 & Hskip & Hi0).
    rewrite Hrhs, firstn_all in M.
    destruct (Nat.ltb_spec (List.length sy) (List.length (Parser.prod pr)));
      [lia|].
    destruct (callable_ok p pr (rev (firstn (List.length (Parser.prod pr)) sy)))
      as (Hname & q & Hq); [exact Hp1 | exact Hpr | exact M | |].
    { apply Forall_rev, F. }
    rewrite map_rev in Hq. unfold Parser.YaccSymbol in *. rewrite Hq, Hskip.
    destruct (stacked_top _ _ S') as (? & ? & E & Hst0 & Hlen0).
    rewrite Hskip in E. injection E as <- <-.
    pose proof (item_start _ _ Hst0 Hi0) as G.
    destruct p as [|p']; [lia|]. destruct G as (st' & G).
    cbn [target] in G. rewrite G. split.
    + exists w. repeat split.
      * rewrite Hname. apply stacked_push;
          [now rewrite <- Hskip | exact G | now exists q].
      * exact Hg.
      * exact Hla.
      * cbn [rev map fst]. rewrite map_app. cbn [map fst].
        apply (yields_reduce _ _ _ _ Hpr).
        assert (E : map fst (rev sy)
                    = map fst (rev (skipn (List.length (Parser.prod pr)) sy))
                        ++ Parser.prod pr).
        { rewrite <- (firstn_skipn (List.length (Parser.prod pr)) sy) at 1.
          now rewrite rev_app_distr, map_app, M. }
        rewrite E in Hy. exact Hy.
      * exact Hr.
    + unfold effort.
      assert (Hpop : List.length
                       (skipn (List.length (Parser.prod pr)) (st :: ss'))
                     = S (List.length ss0)) by now rewrite Hskip.
      rewrite length_skipn in Hpop. cbn [List.length] in *.
      destruct la; lia.
  - (* accept *)
    apply accept_complete in A as (Hi & Hnone); [|exact Hst].
    destruct la as [tok|]; [discriminate Hnone|].
    destruct (items_on_stack _ _ _ _ _ _ Hs eq_refl Hi)
      as (L & M & F & S' & st0 & ss0 & Hskip & Hi0).
    destruct (stacked_top _ _ S') as (? & ? & E & Hst0 & _).
    rewrite Hskip in E. injection E as <- <-.
    apply item_start in Hi0; [|exact Hst0]. subst st0.
    rewrite Hskip in S'. apply stacked_zero in S' as [-> Hnil].
    destruct sy as [|[x v] sy]; [simpl in L; lia|].
    simpl in Hnil. subst sy. cbn in M. injection M as ->.
    inversion F as [|? ? Hv _]; subst. destruct Hv as (q & Hv).
    cbn [snd] in Hv. subst v.
    right; left. exists q. split; [reflexivity|].
    intros toks Htoks. destruct (Hr _ Htoks) as (rest & -> & ->).
    rewrite app_nil_r. exact Hy.
  - left. reflexivity.
Qed.

Lemma step_invariant w ss sy la src :
  Inv w ss sy la src ->
  match Parser.step Source get_token ss sy la src with
  | Parser.Continue _ ss' sy' la' src' =>
      (exists w', Inv w' ss' sy' la' src')
      /\ effort size ss' la' src' < effort size ss la src
  | Parser.Return _ r => Out r
  end.
Proof.
  intros H. destruct la as [la|]; [now apply (act_invariant w)|].
  destruct H as (Hs & Hg & _ & Hy & Hr). unfold Parser.step.
  destruct (get_token src) as [[[tok src']|]|e] eqn:G.
  - destruct (get_good _ _ _ Hg G) as (Htok & Hg' & Hsize).
    assert (I : Inv w ss sy (Some (Some tok)) src').
    { repeat split; try assumption.
      intros toks Htoks. destruct (Hr _ Htoks) as (rest & Hrest & ->).
      exists rest. split; [|reflexivity].
      inversion Hrest as [? E|? ? ? ? E]; subst; rewrite G in E;
        [discriminate E|].
      injection E as <- <-. eexists. split; [reflexivity | eassumption]. }
    apply (act_invariant w) in I.
    destruct (Parser.act Source ss sy (Some tok) src'); [|exact I].
    destruct I as [I1 I2]. split; [exact I1|]. unfold effort in *. lia.
  - assert (I : Inv w ss sy (Some None) src).
    { repeat split; try assumption.
      intros toks Htoks. destruct (Hr _ Htoks) as (rest & Hrest & ->).
      exists rest. split; [|reflexivity].
      inversion Hrest as [? E|? ? ? ? E]; subst; rewrite G in E;
        [reflexivity | discriminate E]. }
    apply (act_invariant w) in I.
    destruct (Parser.act Source ss sy None src); [|exact I].
    destruct I as [I1 I2]. split; [exact I1|]. unfold effort in *. lia.
  - right; right. exists e, src. repeat split; [exact G|].
    intros toks Htoks. destruct (Hr _ Htoks) as (rest & Hrest & _).
    inversion Hrest as [? E|? ? ? ? E]; subst; rewrite G in E;
      discriminate E.
Qed.

Lemma loop_outcome fuel :
  forall w ss sy la src,
    Inv w ss sy la src -> effort size ss la src < fuel ->
    exists r, Parser.loop Source get_token fuel ss sy la src = Some r /\ Out r.
Proof.
  induction fuel as [|fuel IH]; intros w ss sy la src I E; [lia|].
  simpl. apply (step_invariant w) in I.
  destruct (Parser.step Source get_token ss sy la src)
    as [ss' sy' la' src'|r].
  - destruct I as [(w' & I) L]. apply (IH w'); [exact I | lia].
  - exists r. split; [reflexivity | exact I].
Qed.

(** The parser always ends, and ends as [outcome] says. *)
Theorem run_outcome :
  good src0 ->
  exists r, Parser.run Source get_token (3 * size src0 + 3) src0 = Some r
            /\ Out r.
Proof.
  intros Hg. apply (loop_outcome _ []).
  - repeat split; [constructor | exact Hg | constructor |].
    intros toks Htoks. now exists toks.
  - unfold effort. simpl. lia.
Qed.
End DriverFacts.

Lemma reads_deterministic {Source : Type}
  (get_token : Source -> result (option (LexToken * Source))) src t1 t2 :
  reads get_token src t1 -> reads get_token src t2 -> t1 = t2.
Proof.
  intros H. revert t2.
  induction H as [src E|src tok src' toks E H IH]; intros t2 H2;
    inversion H2 as [? E2|? ? ? ? E2 H2']; subst; rewrite E in E2;
    try discriminate E2; [reflexivity|].
  injection E2 as <- <-. f_equal. now apply IH.
Qed.

Lemma reads_list (toks : list LexToken) : reads Parser.next_of_list toks toks.
Proof. induction toks; econstructor; simpl; eauto. Qed.

(** A sequence of tokens that does not obey the grammar is refused with
    the syntax error of [p_error]. *)
Lemma parse_tokens_refuses (toks : list LexToken) :
  List.Forall lexed toks -> ~ sentence (map type toks) ->
  Parser.parse_tokens toks = Some (Raise Parser.p_error).
Proof.
  intros Hl Hn.
  destruct (run_outcome (list LexToken) Parser.next_of_list (@List.length _)
              (List.Forall lexed) ) with (src0 := toks)
    as (r & Hr & [->|[(q & -> & Hs)|(e & src & -> & He & _)]]).
  - intros s tok s' Hs E. destruct s as [|t s]; [discriminate E|].
    injection E as <- <-. inversion Hs; subst. simpl. auto.
  - exact Hl.
  - exact Hr.
  - destruct Hn. apply Hs, reads_list.
  - destruct src; discriminate He.
Qed.

(** The same for an input the lexer reads to its end. *)
Lemma parse_refuses (input : string) (toks : list LexToken) :
  reads Lexer.token input toks -> ~ sentence (map type toks) ->
  Parser.parse input = Some (Raise Parser.p_error).
Proof.
  intros Hreads Hn.
  destruct (run_outcome string Lexer.token String.length (fun _ => True))
    with (src0 := input)
    as (r & Hr & [->|[(q & -> & Hs)|(e & src & -> & He & Hno)]]).
  - intros s tok s' _ E. apply token_lexed in E. tauto.
  - exact Logic.I.
  - exact Hr.
  - destruct Hn. now apply Hs.
  - now destruct (Hno toks).
Qed.

(** A weight that every production balances is balanced by every
    derivation. *)
Lemma weight_app phi (w1 w2 : list terminal) :
  weight phi (w1 ++ w2) = (weight phi w1 + weight phi w2)%Z.
Proof. induction w1; simpl; lia. Qed.

Lemma balanced_derivation (phi : terminal -> Z) :
  forallb (fun pr => Z.eqb (weight_of_symbols phi (Parser.prod pr)) 0)
    Parser.productions = true ->
  forall xs w, yields xs w -> weight phi w = weight_of_symbols phi xs.
Proof.
  intros Hb xs w H.
  induction H as [|t xs w H IH|p pr xs w1 w2 Hp H1 IH1 H2 IH2]; simpl.
  - reflexivity.
  - now rewrite IH.
  - rewrite weight_app, IH1, IH2.
    rewrite forallb_forall in Hb.
    specialize (Hb pr (nth_error_In _ _ Hp)). apply Z.eqb_eq in Hb. lia.
Qed.

Lemma unbalanced_not_sentence (phi : terminal -> Z) (w : list terminal) :
  forallb (fun pr => Z.eqb (weight_of_symbols phi (Parser.prod pr)) 0)
    Parser.productions = true ->
  weight phi w <> 0%Z -> ~ sentence w.
Proof.
  intros Hb Hw Hs. apply Hw.
  now rewrite (balanced_derivation phi Hb _ _ Hs).
Qed.

(** ** Parse errors (C8) *)

(** C8: a sequence of tokens that violates the grammar makes the parser
    raise the syntax error of [p_error], at the first token it cannot
    accept and without any recovery: for the tokens of a list, for an
    input the lexer reads to its end, and for the inputs [a== ==] (an
    unexpected token), [a==1 b==2] (trailing tokens) and [(a==1] (an
    unmatched parenthesis). *)
Theorem C8_violations_raise_syntax_error :
  (forall toks,
      List.Forall lexed toks -> ~ sentence (map type toks) ->
      Parser.parse_tokens toks = Some (Raise Parser.p_error))
  /\ (forall input toks,
         reads Lexer.token input toks -> ~ sentence (map type toks) ->
         Parser.parse input = Some (Raise Parser.p_error))
  /\ Parser.parse "a== ==" = Some (Raise Parser.p_error)
  /\ Parser.parse "a==1 b==2" = Some (Raise Parser.p_error)
  /\ Parser.parse "(a==1" = Some (Raise Parser.p_error).
Proof.
  split; [exact parse_tokens_refuses|].
  split; [exact parse_refuses|].
  repeat split; vm_compute; reflexivity.
Qed.

Lemma C8_violations_raise_syntax_error_witness :
  Parser.parse_tokens
    [ {| type := ID; value := text "a" |};
      {| type := EQUAL; value := text "==" |};
      {| type := EQUAL; value := text "==" |} ]
  = Some (Raise Parser.p_error).
Proof.
  apply (proj1 C8_violations_raise_syntax_error).
  - repeat constructor; unfold lexed; simpl; eauto.
  - apply (unbalanced_not_sentence names_against_constants).
    + vm_compute. reflexivity.
    + vm_compute. discriminate.
Defined.

(** ** Compilation (C9) *)

Lemma eval_atom_raises (s : string) (e : exn) :
  eval_atom s = Raise e -> literal_error_of e.
Proof.
  unfold literal_error_of, eval_atom. destruct s as [|c rest].
  - intros [= <-]. auto.
  - destruct (is_digit c).
    + unfold eval_number. destruct (span_digits _) as [whole r].
      destruct r as [|d f].
      * repeat match goal with
          | |- context [if ?b then _ else _] => destruct b
          end; intros [= <-]; auto.
      * destruct d as [[] [] [] [] [] [] [] []];
          repeat match goal with
            | |- context [if ?b then _ else _] => destruct b
            end; intros [= <-]; auto.
    + destruct (_ || _).
      * destruct (plain_string_body c rest); intros [= <-]; auto.
      * destruct (is_name_start c); [|intros [= <-]; auto].
        unfold eval_name.
        repeat match goal with
          | |- context [if ?b then _ else _] => destruct b
          end; intros [= <-]; auto.
Qed.

Lemma sequence_raises {A} (rs : list (result A)) (e : exn) :
  sequence rs = Raise e -> In (Raise e) rs.
Proof.
  induction rs as [|r rs IH]; simpl; [discriminate|].
  destruct r as [a|e']; simpl.
  - destruct (sequence rs); simpl; [discriminate|].
    intros [= <-]. right. now apply IH.
  - intros [= <-]. now left.
Qed.

Lemma literal_eval_raises (t : string) (e : exn) :
  literal_eval t = Raise e -> literal_error_of e.
Proof.
  destruct t as [|c p].
  - simpl. intros [= <-]. left. reflexivity.
  - rewrite literal_eval_head. destruct (Ascii.eqb c "[").
    + destruct (without_last "]" p) as [body|];
        [|intros [= <-]; right; right; reflexivity].
      unfold eval_list.
      destruct (existsb _ _); [intros [= <-]; right; right; reflexivity|].
      destruct (existsb _ _); [intros [= <-]; left; reflexivity|].
      destruct (sequence _) as [xs|e'] eqn:E; simpl; [discriminate|].
      intros [= <-]. apply sequence_raises in E.
      apply in_map_iff in E as (x & E & _). now apply eval_atom_raises in E.
    + destruct (eval_atom _) as [l|e'] eqn:E; simpl; [discriminate|].
      intros [= <-]. now apply eval_atom_raises in E.
Qed.

Lemma token_raises (lexdata : string) (e : exn) :
  Lexer.token lexdata = Raise e -> lexer_error e.
Proof.
  induction lexdata as [|c rest IH]; simpl; [discriminate|].
  destruct (Lexer.t_ignore c); [exact IH|].
  unfold Lexer.scan.
  destruct (Lexer.first_match _ _) as [[r rem]|] eqn:M; simpl.
  - apply first_match_In in M as [Hr _].
    destruct (Lexer.produce r _) as [tok|e'] eqn:P; simpl; [discriminate|].
    intros [= <-]. unfold Lexer.rules in Hr. simpl in Hr.
    assert (L : forall t, (v <- literal_eval t ;;
                           Ok {| type := SCALAR; value := v |}) = Raise e'
                          -> lexer_error e').
    { intros t. destruct (literal_eval t) eqn:E; simpl; [discriminate|].
      intros [= <-]. apply literal_eval_raises in E. right. exact E. }
    repeat match type of Hr with
           | _ \/ _ => destruct Hr as [<-|Hr]
           | False => destruct Hr
           end; cbn [Lexer.produce Lexer.plain] in P;
      try discriminate P; try (now apply L in P).
    unfold Lexer.t_LIST in P.
    destruct (literal_eval _) eqn:E; simpl in P; [discriminate|].
    injection P as <-. apply literal_eval_raises in E. right. exact E.
  - intros [= <-]. left. eauto.
Qed.

Lemma ops_has_every_operator (t : terminal) (f : operator.fn) :
  operator_of t = Some f -> ops_get ops (op_text f) = Some f.
Proof. destruct f; reflexivity. Qed.

(** C9: building the query never fails.  Whatever the input, the parser
    ends; when it raises, the exception is the lexer's or the syntax
    error of [p_error], never the [ValueError] of [binOp] or of the query
    builder; when it returns, it returns a query.  The operator of every
    comparison token the lexer emits is a key of [ops]. *)
Theorem C9_building_the_query_never_fails :
  (forall input,
      exists r, Parser.parse input = Some r
                /\ r <> Raise (ValueError "")
                /\ r <> Raise (ValueError "Query has no path")
                /\ (forall e, r = Raise e -> e = Parser.p_error \/ lexer_error e)
                /\ (forall v, r = Ok v -> exists q, v = Instance q))
  /\ (forall lexdata tok remaining f,
         Lexer.token lexdata = Ok (Some (tok, remaining)) ->
         operator_of (type tok) = Some f ->
         exists op, value tok = text op /\ ops_get ops op = Some f)
  /\ (forall k f v, binOp k (op_text f) v = Ok (Comparison k f v)).
Proof.
  split; [|split].
  - intros input.
    destruct (run_outcome string Lexer.token String.length (fun _ => True))
      with (src0 := input)
      as (r & Hr & Ho).
    { intros s tok s' _ E. apply token_lexed in E. tauto. }
    { exact Logic.I. }
    exists r. split; [exact Hr|].
    assert (C : forall e, r = Raise e -> e = Parser.p_error \/ lexer_error e).
    { intros e ->.
      destruct Ho as [[= ->]|[(q & [=] & _)|(e' & src & [= ->] & He & _)]];
        [now left|]. right. now apply token_raises in He. }
    repeat split.
    + intros ->. destruct (C _ eq_refl) as [E|E]; [discriminate E|].
      revert E. unfold lexer_error, Lexer.t_error, invalid_syntax, malformed_node.
      intros [(s & E)|[E|[E|E]]]; discriminate E.
    + intros ->. destruct (C _ eq_refl) as [E|E]; [discriminate E|].
      revert E. unfold lexer_error, Lexer.t_error, invalid_syntax, malformed_node.
      intros [(s & E)|[E|[E|E]]]; discriminate E.
    + exact C.
    + intros v ->.
      destruct Ho as [[=]|[(q & [= ->] & _)|(e' & src & [=] & _)]]. eauto.
  - intros lexdata tok remaining f Ht Hf.
    apply token_lexed in Ht as [Hl _]. unfold lexed in Hl.
    exists (op_text f). split; [|now apply (ops_has_every_operator (type tok))].
    destruct (type tok); simpl in Hf; try discriminate Hf;
      injection Hf as <-; exact Hl.
  - exact binOp_builds.
Qed.

Lemma C9_building_the_query_never_fails_witness :
  exists op, value {| type := LESS_THAN_OR_EQUAL; value := text "<=" |} = text op
             /\ ops_get ops op = Some operator.le.
Proof.
  apply (proj1 (proj2 C9_building_the_query_never_fails) "<= 3"
           {| type := LESS_THAN_OR_EQUAL; value := text "<=" |} " 3").
  - vm_compute. reflexivity.
  - reflexivity.
Defined.

(** ** Precedence and associativity (C4, C5) *)

Section Operators.
Variables (k1 k2 k3 : string) (f1 f2 f3 : operator.fn) (v1 v2 v3 : literal).

Let A := comparison_tokens k1 f1 v1.
Let B := comparison_tokens k2 f2 v2.
Let C := comparison_tokens k3 f3 v3.
Let a := Comparison k1 f1 v1.
Let b := Comparison k2 f2 v2.
Let c := Comparison k3 f3 v3.

Lemma or_then_and :
  Parser.parse_tokens (A ++ or_token :: B ++ and_token :: C)
  = parsed (QOr a (QAnd b c)).
Proof. destruct f1, f2, f3; reflexivity. Qed.

Lemma and_then_or :
  Parser.parse_tokens (A ++ and_token :: B ++ or_token :: C)
  = parsed (QOr (QAnd a b) c).
Proof. destruct f1, f2, f3; reflexivity. Qed.

Lemma and_associates_left :
  Parser.parse_tokens (A ++ and_token :: B ++ and_token :: C)
  = parsed (QAnd (QAnd a b) c).
Proof. destruct f1, f2, f3; reflexivity. Qed.

Lemma or_associates_left :
  Parser.parse_tokens (A ++ or_token :: B ++ or_token :: C)
  = parsed (QOr (QOr a b) c).
Proof. destruct f1, f2, f3; reflexivity. Qed.

Lemma not_then_and :
  Parser.parse_tokens (not_token :: A ++ and_token :: B)
  = parsed (QAnd (QNot a) b).
Proof. destruct f1, f2; reflexivity. Qed.

Lemma not_then_or :
  Parser.parse_tokens (not_token :: A ++ or_token :: B)
  = parsed (QOr (QNot a) b).
Proof. destruct f1, f2; reflexivity. Qed.

Lemma and_then_not :
  Parser.parse_tokens (A ++ and_token :: not_token :: B)
  = parsed (QAnd a (QNot b)).
Proof. destruct f1, f2; reflexivity. Qed.

Lemma not_of_comparison :
  Parser.parse_tokens (not_token :: A) = parsed (QNot a).
Proof. destruct f1; reflexivity. Qed.
End Operators.

(** C4: [&] binds tighter than [|] and both associate to the left: the
    expression [a==1 | b==2 & c==3] is parsed as the disjunction of [a==1]
    with the conjunction of [b==2] and [c==3], and so are any three
    comparisons in place of these. *)
Theorem C4_and_binds_tighter_than_or :
  Parser.parse "a==1 | b==2 & c==3"
  = parsed (QOr (Comparison "a" operator.eq (PyInt 1))
              (QAnd (Comparison "b" operator.eq (PyInt 2))
                 (Comparison "c" operator.eq (PyInt 3))))
  /\ Parser.parse "a==1 & b==2 | c==3"
     = parsed (QOr (QAnd (Comparison "a" operator.eq (PyInt 1))
                       (Comparison "b" operator.eq (PyInt 2)))
                 (Comparison "c" operator.eq (PyInt 3)))
  /\ forall k1 k2 k3 f1 f2 f3 v1 v2 v3,
      let A := comparison_tokens k1 f1 v1 in
      let B := comparison_tokens k2 f2 v2 in
      let C := comparison_tokens k3 f3 v3 in
      let a := Comparison k1 f1 v1 in
      let b := Comparison k2 f2 v2 in
      let c := Comparison k3 f3 v3 in
      Parser.parse_tokens (A ++ or_token :: B ++ and_token :: C)
      = parsed (QOr a (QAnd b c))
      /\ Parser.parse_tokens (A ++ and_token :: B ++ or_token :: C)
         = parsed (QOr (QAnd a b) c)
      /\ Parser.parse_tokens (A ++ and_token :: B ++ and_token :: C)
         = parsed (QAnd (QAnd a b) c)
      /\ Parser.parse_tokens (A ++ or_token :: B ++ or_token :: C)
         = parsed (QOr (QOr a b) c).
Proof.
  split; [vm_compute; reflexivity|]. split; [vm_compute; reflexivity|].
  intros. repeat split.
  - apply or_then_and.
  - apply and_then_or.
  - apply and_associates_left.
  - apply or_associates_left.
Qed.

(** C5: [~] binds tighter than [&] and [|] and looser than a comparison:
    [~a==1 & b==2] is parsed as the conjunction of the negation of [a==1]
    with [b==2], not as the negation of the conjunction; and so for any
    comparisons in place of these. *)
Theorem C5_not_binds_tighter_than_and :
  Parser.parse "~a==1 & b==2"
  = parsed (QAnd (QNot (Comparison "a" operator.eq (PyInt 1)))
              (Comparison "b" operator.eq (PyInt 2)))
  /\ forall k1 k2 f1 f2 v1 v2,
      let A := comparison_tokens k1 f1 v1 in
      let B := comparison_tokens k2 f2 v2 in
      let a := Comparison k1 f1 v1 in
      let b := Comparison k2 f2 v2 in
      Parser.parse_tokens (not_token :: A) = parsed (QNot a)
      /\ Parser.parse_tokens (not_token :: A ++ and_token :: B)
         = parsed (QAnd (QNot a) b)
      /\ Parser.parse_tokens (not_token :: A ++ or_token :: B)
         = parsed (QOr (QNot a) b)
      /\ Parser.parse_tokens (A ++ and_token :: not_token :: B)
         = parsed (QAnd a (QNot b)).
Proof.
  split; [vm_compute; reflexivity|].
  intros. repeat split.
  - apply not_of_comparison.
  - apply not_then_and.
  - apply not_then_or.
  - apply and_then_not.
Qed.

(** ** Booleans (C6, C10) *)

Lemma lowercase_inv (w : string) (c : ascii) (l : string) :
  lowercase w = String c l ->
  exists x w', w = String x w' /\ (x = c \/ x = upper c) /\ lowercase w' = l.
Proof.
  destruct w as [|x w']; simpl; [discriminate|].
  intros [= H1 H2]. exists x, w'. repeat split; [|exact H2].
  now apply lower_inv.
Qed.

Lemma lowercase_nil (w : string) : lowercase w = "" -> w = "".
Proof. destruct w; simpl; [reflexivity | discriminate]. Qed.

Ltac spellings H :=
  repeat (apply lowercase_inv in H as (? & ? & -> & [-> | ->] & H));
  apply lowercase_nil in H; subst.

(** Before a text that begins with a spelling of [true] or [false], the
    rule for booleans is the first to match, and it matches the spelling
    and no more. *)
Lemma bool_rule_first (w rest : string) :
  boolean_spelling w = true ->
  Lexer.first_match Lexer.rules (w ++ rest) = Some (bool_rule, rest)
  /\ exists c w', w = String c w' /\ Lexer.t_ignore c = false.
Proof.
  unfold boolean_spelling, same_word. intros H.
  apply orb_true_iff in H as [H|H]; apply String.eqb_eq in H;
    change (lowercase "true") with "true" in H;
    change (lowercase "false") with "false" in H;
    spellings H; (split; [reflexivity | eauto]).
Qed.

Lemma token_of_boolean (w rest : string) :
  boolean_spelling w = true ->
  Lexer.token (w ++ rest)
  = (v <- literal_eval w ;;
     Ok (Some ({| type := SCALAR; value := v |}, rest))).
Proof.
  intros H. destruct (bool_rule_first w rest H) as (M & c & w' & -> & Hc).
  cbn [append Lexer.token]. rewrite Hc.
  unfold Lexer.scan. change (String c (w' ++ rest)) with (String c w' ++ rest)%string.
  rewrite M, consumed_app. cbn [Lexer.produce bool_rule]. unfold Lexer.t_BOOL.
  destruct (literal_eval (String c w')); reflexivity.
Qed.

Lemma literal_eval_boolean (w : string) :
  boolean_spelling w = true ->
  literal_eval w
  = if String.eqb w "True" then Ok (Const (PyBool true))
    else if String.eqb w "False" then Ok (Const (PyBool false))
    else Raise malformed_node.
Proof.
  unfold boolean_spelling, same_word. intros H.
  apply orb_true_iff in H as [H|H]; apply String.eqb_eq in H;
    change (lowercase "true") with "true" in H;
    change (lowercase "false") with "false" in H;
    spellings H; reflexivity.
Qed.

(** C6 fails on the code: the rule matches every spelling, but only [True]
    and [False] are decoded; on any other spelling [ast.literal_eval]
    raises [ValueError], and no token is emitted. *)
Theorem C6_only_True_and_False_are_decoded :
  Lexer.token "true" = Raise malformed_node
  /\ Lexer.token "false" = Raise malformed_node
  /\ Lexer.token "TRUE" = Raise malformed_node
  /\ Parser.parse "x==true" = Some (Raise malformed_node)
  /\ Lexer.token "True"
     = Ok (Some ({| type := SCALAR; value := Const (PyBool true) |}, ""))
  /\ Lexer.token "False"
     = Ok (Some ({| type := SCALAR; value := Const (PyBool false) |}, ""))
  /\ forall w rest,
      boolean_spelling w = true ->
      Lexer.token (w ++ rest)
      = if String.eqb w "True"
        then Ok (Some ({| type := SCALAR; value := Const (PyBool true) |}, rest))
        else if String.eqb w "False"
        then Ok (Some ({| type := SCALAR; value := Const (PyBool false) |}, rest))
        else Raise malformed_node.
Proof.
  do 6 (split; [vm_compute; reflexivity|]).
  intros w rest H. rewrite (token_of_boolean _ _ H), (literal_eval_boolean _ H).
  destruct (String.eqb w "True"); [reflexivity|].
  destruct (String.eqb w "False"); reflexivity.
Qed.

Lemma C6_only_True_and_False_are_decoded_witness :
  Lexer.token "tRuE==1" = Raise malformed_node.
Proof.
  apply (proj2 (proj2 (proj2 (proj2 (proj2 (proj2
           C6_only_True_and_False_are_decoded))))) "tRuE" "==1").
  reflexivity.
Defined.

(** C10 fails on the code.  The rule for booleans is tried before
    the rule for identifiers and matches the prefix, as the claim says,
    so that an identifier that begins with [true] or [false] in any letter
    case is never emitted as one Identifier token; but the prefix becomes
    a Scalar token only when it is spelled [True] or [False], the
    characters after it being left to be read separately.  On any other
    spelling, as on the claim's own example [trueflag], a text the
    identifier rule matches whole, [ast.literal_eval] raises [ValueError]
    and no token is emitted. *)
Theorem C10_boolean_prefix_of_identifier :
  (forall w rest,
      boolean_spelling w = true ->
      Lexer.first_match Lexer.rules (w ++ rest) = Some (bool_rule, rest)
      /\ forall tok remaining,
          Lexer.token (w ++ rest) = Ok (Some (tok, remaining)) ->
          type tok = SCALAR /\ remaining = rest)
  /\ (forall rest,
         Lexer.token ("True" ++ rest)
         = Ok (Some ({| type := SCALAR; value := Const (PyBool true) |}, rest)))
  /\ (forall rest,
         Lexer.token ("False" ++ rest)
         = Ok (Some ({| type := SCALAR; value := Const (PyBool false) |}, rest)))
  /\ tokenize 3 "Trueflag"
     = Ok [ {| type := SCALAR; value := Const (PyBool true) |};
            {| type := ID; value := text "flag" |} ]
  /\ (forall w rest,
         boolean_spelling w = true ->
         String.eqb w "True" = false ->
         String.eqb w "False" = false ->
         Lexer.token (w ++ rest) = Raise malformed_node)
  /\ re_match Lexer.ignorecase Lexer.t_ID_doc "trueflag" = Some ""
  /\ Lexer.first_match Lexer.rules "trueflag" = Some (bool_rule, "flag")
  /\ Lexer.token "trueflag" = Raise malformed_node.
Proof.
  split; [|split; [|split; [|split; [|split]]]].
  - intros w rest H. split; [apply (bool_rule_first _ _ H)|].
    intros tok remaining. rewrite (token_of_boolean _ _ H).
    destruct (literal_eval w); simpl; [|discriminate].
    intros [= <- <-]. auto.
  - intros rest. now rewrite (token_of_boolean "True" rest).
  - intros rest. now rewrite (token_of_boolean "False" rest).
  - vm_compute. reflexivity.
  - intros w rest H T F.
    rewrite (token_of_boolean _ _ H), (literal_eval_boolean _ H), T, F.
    reflexivity.
  - repeat split; vm_compute; reflexivity.
Qed.

Lemma C10_boolean_prefix_of_identifier_witness :
  Lexer.first_match Lexer.rules "FALSEhood" = Some (bool_rule, "hood")
  /\ type {| type := SCALAR; value := Const (PyBool true) |} = SCALAR
  /\ Lexer.token "FALSEhood" = Raise malformed_node.
Proof.
  split; [|split].
  - apply (proj1 C10_boolean_prefix_of_identifier "FALSE" "hood"). reflexivity.
  - apply (proj2 (proj1 C10_boolean_prefix_of_identifier "True" "th" eq_refl)
             _ "th").
    reflexivity.
  - apply (proj1 (proj2 (proj2 (proj2 (proj2
             C10_boolean_prefix_of_identifier)))) "FALSE" "hood");
      reflexivity.
Defined.

(** ** List literals (C7) *)

Lemma forall_chars_app p (a b : string) :
  forall_chars p (a ++ b) = forall_chars p a && forall_chars p b.
Proof. induction a; simpl; [reflexivity|]. now rewrite IHa, andb_assoc. Qed.

Lemma closed_plain (a : string) :
  forall_chars outside_quotes a = true -> closed a.
Proof.
  intros H piece s. revert piece. induction a as [|c a IH]; intros piece.
  - now rewrite app_empty_r.
  - simpl in H. apply andb_true_iff in H as [Hc Ha].
    unfold outside_quotes in Hc. apply negb_true_iff in Hc.
    apply orb_false_iff in Hc as [Hc Hd]. apply orb_false_iff in Hc as [Hc Hq].
    cbn [append split_commas]. rewrite Hc, Hq, Hd. cbn [orb].
    rewrite (IH Ha). now rewrite app_assoc_s.
Qed.

Lemma closed_app (a b : string) : closed a -> closed b -> closed (a ++ b).
Proof.
  intros Ha Hb piece s. now rewrite app_assoc_s, Ha, Hb, app_assoc_s.
Qed.

Lemma inside_quotes q : forall rest body piece s,
  plain_string_body q rest = Some body ->
  split_commas (Some q) piece (rest ++ s) = split_commas None (piece ++ rest) s.
Proof.
  induction rest as [|c rest IH]; intros body piece s H; [discriminate H|].
  cbn [plain_string_body] in H. destruct rest as [|c' rest'].
  - destruct (Ascii.eqb c q) eqn:E; [|discriminate H].
    cbn [append split_commas]. now rewrite E.
  - destruct (is_plain_char q c) eqn:E; [|discriminate H].
    destruct (plain_string_body q (String c' rest')) as [b|] eqn:B;
      [|discriminate H].
    unfold is_plain_char in E. apply negb_true_iff in E.
    repeat (apply orb_false_iff in E as [E ?]).
    change (String c (String c' rest') ++ s)%string
      with (String c (String c' rest' ++ s)).
    cbn [split_commas]. rewrite E, (IH _ _ _ eq_refl).
    now rewrite app_assoc_s.
Qed.

Lemma closed_quoted q rest body :
  (q = "'" \/ q = dquote)%char ->
  plain_string_body q rest = Some body -> closed (String q rest).
Proof.
  intros Hq H piece s. cbn [append split_commas].
  assert (E : Ascii.eqb q "," = false) by (destruct Hq; subst; reflexivity).
  assert (Q : (Ascii.eqb q "'" || Ascii.eqb q dquote) = true)
    by (destruct Hq; subst; reflexivity).
  rewrite E, Q, (inside_quotes _ _ _ _ _ H). now rewrite app_assoc_s.
Qed.

Lemma span_digits_spec (s : string) :
  s = (fst (span_digits s) ++ snd (span_digits s))%string
  /\ forall_chars is_digit (fst (span_digits s)) = true.
Proof.
  induction s as [|c s [IH1 IH2]]; simpl; [auto|].
  destruct (is_digit c) eqn:D; simpl; [|auto].
  destruct (span_digits s) as [d r]; simpl in *. rewrite D, IH2.
  split; [now f_equal | reflexivity].
Qed.

Lemma digit_outside_quotes (c : ascii) :
  is_digit c = true -> outside_quotes c = true.
Proof. destruct c as [[] [] [] [] [] [] [] []]; vm_compute; congruence. Qed.

Lemma forall_chars_impl (p q : ascii -> bool) (s : string) :
  (forall c, p c = true -> q c = true) ->
  forall_chars p s = true -> forall_chars q s = true.
Proof.
  intros Hpq. induction s as [|c s IH]; simpl; [reflexivity|].
  intros H. apply andb_true_iff in H as [H1 H2].
  now rewrite (Hpq _ H1), IH.
Qed.

Lemma eval_number_closed (a : string) (v : literal) :
  eval_number a = Ok v -> closed a.
Proof.
  unfold eval_number. destruct (span_digits_spec a) as [E D].
  destruct (span_digits a) as [whole r]; simpl in E, D.
  assert (W : forall_chars outside_quotes whole = true)
    by (eapply forall_chars_impl; [apply digit_outside_quotes | exact D]).
  destruct r as [|d f].
  - intros _. apply closed_plain. rewrite E, forall_chars_app, W. reflexivity.
  - destruct (Ascii.eqb d ".") eqn:P.
    + apply Ascii.eqb_eq in P. subst d.
      destruct (negb (String.eqb f "") && forall_chars is_digit f) eqn:F;
        [|intros H; discriminate H].
      intros _. apply andb_true_iff in F as [_ F].
      apply closed_plain. rewrite E, forall_chars_app, W. simpl.
      eapply forall_chars_impl; [apply digit_outside_quotes | exact F].
    + destruct d as [[] [] [] [] [] [] [] []];
        try (intros H; discriminate H); discriminate P.
Qed.

Lemma eval_atom_closed (a : string) (v : literal) :
  eval_atom a = Ok v -> closed a.
Proof.
  unfold eval_atom. destruct a as [|c rest]; [intros H; discriminate H|].
  destruct (is_digit c); [apply eval_number_closed|].
  destruct (Ascii.eqb c "'" || Ascii.eqb c dquote) eqn:Q.
  - destruct (plain_string_body c rest) as [body|] eqn:B;
      [|intros H; discriminate H].
    intros _. apply (closed_quoted c rest body); [|exact B].
    apply orb_true_iff in Q as [Q|Q]; apply Ascii.eqb_eq in Q; auto.
  - destruct (is_name_start c); [|intros H; discriminate H].
    unfold eval_name.
    destruct (String.eqb (String c rest) "True") eqn:E1;
      [apply String.eqb_eq in E1; rewrite E1; intros _;
       now apply closed_plain|].
    destruct (String.eqb (String c rest) "False") eqn:E2;
      [apply String.eqb_eq in E2; rewrite E2; intros _;
       now apply closed_plain|].
    destruct (String.eqb (String c rest) "None") eqn:E3;
      [apply String.eqb_eq in E3; rewrite E3; intros _;
       now apply closed_plain|].
    destruct (same_word _ _ || _); intros H; discriminate H.
Qed.

(** Blanks around a text. *)
Lemma lstrip_spec (s : string) :
  exists pre, s = (pre ++ lstrip s)%string /\ forall_chars is_space pre = true.
Proof.
  induction s as [|c s (pre & E & B)]; simpl.
  - now exists "".
  - destruct (is_space c) eqn:S.
    + exists (String c pre). simpl. rewrite S, B. split; [now f_equal | reflexivity].
    + now exists "".
Qed.

Lemma rstrip_spec (s : string) :
  exists post, s = (rstrip s ++ post)%string /\ forall_chars is_space post = true.
Proof.
  induction s as [|c s (post & E & B)]; cbn [rstrip].
  - now exists "".
  - destruct (rstrip s) as [|c' r] eqn:R.
    + cbn [append] in E. subst post. destruct (is_space c) eqn:S.
      * exists (String c s). split; [reflexivity|]. cbn [forall_chars].
        now rewrite S, B.
      * exists s. split; [reflexivity | exact B].
    + exists post. split; [|exact B]. cbn [append]. f_equal. exact E.
Qed.

Lemma space_outside_quotes (c : ascii) :
  is_space c = true -> outside_quotes c = true.
Proof. destruct c as [[] [] [] [] [] [] [] []]; vm_compute; congruence. Qed.

Lemma closed_blanks (b : string) : forall_chars is_space b = true -> closed b.
Proof.
  intros H. apply closed_plain.
  eapply forall_chars_impl; [apply space_outside_quotes | exact H].
Qed.

Lemma strip_closed (x : string) (v : literal) :
  eval_atom (strip x) = Ok v -> closed x.
Proof.
  intros H. apply eval_atom_closed in H.
  destruct (lstrip_spec x) as (pre & E1 & B1).
  destruct (rstrip_spec (lstrip x)) as (post & E2 & B2).
  rewrite E1, E2. fold (strip x).
  apply closed_app; [now apply closed_blanks|].
  apply closed_app; [exact H | now apply closed_blanks].
Qed.

Lemma lstrip_idem (s : string) : lstrip (lstrip s) = lstrip s.
Proof.
  induction s as [|c s IH]; simpl; [reflexivity|].
  destruct (is_space c) eqn:S; [exact IH|]. simpl. now rewrite S.
Qed.

Lemma token_lstrip (x : string) :
  Lexer.token x
  = match lstrip x with
    | "" => Ok None
    | y => r <- Lexer.scan y ;; Ok (Some r)
    end.
Proof.
  induction x as [|c x IH]; cbn [Lexer.token lstrip]; [reflexivity|].
  change (Lexer.t_ignore c) with (is_space c).
  destruct (is_space c); [exact IH | reflexivity].
Qed.

Lemma scan_scalar (c : ascii) (y remaining : string) (v : object) :
  Lexer.scan (String c y) = Ok ({| type := SCALAR; value := v |}, remaining) ->
  literal_eval (consumed (String c y) remaining) = Ok v
  /\ c <> "["%char
  /\ String c y = (consumed (String c y) remaining ++ remaining)%string.
Proof.
  unfold Lexer.scan.
  destruct (Lexer.first_match _ _) as [[r rem]|] eqn:E; [|discriminate].
  apply first_match_In in E as [Hr H].
  destruct (Lexer.produce r _) as [tok|] eqn:P; simpl; [|discriminate].
  intros [= -> ->]. unfold Lexer.ignorecase in H.
  pose proof (re_match_consumed _ _ _ _ H) as [C _].
  unfold Lexer.rules in Hr. simpl in Hr.
  assert (S : forall r0,
             In r0 [Lexer.t_BOOL_doc; Lexer.t_STRING_doc; Lexer.t_SCALAR_doc] ->
             re_match true r0 (String c y) = Some remaining ->
             (v0 <- literal_eval (consumed (String c y) remaining) ;;
              Ok {| type := SCALAR; value := v0 |})
             = Ok {| type := SCALAR; value := v |} ->
             literal_eval (consumed (String c y) remaining) = Ok v
             /\ c <> "["%char
             /\ String c y
                = (consumed (String c y) remaining ++ remaining)%string).
  { intros r0 Hr0 Hm Hp. repeat split; [| |exact C].
    - destruct (literal_eval _); simpl in Hp; [|discriminate Hp].
      now injection Hp as ->.
    - eapply scalar_rules_head; eassumption. }
  repeat match type of Hr with
         | _ \/ _ => destruct Hr as [<-|Hr]
         | False => destruct Hr
         end; cbn [Lexer.pattern Lexer.produce Lexer.plain] in H, P;
    try discriminate P.
  - unfold Lexer.t_LIST in P. destruct (literal_eval _); discriminate P.
  - eapply S; [| exact H | exact P]. simpl; auto.
  - eapply S; [| exact H | exact P]. simpl; auto.
  - eapply S; [| exact H | exact P]. simpl; auto.
  - unfold Lexer.t_ID in P. apply Ok_inj in P.
    apply (f_equal type) in P. cbn [type] in P.
    destruct (reserved_get_ID_or_IN (consumed (String c y) remaining)) as [T|T];
      rewrite T in P; discriminate P.
Qed.

(** The text of a Scalar token is a constant that [eval_atom] decodes. *)
Lemma scalar_text_atom (x : string) (v : literal) :
  scalar_text x v -> eval_atom (strip x) = Ok v.
Proof.
  unfold scalar_text. rewrite token_lstrip.
  destruct (lstrip x) as [|c y] eqn:L; [discriminate|].
  destruct (Lexer.scan (String c y)) as [[tok rem]|] eqn:S; simpl;
    [|discriminate].
  intros [= -> ->]. apply scan_scalar in S as (E & Hc & C).
  rewrite app_empty_r in C. rewrite <- C in E.
  rewrite literal_eval_head in E.
  destruct (Ascii.eqb c "[") eqn:B; [apply Ascii.eqb_eq in B; contradiction|].
  destruct (eval_atom (strip (String c y))) as [l|] eqn:A; simpl in E;
    [|discriminate E].
  injection E as ->. rewrite <- L in A. unfold strip in *.
  now rewrite lstrip_idem in A.
Qed.

Lemma split_concat (xs : list string) :
  forall x piece,
    List.Forall closed (x :: xs) ->
    split_commas None piece (String.concat "," (x :: xs))
    = (piece ++ x)%string :: xs.
Proof.
  induction xs as [|y l IH]; intros x piece H; inversion H as [|? ? Hx Hl]; subst.
  - cbn [String.concat]. rewrite <- (app_empty_r x) at 1. now rewrite Hx.
  - change (String.concat "," (x :: y :: l))
      with (x ++ String "," (String.concat "," (y :: l)))%string.
    rewrite Hx. cbn [split_commas]. cbn [Ascii.eqb Bool.eqb].
    now rewrite (IH y "" Hl).
Qed.

Lemma last_nonempty (ps : list string) (p : string) :
  List.Forall (fun q => q <> "") (p :: ps) -> last (p :: ps) "" <> "".
Proof.
  revert p. induction ps as [|q ps IH]; intros p H;
    inversion H as [|? ? Hp Hps]; subst; [exact Hp|].
  change (last (p :: q :: ps) "") with (last (q :: ps) ""). now apply IH.
Qed.

Lemma elements_concat (xs : list string) :
  List.Forall (fun x => closed x /\ strip x <> "") xs ->
  elements (String.concat "," xs) = map strip xs.
Proof.
  intros H. destruct xs as [|x xs]; [reflexivity|].
  assert (Hc : List.Forall closed (x :: xs))
    by (eapply Forall_impl; [|exact H]; now intros a [Ha _]).
  assert (Hn : List.Forall (fun q => q <> "") (map strip (x :: xs)))
    by (apply Forall_map; eapply Forall_impl; [|exact H]; now intros a [_ Ha]).
  unfold elements. rewrite (split_concat xs x "" Hc). cbn [append].
  destruct xs as [|y xs].
  - cbn [map]. inversion Hn as [|? ? Hx _]; subst.
    apply String.eqb_neq in Hx. now rewrite Hx.
  - cbn [map] in *. apply last_nonempty in Hn. apply String.eqb_neq in Hn.
    now rewrite Hn.
Qed.

Lemma sequence_oks {A} (vs : list A) : sequence (map Ok vs) = Ok vs.
Proof. induction vs as [|v vs IH]; simpl; [reflexivity|]. now rewrite IH. Qed.

Lemma eval_list_concat (xs : list string) (vs : list literal) :
  List.Forall2 scalar_text xs vs ->
  eval_list (String.concat "," xs) = Ok vs.
Proof.
  intros H.
  assert (Ha : List.Forall2 (fun x v => eval_atom (strip x) = Ok v) xs vs)
    by (eapply Forall2_impl; [|exact H]; apply scalar_text_atom).
  unfold eval_list. rewrite elements_concat.
  - rewrite map_map.
    assert (E : map (fun x => eval_atom (strip x)) xs = map Ok vs).
    { clear H. induction Ha as [|x v xs vs Hx _ IH]; [reflexivity|].
      cbn [map]. now rewrite Hx, IH. }
    rewrite E.
    assert (U : forall p, (forall v : literal, p (Ok v) = false) ->
                          existsb p (map Ok vs) = false).
    { intros p Hp. clear - Hp. induction vs; simpl; [reflexivity|].
      now rewrite Hp. }
    rewrite (U is_unmodelled), (U is_syntax_error); try reflexivity.
    apply sequence_oks.
  - clear H. induction Ha as [|x v xs vs Hx _ IH]; constructor; [|exact IH].
    split; [eapply strip_closed, Hx|].
    intros E. rewrite E in Hx. discriminate Hx.
Qed.

(** The pattern of a list literal reads up to the first closing bracket. *)
Lemma not_bracket_matches (c : ascii) :
  set_matches true true [only "]"] c = negb (Ascii.eqb c "]").
Proof. destruct c as [[] [] [] [] [] [] [] []]; reflexivity. Qed.

Lemma greedy_to_bracket (k : string -> option string) (rest : string) :
  forall body n x,
    no_bracket body = true ->
    String.length (body ++ String "]" rest) <= n ->
    k (String "]" rest) = Some x ->
    repeat_ (backtrack true (In_ true [only "]"])) true k n
      (body ++ String "]" rest)
    = Some x.
Proof.
  remember (backtrack true (In_ true [only "]"])) as m eqn:Em.
  assert (Hm : forall x s k0,
             m (String x s) k0 = if negb (Ascii.eqb x "]") then k0 s else None).
  { intros x s k0. rewrite Em. cbn [backtrack].
    now rewrite not_bracket_matches. }
  clear Em.
  induction body as [|c body IH]; intros n x Hb Hn Hk.
  - cbn [append]. destruct n as [|n]; cbn [repeat_ or_else]; [exact Hk|].
    rewrite Hm. exact Hk.
  - cbn [no_bracket forall_chars] in Hb. apply andb_true_iff in Hb as [Hc Hb].
    cbn [append String.length] in *. destruct n as [|n]; [lia|].
    cbn [repeat_]. rewrite Hm, Hc.
    cbn [String.length].
    rewrite (proj2 (Nat.ltb_lt _ _) (Nat.lt_succ_diag_r _)).
    now rewrite (IH n x Hb); [|lia|].
Qed.

Lemma list_rule_matches (body rest : string) :
  no_bracket body = true ->
  re_match true Lexer.t_LIST_doc (String "[" (body ++ String "]" rest))
  = Some rest.
Proof.
  intros Hb. unfold re_match, Lexer.t_LIST_doc. cbn [backtrack].
  change (chr_matches true "[" "[") with true. cbv iota.
  apply (greedy_to_bracket _ rest body _ rest Hb (le_n _)).
  reflexivity.
Qed.

Lemma without_last_app (body : string) :
  without_last "]" (body ++ "]") = Some body.
Proof.
  induction body as [|c body IH]; [reflexivity|].
  cbn [append without_last]. rewrite IH.
  destruct (body ++ "]")%string eqn:E; [destruct body; discriminate E|].
  reflexivity.
Qed.

Lemma no_bracket_concat (xs : list string) :
  forallb no_bracket xs = true -> no_bracket (String.concat "," xs) = true.
Proof.
  induction xs as [|x xs IH]; [reflexivity|].
  cbn [forallb]. intros H. apply andb_true_iff in H as [Hx Hxs].
  destruct xs as [|y l]; [exact Hx|].
  change (String.concat "," (x :: y :: l))
    with (x ++ String "," (String.concat "," (y :: l)))%string.
  unfold no_bracket in *. rewrite forall_chars_app, Hx.
  cbn [forall_chars]. now rewrite (IH Hxs).
Qed.

(** C7, as the specification states it, fails: a boolean in another
    letter case than [True] and [False] is not decoded inside a list; the
    lexer raises and emits no List token. *)
Lemma C7_lowercase_boolean_in_list_raises :
  Lexer.token "[true]" = Raise malformed_node
  /\ Lexer.token "[1, FALSE]" = Raise malformed_node
  /\ Parser.parse "x in [true]" = Some (Raise malformed_node).
Proof. repeat split; vm_compute; reflexivity. Qed.

(** C7, amended: the elements of a list literal are decoded as Scalar
    tokens are.  When every element, on its own, is read by the lexer as
    one Scalar token (a number, a quoted string, [True] or [False]) and
    holds no closing bracket, the bracketed list of the elements,
    separated by commas, is read as one List token that carries their
    constants in order. *)
Theorem C7_list_elements_decode_as_scalars
  (xs : list string) (vs : list literal) (rest : string) :
  List.Forall2 scalar_text xs vs ->
  forallb no_bracket xs = true ->
  Lexer.token (String "[" (String.concat "," xs ++ String "]" rest))
  = Ok (Some ({| type := LIST; value := Items vs |}, rest)).
Proof.
  intros Hx Hb. set (body := String.concat "," xs).
  assert (Hbody : no_bracket body = true) by now apply no_bracket_concat.
  cbn [Lexer.token]. change (Lexer.t_ignore "[") with false. cbv iota.
  unfold Lexer.scan, Lexer.rules. cbn [Lexer.first_match Lexer.pattern].
  unfold Lexer.ignorecase. rewrite (list_rule_matches body rest Hbody).
  replace (String "[" (body ++ String "]" rest))
    with (String "[" (body ++ "]") ++ rest)%string
    by (cbn [append]; now rewrite app_assoc_s).
  rewrite consumed_app. cbn [Lexer.produce]. unfold Lexer.t_LIST.
  rewrite literal_eval_head. change (Ascii.eqb "[" "[") with true. cbv iota.
  rewrite without_last_app. unfold body. rewrite (eval_list_concat xs vs Hx).
  reflexivity.
Qed.

Lemma C7_list_elements_decode_as_scalars_witness :
  Lexer.token "[1, 2.5, 'a,b', True] & y==2"
  = Ok (Some ({| type := LIST;
                 value := Items [PyInt 1;
                                 PyFloat (S754_finite false 5629499534213120 (-51));
                                 PyStr "a,b"; PyBool true] |},
              " & y==2")).
Proof.
  apply (C7_list_elements_decode_as_scalars
           ["1"; " 2.5"; " 'a,b'"; " True"]
           [PyInt 1; PyFloat (S754_finite false 5629499534213120 (-51));
            PyStr "a,b"; PyBool true] " & y==2").
  - repeat constructor; vm_compute; reflexivity.
  - reflexivity.
Defined.

(** * Further properties *)

(** ** Grouping *)

(** Parentheses override precedence: for any comparisons, the parser
    builds the conjunction of a parenthesised disjunction, the negation
    of a parenthesised conjunction, and nothing more than the comparison
    for a parenthesised comparison. *)
Theorem grouping_overrides_precedence
  (k1 k2 k3 : string) (f1 f2 f3 : operator.fn) (v1 v2 v3 : literal) :
  let A := comparison_tokens k1 f1 v1 in
  let B := comparison_tokens k2 f2 v2 in
  let C := comparison_tokens k3 f3 v3 in
  let a := Comparison k1 f1 v1 in
  let b := Comparison k2 f2 v2 in
  let c := Comparison k3 f3 v3 in
  Parser.parse_tokens (lparen_token :: A ++ or_token :: B
                         ++ rparen_token :: and_token :: C)
  = parsed (QAnd (QOr a b) c)
  /\ Parser.parse_tokens (A ++ and_token :: lparen_token :: B
                            ++ or_token :: C ++ [rparen_token])
     = parsed (QAnd a (QOr b c))
  /\ Parser.parse_tokens (not_token :: lparen_token :: A
                            ++ and_token :: B ++ [rparen_token])
     = parsed (QNot (QAnd a b))
  /\ Parser.parse_tokens (lparen_token :: lparen_token :: A
                            ++ [rparen_token; rparen_token])
     = parsed a.
Proof. destruct f1, f2, f3; repeat split; reflexivity. Qed.

(** ** The queries as predicates *)

(** The laws of De Morgan, double negation and associativity hold of the
    queries built by [andOp], [orOp] and [notOp] on every record, also
    when a comparison raises: both sides then raise the same exception. *)
Theorem query_algebra (a b c : QueryInstance) (record : pyval) :
  call (notOp (andOp a b)) record = call (orOp (notOp a) (notOp b)) record
  /\ call (notOp (orOp a b)) record = call (andOp (notOp a) (notOp b)) record
  /\ call (notOp (notOp a)) record = call a record
  /\ call (andOp (andOp a b) c) record = call (andOp a (andOp b c)) record
  /\ call (orOp (orOp a b) c) record = call (orOp a (orOp b c)) record.
Proof.
  unfold andOp, orOp, notOp. cbn [call].
  destruct (call a record) as [[|]|ea]; cbn [bind negb];
    destruct (call b record) as [[|]|eb]; cbn [bind negb];
    destruct (call c record) as [[|]|ec]; cbn [bind negb];
    repeat split; reflexivity.
Qed.

(** The order of the operands decides whether an exception comes out:
    [&] does not look at its right operand when the left one is false,
    nor [|] when the left one is true, so an operand that raises is
    silent on the right and raises on the left. *)
Theorem operand_order_decides_exceptions
  (a b : QueryInstance) (record : pyval) (e : exn) :
  call b record = Raise e ->
  (call a record = Ok false ->
   call (andOp a b) record = Ok false /\ call (andOp b a) record = Raise e)
  /\ (call a record = Ok true ->
      call (orOp a b) record = Ok true /\ call (orOp b a) record = Raise e).
Proof.
  intros Hb. unfold andOp, orOp. cbn [call]. rewrite Hb.
  split; intros ->; split; reflexivity.
Qed.

Lemma operand_order_decides_exceptions_witness :
  call (andOp (Comparison "m" operator.eq (PyInt 1))
          (Comparison "n" operator.lt (PyInt 5)))
    (PyDict [("n", Scalar (PyStr "abc"))])
  = Ok false
  /\ call (andOp (Comparison "n" operator.lt (PyInt 5))
             (Comparison "m" operator.eq (PyInt 1)))
       (PyDict [("n", Scalar (PyStr "abc"))])
     = Raise TypeError.
Proof.
  apply (proj1 (operand_order_decides_exceptions
                  (Comparison "m" operator.eq (PyInt 1))
                  (Comparison "n" operator.lt (PyInt 5))
                  (PyDict [("n", Scalar (PyStr "abc"))]) TypeError eq_refl)).
  reflexivity.
Defined.

Lemma runner_resolved (k : string) (t : test) (record x : pyval) :
  getitem record k = Ok x -> runner [k] t record = run_test t x.
Proof. intros H. unfold runner. cbn [resolve]. rewrite H. reflexivity. Qed.

Lemma runner_unresolved (k : string) (t : test) (record : pyval) (e : exn) :
  getitem record k = Raise e -> runner [k] t record = Ok false.
Proof.
  intros H. unfold runner. cbn [resolve]. rewrite H. cbn [bind].
  destruct record as [l|xs|kv]; cbn [getitem] in H;
    try (injection H as <-; reflexivity).
  destruct (dict_get kv k); [discriminate H|]. injection H as <-. reflexivity.
Qed.

Lemma getitem_cases (record : pyval) (k : string) :
  (exists x, getitem record k = Ok x) \/ (exists e, getitem record k = Raise e).
Proof. destruct (getitem record k); eauto. Qed.

Lemma py_in_without_nan (x : pyval) (items : list literal) :
  existsb is_nan items = false ->
  py_in x items = Ok (existsb (py_eq x) items).
Proof.
  intros H. unfold py_in. destruct x as [l|xs|kv]; [|reflexivity ..].
  now rewrite H, andb_false_r.
Qed.


(** A membership test in a list that holds no NaN is the disjunction of
    the equalities with the members: [k in [v, x1, ..., xn]] and
    [k==v | k==x1 | ... | k==xn] give the same answer on every record;
    and a test against the empty list is false on every record.  (With
    a NaN in the list, Python finds the NaN that is the very object of
    the record, which no equality does.) *)
Theorem membership_is_disjunction (k : string) (record : pyval) :
  (forall v xs,
      existsb is_nan (v :: xs) = false ->
      exists q, inclusionOp k (v :: xs) = Ok q
                /\ call q record = call (any_equal k v xs) record)
  /\ exists q, inclusionOp k [] = Ok q /\ call q record = Ok false.
Proof.
  split.
  - intros v xs N. exists (Membership k (v :: xs)).
    split; [apply inclusionOp_builds|].
    unfold any_equal, Membership. cbn [call].
    destruct (getitem_cases record k) as [(x & H)|(e & H)].
    + rewrite (runner_resolved _ _ _ _ H). cbn [run_test].
      rewrite (py_in_without_nan x _ N). cbn [existsb].
      assert (G : forall ys q b,
                 call q record = Ok b ->
                 call (fold_left
                         (fun q y => orOp q (Comparison k operator.eq y)) ys q)
                   record
                 = Ok (b || existsb (py_eq x) ys)).
      { induction ys as [|y ys IH]; intros q b Hq; cbn [fold_left existsb].
        - now rewrite orb_false_r.
        - rewrite (IH _ (b || py_eq x y)); [now rewrite orb_assoc|].
          unfold orOp, Comparison. cbn [call]. rewrite Hq. cbn [bind].
          rewrite (runner_resolved _ _ _ _ H). cbn [run_test py_compare].
          destruct b; reflexivity. }
      symmetry. apply G. unfold Comparison. cbn [call].
      now rewrite (runner_resolved _ _ _ _ H).
    + rewrite (runner_unresolved _ _ _ _ H).
      assert (G : forall ys q,
                 call q record = Ok false ->
                 call (fold_left
                         (fun q y => orOp q (Comparison k operator.eq y)) ys q)
                   record
                 = Ok false).
      { induction ys as [|y ys IH]; intros q Hq; cbn [fold_left]; [exact Hq|].
        apply IH. unfold orOp, Comparison. cbn [call]. rewrite Hq. cbn [bind].
        apply (runner_unresolved _ _ _ _ H). }
      symmetry. apply G. unfold Comparison. cbn [call].
      apply (runner_unresolved _ _ _ _ H).
  - exists (Membership k []). split; [apply inclusionOp_builds|].
    unfold Membership. cbn [call].
    destruct (getitem_cases record k) as [(x & H)|(e & H)].
    + rewrite (runner_resolved _ _ _ _ H). cbn [run_test].
      now rewrite py_in_without_nan.
    + apply (runner_unresolved _ _ _ _ H).
Qed.

Lemma membership_is_disjunction_witness :
  exists q,
    inclusionOp "x" [PyInt 1; PyInt 2] = Ok q
    /\ call q (PyDict [("x", Scalar (PyBool true))])
       = call (any_equal "x" (PyInt 1) [PyInt 2])
           (PyDict [("x", Scalar (PyBool true))]).
Proof.
  apply (proj1 (membership_is_disjunction "x"
                  (PyDict [("x", Scalar (PyBool true))]))
           (PyInt 1) [PyInt 2]).
  reflexivity.
Defined.

(** [k != v] is the negation of [k == v] on the records that have the
    field [k]; on the others both comparisons are false, so that
    [~(k == v)] is true where [k != v] is false. *)
Theorem inequality_is_not_negated_equality
  (k : string) (v : literal) (record : pyval) :
  (forall x, getitem record k = Ok x ->
             call (Comparison k operator.ne v) record
             = call (notOp (Comparison k operator.eq v)) record)
  /\ (forall e, getitem record k = Raise e ->
                call (Comparison k operator.ne v) record = Ok false
                /\ call (Comparison k operator.eq v) record = Ok false
                /\ call (notOp (Comparison k operator.eq v)) record = Ok true).
Proof.
  unfold Comparison, notOp. cbn [call]. split.
  - intros x H. now rewrite !(runner_resolved _ _ _ _ H).
  - intros e H. now rewrite !(runner_unresolved _ _ _ _ H).
Qed.

Lemma inequality_is_not_negated_equality_witness :
  call (Comparison "x" operator.ne (PyInt 1)) (PyDict [("x", Scalar (PyInt 2))])
  = call (notOp (Comparison "x" operator.eq (PyInt 1)))
      (PyDict [("x", Scalar (PyInt 2))])
  /\ call (Comparison "x" operator.ne (PyInt 1)) (PyDict []) = Ok false.
Proof.
  split.
  - apply (proj1 (inequality_is_not_negated_equality "x" (PyInt 1)
                    (PyDict [("x", Scalar (PyInt 2))])) (Scalar (PyInt 2))).
    reflexivity.
  - apply (proj2 (inequality_is_not_negated_equality "x" (PyInt 1) (PyDict []))
             (KeyError "x")).
    reflexivity.
Defined.



(** ** The lexer, rule by rule *)

Lemma token_of_match (c : ascii) (w rest : string) (r : Lexer.rule) :
  Lexer.t_ignore c = false ->
  Lexer.first_match Lexer.rules (String c w ++ rest) = Some (r, rest) ->
  Lexer.token (String c w ++ rest)
  = (tok <- Lexer.produce r (String c w) ;; Ok (Some (tok, rest))).
Proof.
  intros Hc M. cbn [append Lexer.token]. rewrite Hc. unfold Lexer.scan.
  change (String c (w ++ rest)) with (String c w ++ rest)%string.
  rewrite M, consumed_app. destruct (Lexer.produce r (String c w)); reflexivity.
Qed.

Lemma t_error_names (c : ascii) (rest : string) :
  Lexer.t_error (String c rest)
  = SyntaxError ("Illegal character " ++ String dquote (String c (String dquote ""))).
Proof. unfold Lexer.t_error. destruct rest; reflexivity. Qed.

(** A character that begins no token is refused with a [SyntaxError]
    that names it, whatever follows. *)
Theorem illegal_character_raises (c : ascii) (rest : string) :
  illegal c = true ->
  Lexer.token (String c rest)
  = Raise (SyntaxError
             ("Illegal character " ++ String dquote (String c (String dquote "")))).
Proof.
  intros H. rewrite <- (t_error_names c rest).
  destruct c as [[] [] [] [] [] [] [] []];
    first [discriminate H | reflexivity].
Qed.

Lemma illegal_character_raises_witness :
  Lexer.token "@1"
  = Raise (SyntaxError
             ("Illegal character " ++ String dquote (String "@" (String dquote "")))).
Proof. apply (illegal_character_raises "@" "1"). reflexivity. Defined.

Lemma not_followed_by_cases (c : ascii) (rest : string) :
  not_followed_by c rest ->
  rest = "" \/ exists x rest', rest = String x rest' /\ Ascii.eqb x c = false.
Proof.
  destruct rest as [|x rest']; [now left|]. intros H. right.
  exists x, rest'. split; [reflexivity|]. now apply Ascii.eqb_neq.
Qed.

Ltac by_next_character H :=
  apply not_followed_by_cases in H;
  destruct H as [->|(x & rest' & -> & H)];
  [reflexivity|];
  destruct x as [[] [] [] [] [] [] [] []];
  first [discriminate H | reflexivity].

Lemma operators_lexed (rest : string) :
  Lexer.token ("==" ++ rest) = Ok (Some (operator_token operator.eq, rest))
  /\ Lexer.token ("!=" ++ rest) = Ok (Some (operator_token operator.ne, rest))
  /\ Lexer.token ("<=" ++ rest) = Ok (Some (operator_token operator.le, rest))
  /\ Lexer.token (">=" ++ rest) = Ok (Some (operator_token operator.ge, rest))
  /\ (not_followed_by "=" rest ->
      Lexer.token ("<" ++ rest) = Ok (Some (operator_token operator.lt, rest))
      /\ Lexer.token (">" ++ rest) = Ok (Some (operator_token operator.gt, rest))
      /\ Lexer.token ("=" ++ rest) = Raise (Lexer.t_error "=")
      /\ Lexer.token ("!" ++ rest) = Raise (Lexer.t_error "!")).
Proof.
  split; [|split; [|split; [|split]]].
  - now rewrite (token_of_match _ _ _ (Lexer.plain EQUAL Lexer.t_EQUAL)).
  - now rewrite (token_of_match _ _ _ (Lexer.plain NOT_EQUAL Lexer.t_NOT_EQUAL)).
  - now rewrite (token_of_match _ _ _
                   (Lexer.plain LESS_THAN_OR_EQUAL Lexer.t_LESS_THAN_OR_EQUAL)).
  - now rewrite (token_of_match _ _ _
                   (Lexer.plain GREATER_THAN_OR_EQUAL Lexer.t_GREATER_THAN_OR_EQUAL)).
  - intros H. split; [|split; [|split]].
    + rewrite (token_of_match _ _ _ (Lexer.plain LESS_THAN Lexer.t_LESS_THAN));
        [reflexivity | reflexivity |]. by_next_character H.
    + rewrite (token_of_match _ _ _ (Lexer.plain GREATER_THAN Lexer.t_GREATER_THAN));
        [reflexivity | reflexivity |]. by_next_character H.
    + change (Lexer.t_error "=") with (Lexer.t_error (String "=" "")).
      rewrite t_error_names, <- (t_error_names "=" rest). by_next_character H.
    + change (Lexer.t_error "!") with (Lexer.t_error (String "!" "")).
      rewrite t_error_names, <- (t_error_names "!" rest). by_next_character H.
Qed.

(** The two-character operators are read as one token each; [<] and [>]
    stand alone only when no [=] follows; a lone [=] or [!] is an
    illegal character. *)
Theorem comparison_operators_are_lexed (rest : string) :
  Lexer.token ("==" ++ rest) = Ok (Some (operator_token operator.eq, rest))
  /\ Lexer.token ("!=" ++ rest) = Ok (Some (operator_token operator.ne, rest))
  /\ Lexer.token ("<=" ++ rest) = Ok (Some (operator_token operator.le, rest))
  /\ Lexer.token (">=" ++ rest) = Ok (Some (operator_token operator.ge, rest))
  /\ (not_followed_by "=" rest ->
      Lexer.token ("<" ++ rest) = Ok (Some (operator_token operator.lt, rest))
      /\ Lexer.token (">" ++ rest) = Ok (Some (operator_token operator.gt, rest))
      /\ Lexer.token ("=" ++ rest) = Raise (Lexer.t_error "=")
      /\ Lexer.token ("!" ++ rest) = Raise (Lexer.t_error "!")).
Proof. exact (operators_lexed rest). Qed.

Lemma comparison_operators_are_lexed_witness :
  Lexer.token "< =" = Ok (Some (operator_token operator.lt, " ="))
  /\ Lexer.token "=1" = Raise (Lexer.t_error "=").
Proof.
  split.
  - apply (comparison_operators_are_lexed " ="). cbn. discriminate.
  - apply (comparison_operators_are_lexed "1"). cbn. discriminate.
Defined.

(** *** The keyword [in] *)

Section Total.
Variable ic : bool.

Lemma repeat_total (m : string -> (string -> option string) -> option string)
  (k : string -> option string) :
  (forall s, k s <> None) ->
  forall n s, repeat_ m true k n s <> None.
Proof.
  intros Hk n s. destruct n; cbn [repeat_].
  - apply Hk.
  - destruct (m s _); cbn [or_else]; [discriminate | apply Hk].
Qed.

Lemma t_ID_matches (c : ascii) (rest : string) :
  set_matches ic false
    [range "a" "z"; range "A" "Z"; only "_"; range "0" "9"] c = true ->
  re_match ic Lexer.t_ID_doc (String c rest) <> None.
Proof.
  intros H. unfold re_match, Lexer.t_ID_doc, Plus, Lexer.word_char.
  cbn [backtrack]. rewrite H.
  apply repeat_total. intros s. apply repeat_total. discriminate.
Qed.
End Total.

Lemma first_match_order (s : string) (r : Lexer.rule) (remaining : string) :
  Lexer.first_match Lexer.rules s = Some (r, remaining) ->
  r = Lexer.plain IN Lexer.t_IN ->
  re_match Lexer.ignorecase Lexer.t_ID_doc s = None.
Proof.
  unfold Lexer.rules. cbn [Lexer.first_match Lexer.pattern].
  do 4 (destruct (re_match _ _ s);
        [intros [= <- _]; intros E; discriminate E|]).
  destruct (re_match _ Lexer.t_ID_doc s); [|reflexivity].
  intros [= <- _]. intros E. discriminate E.
Qed.

Lemma reserved_get_in (w : string) :
  Lexer.reserved_get Lexer.reserved w ID = if String.eqb "in" w then IN else ID.
Proof. reflexivity. Qed.

Lemma scan_keyword (c : ascii) (rest : string) (tok : LexToken) (remaining : string) :
  Lexer.scan (String c rest) = Ok (tok, remaining) ->
  (type tok = IN -> value tok = text "in")
  /\ (type tok = ID -> value tok <> text "in").
Proof.
  unfold Lexer.scan.
  destruct (Lexer.first_match _ _) as [[r rem]|] eqn:E; [|discriminate].
  pose proof (first_match_order _ _ _ E) as Order.
  apply first_match_In in E as [Hr H].
  destruct (Lexer.produce r _) as [tok'|] eqn:P; simpl; [|discriminate].
  intros [= -> ->].
  unfold Lexer.rules in Hr. simpl in Hr.
  repeat match type of Hr with
         | _ \/ _ => destruct Hr as [<-|Hr]
         | False => destruct Hr
         end;
    cbn [Lexer.pattern Lexer.produce Lexer.plain] in H, P;
    try (apply Ok_inj in P; subst tok; cbn [type value];
         split; intros T; discriminate T).
  1-4: unfold Lexer.t_LIST, Lexer.t_BOOL, Lexer.t_STRING, Lexer.t_SCALAR in P;
       destruct (literal_eval _); simpl in P; [|discriminate P];
       apply Ok_inj in P; subst tok; cbn [type]; split; intros T; discriminate T.
  - (* t_ID *)
    unfold Lexer.t_ID in P. apply Ok_inj in P. subst tok. cbn [type value].
    rewrite reserved_get_in.
    destruct (String.eqb "in" _) eqn:Q.
    + apply String.eqb_eq in Q. rewrite <- Q.
      split; [reflexivity | intros T; discriminate T].
    + apply String.eqb_neq in Q.
      split; [intros T; discriminate T|].
      intros _ T. apply Q. unfold text in T. now injection T as <-.
  - (* the rule of [t_IN] comes after [t_ID] *)
    exfalso. specialize (Order eq_refl).
    unfold Lexer.ignorecase in *.
    revert Order. apply t_ID_matches.
    unfold re_match, Lexer.t_IN in H. cbn [Word backtrack] in H.
    destruct c as [[] [] [] [] [] [] [] []];
      first [reflexivity | discriminate H].
Qed.

(** A token [IN] is always the lowercase word [in], and an identifier is
    never that word: the other spellings ([IN], [In], [iN]) are read as
    field names. *)
Theorem in_keyword_is_lowercase (lexdata : string) (tok : LexToken) (rest : string) :
  Lexer.token lexdata = Ok (Some (tok, rest)) ->
  (type tok = IN -> value tok = text "in")
  /\ (type tok = ID -> value tok <> text "in").
Proof.
  induction lexdata as [|c s IH]; cbn [Lexer.token]; [discriminate|].
  destruct (Lexer.t_ignore c); [exact IH|].
  destruct (Lexer.scan (String c s)) as [[tok' rem]|] eqn:E; simpl;
    [|discriminate].
  intros [= -> ->]. now apply scan_keyword in E.
Qed.

Lemma in_keyword_is_lowercase_witness :
  type {| type := ID; value := text "IN" |} = ID
  /\ value {| type := ID; value := text "IN" |} <> text "in".
Proof.
  split; [reflexivity|].
  apply (in_keyword_is_lowercase "IN [1]" {| type := ID; value := text "IN" |} " [1]").
  - reflexivity.
  - reflexivity.
Defined.

(** ** The parser sees the tokens only *)

Section Simulation.
Variables S1 S2 : Type.
Variable R : S1 -> S2 -> Prop.
Variable g1 : S1 -> result (option (LexToken * S1)).
Variable g2 : S2 -> result (option (LexToken * S2)).
Hypothesis agree : same_tokens R g1 g2.

Lemma act_same ss sy la s1 s2 :
  R s1 s2 ->
  same_turn R (Parser.act S1 ss sy la s1) (Parser.act S2 ss sy la s2).
Proof.
  intros H. unfold Parser.act, Parser.reduce.
  destruct ss as [|state ss]; [reflexivity|].
  destruct (Parser.action_of state _) as [[t|p|]|]; try reflexivity.
  - destruct la; cbn [same_turn]; auto.
  - destruct (nth_error Parser.productions p) as [pr|]; [|reflexivity].
    cbv zeta. destruct (_ <? _)%nat; [reflexivity|].
    destruct (Parser.callable pr _); [|reflexivity].
    destruct (skipn _ (state :: ss)) as [|below rest]; [reflexivity|].
    destruct (Parser.goto below); cbn [same_turn]; auto.
  - destruct sy as [|[? v] ?]; reflexivity.
Qed.

Lemma step_same ss sy la s1 s2 :
  R s1 s2 ->
  same_turn R (Parser.step S1 g1 ss sy la s1) (Parser.step S2 g2 ss sy la s2).
Proof.
  intros H. unfold Parser.step. destruct la as [la|]; [now apply act_same|].
  specialize (agree s1 s2 H).
  destruct (g1 s1) as [[[t1 s1']|]|e1], (g2 s2) as [[[t2 s2']|]|e2];
    try contradiction.
  - destruct agree as [<- H']. now apply act_same.
  - now apply act_same.
  - cbn. now f_equal.
Qed.

Lemma loop_same f1 :
  forall f2 ss sy la s1 s2 r1 r2,
    R s1 s2 ->
    Parser.loop S1 g1 f1 ss sy la s1 = Some r1 ->
    Parser.loop S2 g2 f2 ss sy la s2 = Some r2 ->
    r1 = r2.
Proof.
  induction f1 as [|f1 IH]; intros f2 ss sy la s1 s2 r1 r2 H L1 L2;
    [discriminate L1|].
  destruct f2 as [|f2]; [discriminate L2|].
  cbn [Parser.loop] in L1, L2.
  pose proof (step_same ss sy la s1 s2 H) as T.
  destruct (Parser.step S1 g1 ss sy la s1) as [ss1 sy1 la1 s1'|x1],
           (Parser.step S2 g2 ss sy la s2) as [ss2 sy2 la2 s2'|x2];
    cbn [same_turn] in T; try contradiction.
  - destruct T as (<- & <- & <- & H'). exact (IH _ _ _ _ _ _ _ _ H' L1 L2).
  - congruence.
Qed.
End Simulation.

Lemma reads_lexed (input : string) (toks : list LexToken) :
  reads Lexer.token input toks -> List.Forall lexed toks.
Proof.
  induction 1 as [|src tok src' toks E _ IH]; constructor; [|exact IH].
  now apply token_lexed in E.
Qed.

Lemma lexer_gives_the_list :
  same_tokens (reads Lexer.token) Lexer.token Parser.next_of_list.
Proof.
  intros s toks H. inversion H as [? E|? tok s' toks' E H']; subst;
    rewrite E; cbn; auto.
Qed.

Lemma parse_of_tokens (input : string) (toks : list LexToken) :
  reads Lexer.token input toks ->
  Parser.parse input = Parser.parse_tokens toks.
Proof.
  intros H.
  destruct (run_outcome string Lexer.token String.length (fun _ => True))
    with (src0 := input) as (r1 & E1 & _);
    [intros s tok s' _ E; apply token_lexed in E; tauto | exact Logic.I |].
  destruct (run_outcome (list LexToken) Parser.next_of_list (@List.length _)
              (List.Forall lexed)) with (src0 := toks) as (r2 & E2 & _).
  { intros s tok s' Hs E. destruct s as [|t s]; [discriminate E|].
    injection E as <- <-. inversion Hs; subst. simpl. auto. }
  { now apply reads_lexed in H. }
  unfold Parser.parse, Parser.parse_tokens. rewrite E1, E2. f_equal.
  exact (loop_same _ _ _ _ _ lexer_gives_the_list _ _ _ _ _ _ _ _ _ H E1 E2).
Qed.

(** The query built from an expression depends on its tokens only: the
    parser gives for the text what it gives for the list of the tokens
    the lexer reads in it.  Blanks between tokens change nothing. *)
Theorem parse_depends_on_tokens (input : string) (toks : list LexToken) :
  reads Lexer.token input toks ->
  Parser.parse input = Parser.parse_tokens toks.
Proof. exact (parse_of_tokens input toks). Qed.

Lemma parse_depends_on_tokens_witness :
  Parser.parse " a  ==1 "
  = Parser.parse_tokens (comparison_tokens "a" operator.eq (PyInt 1)).
Proof.
  apply parse_depends_on_tokens.
  repeat (eapply reads_token; [reflexivity|]).
  apply reads_end. reflexivity.
Defined.

(** ** Quoted strings *)

Lemma lazy_to_quote (rest : string) :
  forall body n,
    forall_chars (is_plain_char "'") body = true ->
    String.length (body ++ String "'" rest) <= n ->
    repeat_ (backtrack true Dot) false
      (fun s1 => backtrack true (Chr "'") s1 Some) n (body ++ String "'" rest)
    = Some rest.
Proof.
  induction body as [|c body IH]; intros n Hb Hn.
  - cbn [append]. destruct n; reflexivity.
  - cbn [forall_chars] in Hb. apply andb_true_iff in Hb as [Hc Hb].
    cbn [append String.length] in *. destruct n as [|n]; [lia|].
    cbn [repeat_ backtrack].
    assert (Q : chr_matches true "'" c = false).
    { destruct (chr_matches true "'" c) eqn:Q; [|reflexivity].
      apply chr_matches_exact in Q; [|reflexivity|reflexivity].
      subst c. discriminate Hc. }
    assert (L : Ascii.eqb c "010" = false).
    { destruct (Ascii.eqb c "010") eqn:L; [|reflexivity].
      apply Ascii.eqb_eq in L. subst c. discriminate Hc. }
    rewrite Q, L. cbn [or_else String.length].
    rewrite (proj2 (Nat.ltb_lt _ _) (Nat.lt_succ_diag_r _)).
    apply IH; [exact Hb | lia].
Qed.

Lemma not_dquote_matches (c : ascii) :
  set_matches true true [only dquote] c = negb (Ascii.eqb c dquote).
Proof. destruct c as [[] [] [] [] [] [] [] []]; reflexivity. Qed.

Lemma greedy_to_dquote (k : string -> option string) (rest : string) :
  forall body n x,
    forall_chars (is_plain_char dquote) body = true ->
    String.length (body ++ String dquote rest) <= n ->
    k (String dquote rest) = Some x ->
    repeat_ (backtrack true (In_ true [only dquote])) true k n
      (body ++ String dquote rest)
    = Some x.
Proof.
  remember (backtrack true (In_ true [only dquote])) as m eqn:Em.
  assert (Hm : forall x s k0,
             m (String x s) k0
             = if negb (Ascii.eqb x dquote) then k0 s else None).
  { intros x s k0. rewrite Em. cbn [backtrack].
    now rewrite not_dquote_matches. }
  clear Em.
  induction body as [|c body IH]; intros n x Hb Hn Hk.
  - cbn [append]. destruct n as [|n]; cbn [repeat_ or_else]; [exact Hk|].
    rewrite Hm. exact Hk.
  - cbn [forall_chars] in Hb. apply andb_true_iff in Hb as [Hc Hb].
    assert (Q : negb (Ascii.eqb c dquote) = true).
    { unfold is_plain_char in Hc. destruct (Ascii.eqb c dquote);
        [discriminate Hc | reflexivity]. }
    cbn [append String.length] in *. destruct n as [|n]; [lia|].
    cbn [repeat_]. rewrite Hm, Q.
    cbn [String.length].
    rewrite (proj2 (Nat.ltb_lt _ _) (Nat.lt_succ_diag_r _)).
    now rewrite (IH n x Hb); [|lia|].
Qed.

Lemma plain_string_body_app (q : ascii) (body : string) :
  forall_chars (is_plain_char q) body = true ->
  plain_string_body q (body ++ String q "") = Some body.
Proof.
  induction body as [|c body IH]; intros H.
  - cbn. now rewrite Ascii.eqb_refl.
  - cbn [forall_chars] in H. apply andb_true_iff in H as [Hc Hb].
    cbn [append plain_string_body]. rewrite Hc, (IH Hb).
    destruct (body ++ String q "")%string eqn:E;
      [destruct body; discriminate E | reflexivity].
Qed.

Lemma rstrip_nonblank (c : ascii) (s : string) :
  is_space c = false -> rstrip (s ++ String c "") = (s ++ String c "")%string.
Proof.
  intros H. induction s as [|x s IH]; cbn [append rstrip].
  - now rewrite H.
  - rewrite IH. destruct (s ++ String c "")%string eqn:E;
      [destruct s; discriminate E | reflexivity].
Qed.

Lemma literal_eval_quoted (q : ascii) (body : string) :
  q = "'"%char \/ q = dquote ->
  forall_chars (is_plain_char q) body = true ->
  literal_eval (String q (body ++ String q "")) = Ok (Const (PyStr body)).
Proof.
  intros Hq Hb. rewrite literal_eval_head.
  assert (S : strip (String q (body ++ String q "")) = String q (body ++ String q "")).
  { assert (B : is_space q = false) by (destruct Hq as [-> | ->]; reflexivity).
    unfold strip. cbn [lstrip]. rewrite B.
    exact (rstrip_nonblank q (String q body) B). }
  rewrite S. destruct Hq as [-> | ->]; cbn;
    now rewrite (plain_string_body_app _ _ Hb).
Qed.

Lemma string_rule_matches (body rest : string) :
  forall_chars (is_plain_char "'") body = true ->
  re_match true Lexer.t_STRING_doc (String "'" (body ++ String "'" rest))
  = Some rest.
Proof.
  intros Hb. unfold re_match, Lexer.t_STRING_doc. cbn [backtrack].
  change (chr_matches true "'" "'") with true. cbv iota.
  exact (lazy_to_quote rest body _ Hb (le_n _)).
Qed.

Lemma scalar_rule_matches (body rest : string) :
  forall_chars (is_plain_char dquote) body = true ->
  re_match true Lexer.t_SCALAR_doc (String dquote (body ++ String dquote rest))
  = Some rest.
Proof.
  intros Hb.
  unfold re_match, Lexer.t_SCALAR_doc, Lexer.quoted, Plus, Opt, Lexer.digit.
  cbn [backtrack].
  change (set_matches true false [range "0" "9"] dquote) with false.
  change (chr_matches true "'" dquote) with false.
  change (chr_matches true dquote dquote) with true.
  cbv iota. cbn [or_else].
  exact (greedy_to_dquote _ rest body _ rest Hb (le_n _) eq_refl).
Qed.

Lemma first_match_quoted (q : ascii) (body rest : string) :
  q = "'"%char \/ q = dquote ->
  forall_chars (is_plain_char q) body = true ->
  exists r,
    Lexer.first_match Lexer.rules (String q (body ++ String q rest)) = Some (r, rest)
    /\ Lexer.produce r
       = fun t_value =>
           v <- literal_eval t_value ;; Ok {| type := SCALAR; value := v |}.
Proof.
  intros [-> | ->] Hb.
  - exists {| Lexer.pattern := Lexer.t_STRING_doc; Lexer.produce := Lexer.t_STRING |}.
    split; [|reflexivity].
    unfold Lexer.rules. cbn [Lexer.first_match Lexer.pattern].
    change (re_match Lexer.ignorecase Lexer.t_LIST_doc
              (String "'" (body ++ String "'" rest))) with (@None string).
    change (re_match Lexer.ignorecase Lexer.t_BOOL_doc
              (String "'" (body ++ String "'" rest))) with (@None string).
    cbv iota. unfold Lexer.ignorecase.
    now rewrite (string_rule_matches body rest Hb).
  - exists {| Lexer.pattern := Lexer.t_SCALAR_doc; Lexer.produce := Lexer.t_SCALAR |}.
    split; [|reflexivity].
    unfold Lexer.rules. cbn [Lexer.first_match Lexer.pattern].
    change (re_match Lexer.ignorecase Lexer.t_LIST_doc
              (String dquote (body ++ String dquote rest))) with (@None string).
    change (re_match Lexer.ignorecase Lexer.t_BOOL_doc
              (String dquote (body ++ String dquote rest))) with (@None string).
    change (re_match Lexer.ignorecase Lexer.t_STRING_doc
              (String dquote (body ++ String dquote rest))) with (@None string).
    cbv iota. unfold Lexer.ignorecase.
    now rewrite (scalar_rule_matches body rest Hb).
Qed.

Lemma token_of_quoted (q : ascii) (body rest : string) :
  q = "'"%char \/ q = dquote ->
  forall_chars (is_plain_char q) body = true ->
  Lexer.token (String q (body ++ String q rest))
  = Ok (Some ({| type := SCALAR; value := text body |}, rest)).
Proof.
  intros Hq Hb.
  destruct (first_match_quoted q body rest Hq Hb) as (r & M & P).
  assert (E : String q (body ++ String q rest)
              = (String q (body ++ String q "") ++ rest)%string).
  { cbn [append]. now rewrite app_assoc_s. }
  rewrite E in M |- *.
  rewrite (token_of_match _ _ _ r); [| destruct Hq as [-> | ->]; reflexivity | exact M].
  rewrite P, (literal_eval_quoted q body Hq Hb). reflexivity.
Qed.

(** A text between two single or two double quotes, without the quote,
    a backslash, a line break or a NUL inside, is read as one Scalar
    token that carries exactly the text between the quotes. *)
Theorem quoted_text_is_read_back (q : ascii) (body rest : string) :
  q = "'"%char \/ q = dquote ->
  forall_chars (is_plain_char q) body = true ->
  Lexer.token (String q (body ++ String q rest))
  = Ok (Some ({| type := SCALAR; value := text body |}, rest)).
Proof. exact (token_of_quoted q body rest). Qed.

Lemma quoted_text_is_read_back_witness :
  Lexer.token "'a b' & x"
  = Ok (Some ({| type := SCALAR; value := text "a b" |}, " & x")).
Proof.
  apply (quoted_text_is_read_back "'" "a b" " & x"); [now left | reflexivity].
Defined.

Lemma lazy_without_quote (body : string) :
  forall n,
    forall_chars (fun c => negb (Ascii.eqb c "'")) body = true ->
    repeat_ (backtrack true Dot) false
      (fun s1 => backtrack true (Chr "'") s1 Some) n body
    = None.
Proof.
  induction body as [|c body IH]; intros n Hb.
  - destruct n; reflexivity.
  - cbn [forall_chars] in Hb. apply andb_true_iff in Hb as [Hc Hb].
    assert (Q : chr_matches true "'" c = false).
    { destruct (chr_matches true "'" c) eqn:Q; [|reflexivity].
      apply chr_matches_exact in Q; [|reflexivity|reflexivity].
      subst c. discriminate Hc. }
    destruct n as [|n]; cbn [repeat_ backtrack]; rewrite Q; [reflexivity|].
    cbn [or_else]. destruct (Ascii.eqb c "010"); [reflexivity|].
    destruct (_ <? _)%nat; [apply IH, Hb | reflexivity].
Qed.

Lemma greedy_without_quote (q : ascii) (body : string) :
  q = "'"%char \/ q = dquote ->
  forall n,
    forall_chars (fun c => negb (Ascii.eqb c q)) body = true ->
    repeat_ (backtrack true (In_ true [only q])) true
      (fun s1 => backtrack true (Chr q) s1 Some) n body
    = None.
Proof.
  intros Hq.
  assert (Hk : forall c s, negb (Ascii.eqb c q) = true ->
                           backtrack true (Chr q) (String c s) Some = None).
  { intros c s Hc. cbn [backtrack].
    destruct (chr_matches true q c) eqn:Q; [|reflexivity].
    apply chr_matches_exact in Q;
      [|destruct Hq as [-> | ->]; reflexivity ..].
    subst c. now rewrite Ascii.eqb_refl in Hc. }
  remember (backtrack true (In_ true [only q])) as m eqn:Em.
  assert (Hm : forall c s k0, m (String c s) k0 = None \/ m (String c s) k0 = k0 s).
  { intros c s k0. rewrite Em. cbn [backtrack].
    destruct (set_matches true true [only q] c); auto. }
  assert (Hnil : forall k0, m "" k0 = None) by (intros; now rewrite Em).
  clear Em.
  induction body as [|c body IH]; intros n Hb.
  - destruct n; cbn [repeat_]; [reflexivity|]. now rewrite Hnil.
  - cbn [forall_chars] in Hb. apply andb_true_iff in Hb as [Hc Hb].
    destruct n as [|n]; cbn [repeat_]; [exact (Hk c body Hc)|].
    destruct (Hm c body
                (fun s' => if (String.length s' <? String.length (String c body))%nat
                           then repeat_ m true
                                  (fun s1 => backtrack true (Chr q) s1 Some) n s'
                           else None)) as [-> | ->];
      cbn [or_else]; [exact (Hk c body Hc)|].
    destruct (_ <? _)%nat; [rewrite (IH n Hb)|]; exact (Hk c body Hc).
Qed.

Lemma or_else_none (a b : option string) :
  a = None -> b = None -> or_else a b = None.
Proof. now intros -> ->. Qed.

(** An opening quote that is not closed is an illegal character: the
    lexer raises the [SyntaxError] that names the quote. *)
Theorem open_quote_raises (q : ascii) (body : string) :
  q = "'"%char \/ q = dquote ->
  forall_chars (fun c => negb (Ascii.eqb c q)) body = true ->
  Lexer.token (String q body)
  = Raise (SyntaxError
             ("Illegal character " ++ String dquote (String q (String dquote "")))).
Proof.
  intros Hq Hb. rewrite <- (t_error_names q body).
  assert (M : Lexer.first_match Lexer.rules (String q body) = None).
  { unfold Lexer.rules. cbn [Lexer.first_match Lexer.pattern].
    unfold Lexer.ignorecase.
    assert (S : re_match true Lexer.t_STRING_doc (String q body) = None).
    { unfold re_match, Lexer.t_STRING_doc. cbn [backtrack].
      destruct Hq as [-> | ->]; [|reflexivity].
      change (chr_matches true "'" "'") with true. cbv iota.
      exact (lazy_without_quote body _ Hb). }
    assert (C : re_match true Lexer.t_SCALAR_doc (String q body) = None).
    { unfold re_match, Lexer.t_SCALAR_doc, Lexer.quoted, Plus, Opt, Lexer.digit.
      cbn [backtrack].
      pose proof (greedy_without_quote q body Hq (String.length body) Hb) as G.
      destruct Hq as [-> | ->].
      - change (set_matches true false [range "0" "9"] "'") with false.
        change (chr_matches true "'" "'") with true.
        change (chr_matches true dquote "'") with false.
        cbv iota. cbn [or_else].
        apply or_else_none; [exact G | reflexivity].
      - change (set_matches true false [range "0" "9"] dquote) with false.
        change (chr_matches true "'" dquote) with false.
        change (chr_matches true dquote dquote) with true.
        cbv iota. cbn [or_else]. exact G. }
    rewrite S, C. destruct Hq as [-> | ->]; reflexivity. }
  destruct Hq as [-> | ->]; cbn [Lexer.token];
    [change (Lexer.t_ignore "'") with false
    |change (Lexer.t_ignore dquote) with false];
    cbv iota; unfold Lexer.scan; now rewrite M.
Qed.

Lemma open_quote_raises_witness :
  Lexer.token "'adam"
  = Raise (SyntaxError
             ("Illegal character " ++ String dquote (String "'" (String dquote "")))).
Proof. apply (open_quote_raises "'" "adam"); [now left | reflexivity]. Defined.

(** ** Integers *)

Lemma digit_matches (c : ascii) :
  set_matches true false [range "0" "9"] c = is_digit c.
Proof. destruct c as [[] [] [] [] [] [] [] []]; reflexivity. Qed.

Lemma point_matches (c : ascii) :
  c <> "."%char -> chr_matches true "." c = false.
Proof.
  intros H. destruct (chr_matches true "." c) eqn:Q; [|reflexivity].
  apply chr_matches_exact in Q; [contradiction | reflexivity | reflexivity].
Qed.

Lemma greedy_digits (k : string -> option string) (rest : string) (x : string) :
  number_ends rest ->
  k rest = Some x ->
  forall ds n,
    forall_chars is_digit ds = true ->
    String.length (ds ++ rest) <= n ->
    repeat_ (backtrack true Lexer.digit) true k n (ds ++ rest) = Some x.
Proof.
  intros Hrest Hk.
  remember (backtrack true Lexer.digit) as m eqn:Em.
  assert (Hm : forall c s k0,
             m (String c s) k0 = if is_digit c then k0 s else None).
  { intros c s k0. rewrite Em. unfold Lexer.digit. cbn [backtrack].
    now rewrite digit_matches. }
  assert (Hnil : forall k0, m "" k0 = None).
  { intros k0. rewrite Em. reflexivity. }
  clear Em.
  induction ds as [|c ds IH]; intros n Hd Hn.
  - cbn [append]. destruct n as [|n]; cbn [repeat_ or_else]; [exact Hk|].
    destruct rest as [|c rest]; [now rewrite Hnil|].
    destruct Hrest as [D _]. now rewrite Hm, D.
  - cbn [forall_chars] in Hd. apply andb_true_iff in Hd as [Hc Hd].
    cbn [append String.length] in *. destruct n as [|n]; [lia|].
    cbn [repeat_]. rewrite Hm, Hc.
    cbn [String.length].
    rewrite (proj2 (Nat.ltb_lt _ _) (Nat.lt_succ_diag_r _)).
    now rewrite (IH n Hd); [|lia].
Qed.

Lemma or_else_some (a b : option string) (x : string) :
  a = Some x -> or_else a b = Some x.
Proof. now intros ->. Qed.

Lemma number_rule_matches (d : ascii) (ds rest : string) :
  forall_chars is_digit (String d ds) = true ->
  number_ends rest ->
  re_match true Lexer.t_SCALAR_doc (String d (ds ++ rest)) = Some rest.
Proof.
  intros Hd Hrest. cbn [forall_chars] in Hd.
  apply andb_true_iff in Hd as [Hc Hd].
  unfold re_match, Lexer.t_SCALAR_doc, Plus, Opt, Lexer.digit.
  cbn [backtrack]. rewrite digit_matches, Hc.
  apply or_else_some.
  refine (greedy_digits
            (fun s1 => backtrack true (Opt (Cat (Chr ".") (Plus Lexer.digit))) s1 Some)
            rest rest Hrest _ ds _ Hd (le_n _)).
  unfold Opt. cbn [backtrack]. destruct rest as [|c rest]; [reflexivity|].
  destruct Hrest as [_ P]. now rewrite (point_matches c P).
Qed.

Lemma digit_begins_number (d : ascii) (s : string) :
  is_digit d = true ->
  re_match true Lexer.t_LIST_doc (String d s) = None
  /\ re_match true Lexer.t_BOOL_doc (String d s) = None
  /\ re_match true Lexer.t_STRING_doc (String d s) = None
  /\ Lexer.t_ignore d = false
  /\ is_space d = false
  /\ Ascii.eqb d "[" = false.
Proof.
  intros H. destruct d as [[] [] [] [] [] [] [] []];
    first [discriminate H | repeat split; reflexivity].
Qed.

Lemma span_all_digits (ds : string) :
  forall_chars is_digit ds = true -> span_digits ds = (ds, "").
Proof.
  induction ds as [|c ds IH]; [reflexivity|].
  cbn [forall_chars span_digits]. intros H.
  apply andb_true_iff in H as [Hc Hd]. now rewrite Hc, (IH Hd).
Qed.

Lemma rstrip_digits (ds : string) :
  forall_chars is_digit ds = true -> rstrip ds = ds.
Proof.
  induction ds as [|c ds IH]; [reflexivity|].
  cbn [forall_chars rstrip]. intros H.
  apply andb_true_iff in H as [Hc Hd]. rewrite (IH Hd).
  destruct ds; [|reflexivity].
  now destruct (digit_begins_number c "" Hc) as (_ & _ & _ & _ & -> & _).
Qed.

(** The lexer on a run of digits: what [ast.literal_eval] makes of it. *)
Lemma token_of_digits (d : ascii) (ds rest : string) :
  forall_chars is_digit (String d ds) = true ->
  number_ends rest ->
  Lexer.token (String d ds ++ rest)
  = (l <- eval_number (String d ds) ;;
     Ok (Some ({| type := SCALAR; value := Const l |}, rest))).
Proof.
  intros Hd Hrest.
  assert (Hc : is_digit d = true).
  { cbn [forall_chars] in Hd. now apply andb_true_iff in Hd as [Hc _]. }
  destruct (digit_begins_number d (ds ++ rest) Hc) as (L & B & S & I & Sp & Br).
  rewrite (token_of_match d ds rest scalar_rule I).
  - cbn [scalar_rule Lexer.produce]. unfold Lexer.t_SCALAR.
    rewrite literal_eval_head, Br. unfold strip. cbn [lstrip]. rewrite Sp.
    rewrite (rstrip_digits _ Hd). cbn [eval_atom]. rewrite Hc.
    destruct (eval_number (String d ds)); reflexivity.
  - unfold Lexer.rules. cbn [Lexer.first_match Lexer.pattern append].
    unfold Lexer.ignorecase. rewrite L, B, S.
    now rewrite (number_rule_matches d ds rest Hd Hrest).
Qed.

Lemma decimal_digits (u : Decimal.uint) :
  forall_chars is_digit (DecimalString.NilEmpty.string_of_uint u) = true.
Proof. induction u; cbn [DecimalString.NilEmpty.string_of_uint forall_chars]; auto. Qed.

Lemma decimal_value (u : Decimal.uint) :
  forall a, digits_value (Z.of_nat a) (DecimalString.NilEmpty.string_of_uint u)
            = Z.of_nat (Nat.of_uint_acc u a).
Proof.
  induction u; intros a;
    cbn [DecimalString.NilEmpty.string_of_uint digits_value Nat.of_uint_acc];
    [reflexivity| ..];
    rewrite <- IHu; f_equal; rewrite Nat.tail_mul_spec;
    match goal with
    | |- context [(Z.of_N (code ?c) - 48)%Z] =>
        let v := eval vm_compute in (Z.of_N (code c) - 48)%Z in
        change (Z.of_N (code c) - 48)%Z with v
    end;
    lia.
Qed.

Lemma decimal_canonical (n : nat) :
  exists d ds,
    decimal n = String d ds
    /\ forall_chars is_digit (String d ds) = true
    /\ digits_value 0 (String d ds) = Z.of_nat n
    /\ (n = 0 /\ String d ds = "0" \/ Ascii.eqb "0" d = false).
Proof.
  unfold decimal.
  pose proof (DecimalNat.Unsigned.of_to n) as V.
  pose proof (DecimalNat.Unsigned.to_of (Nat.to_uint n)) as U.
  rewrite V in U.
  pose proof (decimal_digits (Nat.to_uint n)) as D.
  pose proof (decimal_value (Nat.to_uint n) 0) as E.
  fold (Nat.of_uint (Nat.to_uint n)) in E. rewrite V in E.
  destruct (Nat.to_uint n) as [|u|u|u|u|u|u|u|u|u|u] eqn:T;
    [discriminate U| ..];
    cbn [DecimalString.NilZero.string_of_uint
           DecimalString.NilEmpty.string_of_uint] in *;
    eexists; eexists; (split; [reflexivity|]);
    (split; [exact D|]); (split; [exact E|]);
    try (right; reflexivity).
  left. unfold Decimal.unorm in U. rewrite DecimalFacts.nzhead_D0 in U.
  destruct (Decimal.nzhead u) eqn:Z;
    try discriminate U;
    try (now apply DecimalFacts.nzhead_nonzero in Z).
  injection U as ->. split; [|reflexivity]. now rewrite <- V.
Qed.

Lemma eval_number_digits (ds : string) :
  forall_chars is_digit ds = true ->
  String.length ds <= 4300 ->
  eval_number ds
  = if forall_chars (Ascii.eqb "0") ds then Ok (PyInt 0)
    else if String.prefix "0" ds then Raise invalid_syntax
         else Ok (PyInt (digits_value 0 ds)).
Proof.
  intros Hd Hl. unfold eval_number. rewrite (span_all_digits ds Hd).
  now rewrite (proj2 (Nat.ltb_ge _ _) Hl).
Qed.

Lemma token_of_natural (n : nat) (rest : string) :
  String.length (decimal n) <= 4300 ->
  number_ends rest ->
  Lexer.token (decimal n ++ rest)
  = Ok (Some ({| type := SCALAR; value := Const (PyInt (Z.of_nat n)) |}, rest)).
Proof.
  intros Hl Hrest.
  destruct (decimal_canonical n) as (d & ds & E & Hd & V & C).
  rewrite E in *. rewrite (token_of_digits d ds rest Hd Hrest).
  rewrite (eval_number_digits _ Hd Hl).
  destruct C as [[-> C]|C].
  - rewrite C. reflexivity.
  - cbn [forall_chars String.prefix]. rewrite C. cbn [andb].
    assert (P : (if ascii_dec "0" d then String.prefix "" ds else false) = false).
    { destruct (ascii_dec "0" d) as [<-|]; [discriminate C | reflexivity]. }
    cbn [String.prefix] in P |- *. rewrite P, V. reflexivity.
Qed.

(** A natural number written in decimal is read as one Scalar token that
    carries that number, when no digit or point follows it. *)
Theorem natural_number_is_read_back (n : nat) (rest : string) :
  String.length (decimal n) <= 4300 ->
  number_ends rest ->
  Lexer.token (decimal n ++ rest)
  = Ok (Some ({| type := SCALAR; value := Const (PyInt (Z.of_nat n)) |}, rest)).
Proof. exact (token_of_natural n rest). Qed.

Lemma natural_number_is_read_back_witness :
  Lexer.token "2024)"
  = Ok (Some ({| type := SCALAR; value := Const (PyInt 2024) |}, ")")).
Proof.
  apply (natural_number_is_read_back 2024 ")").
  - vm_compute. lia.
  - split; [reflexivity | discriminate].
Defined.

(** An integer written with a zero in front and some other digit after
    it is no token: the lexer raises the [SyntaxError] of
    [ast.literal_eval]. *)
Theorem leading_zero_raises (ds rest : string) :
  forall_chars is_digit ds = true ->
  forall_chars (Ascii.eqb "0") ds = false ->
  String.length ds < 4300 ->
  number_ends rest ->
  Lexer.token (String "0" ds ++ rest) = Raise invalid_syntax.
Proof.
  intros Hd Hz Hl Hrest.
  rewrite (token_of_digits "0" ds rest); [|exact Hd|exact Hrest].
  rewrite eval_number_digits; [|exact Hd|cbn [String.length]; lia].
  cbn [forall_chars]. rewrite Ascii.eqb_refl. cbn [andb]. rewrite Hz.
  cbn [String.prefix].
  destruct (ascii_dec "0" "0") as [_|N]; [destruct ds; reflexivity | now destruct N].
Qed.

Lemma leading_zero_raises_witness :
  Lexer.token "007 " = Raise invalid_syntax.
Proof.
  apply (leading_zero_raises "07" " ").
  - reflexivity.
  - reflexivity.
  - cbn. lia.
  - split; [reflexivity | discriminate].
Defined.

(** ** Flattening a nested mapping *)

Lemma pyval_tree_ind (P : pyval -> Prop) :
  (forall l, P (Scalar l)) ->
  (forall xs, P (PyList xs)) ->
  (forall d, Forall (fun item => P (snd item)) d -> P (PyDict d)) ->
  forall v, P v.
Proof.
  intros HS HL HD.
  fix IH 1. intros [l|xs|d]; [apply HS | apply HL | apply HD].
  induction d as [|[k v] d IHd]; constructor; [apply IH | exact IHd].
Qed.

Lemma _flatten_dict_eq (d : list (string * pyval)) (parent_key sep : string) :
  _flatten_dict d parent_key sep
  = dict_ (_flatten_dict_gen
             (fun v new_key =>
                match v with
                | PyDict d' => _flatten_dict d' new_key sep
                | _ => []
                end) sep d parent_key).
Proof.
  unfold _flatten_dict. cbn [flatten_mapping]. f_equal.
  induction d as [|[k v] d IH]; [reflexivity|].
  cbn [_flatten_dict_gen]. rewrite IH. now destruct v.
Qed.

(** *** Dicts *)

Lemma dict_get_set kv k v key :
  dict_get (dict_set kv k v) key
  = if String.eqb k key then Some v else dict_get kv key.
Proof.
  induction kv as [|[k0 x] kv IH]; cbn [dict_set dict_get]; [reflexivity|].
  destruct (String.eqb k0 k) eqn:E; cbn [dict_get].
  - apply String.eqb_eq in E. subst k0. now destruct (String.eqb k key).
  - rewrite IH. destruct (String.eqb k0 key) eqn:E0; [|reflexivity].
    apply String.eqb_eq in E0. subst k0.
    rewrite String.eqb_sym in E. now rewrite E.
Qed.

Lemma dict_set_in kv k v x :
  In x (map fst (dict_set kv k v)) <-> In x (map fst kv) \/ x = k.
Proof.
  induction kv as [|[k0 y] kv IH]; cbn [dict_set map fst In].
  - intuition.
  - destruct (String.eqb k0 k) eqn:E; cbn [map fst In].
    + apply String.eqb_eq in E. subst k0. intuition.
    + rewrite IH. intuition.
Qed.

Lemma dict_set_member kv k v item :
  In item (dict_set kv k v) -> In item kv \/ item = (k, v).
Proof.
  induction kv as [|[k0 y] kv IH]; cbn [dict_set In].
  - intuition.
  - destruct (String.eqb k0 k) eqn:E; cbn [In].
    + apply String.eqb_eq in E. subst k0. intuition.
    + intuition.
Qed.

Lemma dict_set_nodup kv k v :
  NoDup (map fst kv) -> NoDup (map fst (dict_set kv k v)).
Proof.
  induction kv as [|[k0 y] kv IH]; cbn [dict_set map fst]; intros H.
  - repeat constructor. intros [].
  - inversion H as [|? ? N H']; subst.
    destruct (String.eqb k0 k) eqn:E; cbn [map fst].
    + now constructor.
    + constructor; [|now apply IH].
      rewrite dict_set_in. intros [I| ->]; [contradiction|].
      now rewrite String.eqb_refl in E.
Qed.

Lemma dict_set_fresh kv k v :
  ~ In k (map fst kv) -> dict_set kv k v = kv ++ [(k, v)].
Proof.
  induction kv as [|[k0 y] kv IH]; cbn [dict_set map fst In app]; intros H;
    [reflexivity|].
  destruct (String.eqb k0 k) eqn:E.
  - apply String.eqb_eq in E. tauto.
  - rewrite IH; tauto.
Qed.

Lemma dict_update_nodup items :
  forall d, NoDup (map fst d) -> NoDup (map fst (dict_update d items)).
Proof.
  unfold dict_update.
  induction items as [|[k v] items IH]; intros d H; cbn [fold_left fst snd];
    [exact H|].
  now apply IH, dict_set_nodup.
Qed.

Lemma dict_update_member items :
  forall d item, In item (dict_update d items) -> In item d \/ In item items.
Proof.
  unfold dict_update.
  induction items as [|[k v] items IH]; intros d item H;
    cbn [fold_left fst snd] in H; [now left|].
  apply IH in H as [H|H]; [|right; now right].
  apply dict_set_member in H as [H| ->]; [now left | right; now left].
Qed.

Lemma dict_get_update items :
  forall d key,
    dict_get (dict_update d items) key
    = match last_of items key with
      | Some v => Some v
      | None => dict_get d key
      end.
Proof.
  unfold dict_update.
  induction items as [|[k v] items IH]; intros d key;
    cbn [fold_left fst snd last_of]; [reflexivity|].
  rewrite IH, dict_get_set.
  destruct (last_of items key); [reflexivity|].
  now destruct (String.eqb k key).
Qed.

Lemma dict_update_fresh items :
  forall d, NoDup (map fst (d ++ items)) -> dict_update d items = d ++ items.
Proof.
  unfold dict_update.
  induction items as [|[k v] items IH]; intros d H; cbn [fold_left fst snd].
  - now rewrite app_nil_r.
  - assert (E : d ++ (k, v) :: items = (d ++ [(k, v)]) ++ items)
      by now rewrite <- app_assoc.
    rewrite E in H |- *.
    rewrite dict_set_fresh; [now apply IH|].
    rewrite !map_app in H. apply NoDup_app_remove_r in H.
    cbn [map fst] in H. apply NoDup_remove_2 in H.
    now rewrite app_nil_r in H.
Qed.

Lemma dict_get_none kv key :
  ~ In key (map fst kv) -> dict_get kv key = None.
Proof.
  induction kv as [|[k v] kv IH]; cbn [dict_get map fst In]; intros H;
    [reflexivity|].
  destruct (String.eqb k key) eqn:E; [|apply IH; tauto].
  apply String.eqb_eq in E. tauto.
Qed.

Lemma dict_get_member kv key v :
  NoDup (map fst kv) -> In (key, v) kv -> dict_get kv key = Some v.
Proof.
  induction kv as [|[k x] kv IH]; cbn [dict_get map fst In]; intros N H;
    [contradiction|].
  inversion N as [|? ? N1 N2]; subst.
  destruct H as [[= -> ->]|H]; [now rewrite String.eqb_refl|].
  destruct (String.eqb k key) eqn:E; [|now apply IH].
  apply String.eqb_eq in E. subst k. destruct N1.
  now apply (in_map fst) in H.
Qed.

Lemma last_of_none items key :
  ~ In key (map fst items) -> last_of items key = None.
Proof.
  induction items as [|[k v] items IH]; cbn [last_of map fst In]; intros H;
    [reflexivity|].
  rewrite IH by tauto.
  destruct (String.eqb k key) eqn:E; [|reflexivity].
  apply String.eqb_eq in E. tauto.
Qed.

Lemma last_of_member items key v :
  last_of items key = Some v -> In (key, v) items.
Proof.
  induction items as [|[k x] items IH]; cbn [last_of In]; [discriminate|].
  destruct (last_of items key) as [y|].
  - intros [= ->]. right. now apply IH.
  - destruct (String.eqb k key) eqn:E; [|discriminate].
    apply String.eqb_eq in E. intros [= ->]. left. now subst.
Qed.

Lemma last_of_app a b key :
  last_of (a ++ b) key
  = match last_of b key with
    | Some x => Some x
    | None => last_of a key
    end.
Proof.
  induction a as [|[k v] a IH]; cbn [app last_of].
  - now destruct (last_of b key).
  - rewrite IH. now destruct (last_of b key).
Qed.

Lemma last_of_dict items key :
  NoDup (map fst items) -> last_of items key = dict_get items key.
Proof.
  induction items as [|[k v] items IH]; cbn [last_of dict_get map fst];
    intros N; [reflexivity|].
  inversion N as [|? ? N1 N2]; subst.
  destruct (String.eqb k key) eqn:E.
  - apply String.eqb_eq in E. subst k. now rewrite last_of_none.
  - rewrite (IH N2). now destruct (dict_get items key).
Qed.

Lemma dict_get_dict items key :
  dict_get (dict_ items) key = last_of items key.
Proof.
  unfold dict_. rewrite dict_get_update. now destruct (last_of items key).
Qed.

(** *** The result is a flat dict *)

Lemma flatten_keys_distinct sep v parent_key :
  NoDup (map fst (flatten_mapping sep v parent_key)).
Proof.
  destruct v; cbn [flatten_mapping map]; try constructor.
  apply dict_update_nodup. constructor.
Qed.

Lemma gen_member on_mapping sep d parent_key item :
  In item (_flatten_dict_gen on_mapping sep d parent_key) ->
  exists k v,
    In (k, v) d
    /\ let new_key := if negb (String.eqb parent_key "")
                      then ((parent_key ++ sep) ++ k)%string else k in
       if is_mapping v then In item (on_mapping v new_key)
       else item = (new_key, v).
Proof.
  induction d as [|[k v] d IH]; cbn [_flatten_dict_gen In]; [contradiction|].
  intros H. apply in_app_or in H as [H|H].
  - exists k, v. split; [now left|]. cbv zeta.
    destruct (is_mapping v); [exact H|].
    destruct H as [H|[]]. now symmetry.
  - apply IH in H as (k' & v' & I & H). exists k', v'. split; [now right | exact H].
Qed.

Lemma flatten_member sep d parent_key item :
  In item (flatten_mapping sep (PyDict d) parent_key) ->
  exists k v,
    In (k, v) d
    /\ let new_key := if negb (String.eqb parent_key "")
                      then ((parent_key ++ sep) ++ k)%string else k in
       if is_mapping v then In item (flatten_mapping sep v new_key)
       else item = (new_key, v).
Proof.
  cbn [flatten_mapping]. unfold dict_. intros H.
  apply dict_update_member in H as [[]|H]. now apply gen_member in H.
Qed.

Lemma flatten_values_flat sep v :
  forall parent_key item,
    In item (flatten_mapping sep v parent_key) -> is_mapping (snd item) = false.
Proof.
  induction v as [l|xs|d IH] using pyval_tree_ind; intros parent_key item H;
    try contradiction.
  apply flatten_member in H as (k & v & I & H). cbv zeta in H.
  destruct (is_mapping v) eqn:M.
  - rewrite Forall_forall in IH. exact (IH (k, v) I _ _ H).
  - now subst item.
Qed.

Lemma gen_of_flat on_mapping sep d :
  (forall item, In item d -> is_mapping (snd item) = false) ->
  _flatten_dict_gen on_mapping sep d "" = d.
Proof.
  induction d as [|[k v] d IH]; intros H; cbn [_flatten_dict_gen];
    [reflexivity|].
  pose proof (H (k, v) (or_introl eq_refl)) as M. cbn [snd] in M.
  rewrite M, IH; [reflexivity|].
  intros item I. apply H. now right.
Qed.

(** The result of [_flatten_dict] is flat: its keys are distinct and none
    of its values is a mapping; flattening it again, from an empty
    parent key, changes nothing. *)
Theorem flatten_dict_is_flat (d : list (string * pyval)) (parent_key sep sep' : string) :
  let flat := _flatten_dict d parent_key sep in
  NoDup (map fst flat)
  /\ (forall k v, In (k, v) flat -> is_mapping v = false)
  /\ _flatten_dict flat "" sep' = flat.
Proof.
  cbv zeta. unfold _flatten_dict at 1 2 4 5.
  pose proof (flatten_keys_distinct sep (PyDict d) parent_key) as N.
  pose proof (flatten_values_flat sep (PyDict d) parent_key) as F.
  set (flat := flatten_mapping sep (PyDict d) parent_key) in *.
  split; [exact N|]. split; [intros k v I; exact (F _ I)|].
  unfold _flatten_dict. cbn [flatten_mapping].
  rewrite gen_of_flat by exact F.
  unfold dict_. now apply dict_update_fresh.
Qed.

Lemma flatten_dict_is_flat_witness :
  is_mapping (Scalar (PyInt 1)) = false.
Proof.
  apply (proj1 (proj2 (flatten_dict_is_flat
                         [ ("a", PyDict [ ("b", Scalar (PyInt 1)) ]) ]
                         "" "." ".")) "a.b" (Scalar (PyInt 1))).
  left. reflexivity.
Defined.

(** *** The leaves keep their place *)

Lemma app_inv_head_s (p x y : string) : (p ++ x = p ++ y)%string -> x = y.
Proof. induction p as [|c p IH]; cbn [append]; [auto|]. intros [= H]. auto. Qed.

Lemma app_nonempty (a b : string) : a <> "" -> (a ++ b)%string <> "".
Proof. destruct a; [congruence | discriminate]. Qed.

Lemma eqb_empty (a : string) : a <> "" -> String.eqb a "" = false.
Proof. intros H. now apply String.eqb_neq. Qed.

Lemma under_inj (parent_key x y : string) :
  under parent_key x = under parent_key y -> x = y.
Proof.
  unfold under. destruct (negb _); [|auto]. apply app_inv_head_s.
Qed.

Lemma under_nonempty (parent_key k : string) :
  k <> "" -> under parent_key k <> "".
Proof.
  intros H. unfold under. destruct (negb _); [|exact H].
  destruct parent_key; cbn; discriminate.
Qed.

Lemma under_under (parent_key k y : string) :
  k <> "" ->
  under (under parent_key k) y = under parent_key (k ++ "." ++ y).
Proof.
  intros H. unfold under at 1.
  rewrite (eqb_empty _ (under_nonempty parent_key k H)). cbn [negb].
  unfold under. destruct (negb _); now rewrite !app_assoc_s.
Qed.

Lemma key_ok_spec (k : string) :
  key_ok k = true ->
  k <> "" /\ forall_chars (fun c => negb (Ascii.eqb c ".")) k = true.
Proof.
  unfold key_ok. intros H. apply andb_true_iff in H as [H1 H2].
  split; [|exact H2]. intros ->. discriminate H1.
Qed.

Lemma dotfree_split (a : string) :
  forall b s s',
    forall_chars (fun c => negb (Ascii.eqb c ".")) a = true ->
    forall_chars (fun c => negb (Ascii.eqb c ".")) b = true ->
    (s = "" \/ exists t, s = String "." t) ->
    (s' = "" \/ exists t, s' = String "." t) ->
    (a ++ s = b ++ s')%string -> a = b.
Proof.
  induction a as [|c a IH]; intros b s s' Ha Hb Hs Hs' E.
  - destruct b as [|c b]; [reflexivity|]. cbn [append forall_chars] in *.
    apply andb_true_iff in Hb as [Hc _].
    destruct Hs as [->|(t & ->)]; [discriminate E|].
    injection E as <- _. discriminate Hc.
  - cbn [append forall_chars] in *. apply andb_true_iff in Ha as [Hc Ha].
    destruct b as [|c' b]; cbn [append forall_chars] in *.
    + destruct Hs' as [->|(t & ->)]; [discriminate E|].
      injection E as -> _. discriminate Hc.
    + apply andb_true_iff in Hb as [_ Hb]. injection E as <- E.
      f_equal. exact (IH b s s' Ha Hb Hs Hs' E).
Qed.

Lemma concat_head (p : string) (rest : list string) :
  exists s, String.concat "." (p :: rest) = (p ++ s)%string
            /\ (s = "" \/ exists t, s = String "." t).
Proof.
  destruct rest as [|r rest].
  - exists "". cbn. now rewrite app_empty_r; auto.
  - exists ("." ++ String.concat "." (r :: rest))%string. split; [reflexivity|].
    right. eexists. reflexivity.
Qed.

Lemma entries_ok_member nested d k v :
  entries_ok nested d = true -> In (k, v) d ->
  key_ok k = true /\ nested v = true.
Proof.
  induction d as [|[k0 v0] d IH]; cbn [entries_ok In]; [contradiction|].
  intros H I. apply andb_true_iff in H as [H H4].
  apply andb_true_iff in H as [H H3]. apply andb_true_iff in H as [H1 H2].
  destruct I as [[= -> ->]|I]; auto.
Qed.

Lemma entries_ok_nodup nested d :
  entries_ok nested d = true -> NoDup (map fst d).
Proof.
  induction d as [|[k0 v0] d IH]; cbn [entries_ok map fst]; [constructor|].
  intros H. apply andb_true_iff in H as [H H4].
  apply andb_true_iff in H as [H H3]. apply andb_true_iff in H as [H1 H2].
  constructor; [|auto]. intros I.
  apply negb_true_iff in H2. apply not_true_iff_false in H2. apply H2.
  apply existsb_exists. exists k0. split; [exact I | apply String.eqb_refl].
Qed.

Lemma flatten_key_prefix v :
  forall parent_key item,
    parent_key <> "" ->
    In item (flatten_mapping "." v parent_key) ->
    exists t, fst item = ((parent_key ++ ".") ++ t)%string.
Proof.
  induction v as [l|xs|d IH] using pyval_tree_ind; intros parent_key item N H;
    try contradiction.
  apply flatten_member in H as (k & v & I & H). cbv zeta in H.
  rewrite (eqb_empty _ N) in H. cbn [negb] in H.
  destruct (is_mapping v).
  - rewrite Forall_forall in IH.
    apply (IH (k, v) I) in H as (t & ->).
    + exists (k ++ "." ++ t)%string. now rewrite !app_assoc_s.
    + apply app_nonempty, app_nonempty, N.
  - subst item. now exists k.
Qed.

Lemma entry_key_shape (parent_key k : string) (v : pyval) item :
  key_ok k = true ->
  (if is_mapping v then In item (flatten_mapping "." v (under parent_key k))
   else item = (under parent_key k, v)) ->
  exists s, fst item = under parent_key (k ++ s)
            /\ (s = "" \/ exists t, s = String "." t).
Proof.
  intros K H. apply key_ok_spec in K as [K _].
  destruct (is_mapping v).
  - apply flatten_key_prefix in H as (t & ->); [|now apply under_nonempty].
    exists ("." ++ t)%string. split; [|right; now exists t].
    rewrite <- (under_under parent_key k t K). unfold under at 2.
    now rewrite (eqb_empty _ (under_nonempty parent_key k K)).
  - subst item. exists "". rewrite app_empty_r. auto.
Qed.

Lemma gen_keys_elsewhere (parent_key p : string) (rest : list string) d :
  entries_ok well_formed d = true ->
  key_ok p = true ->
  ~ In p (map fst d) ->
  ~ In (under parent_key (String.concat "." (p :: rest)))
      (map fst (_flatten_dict_gen (flatten_mapping ".") "." d parent_key)).
Proof.
  intros W P N I. apply in_map_iff in I as (item & E & I).
  apply gen_member in I as (k & v & M & I). cbv zeta in I.
  destruct (entries_ok_member _ _ _ _ W M) as [K _].
  apply (entry_key_shape parent_key k v item K) in I as (s & F & S).
  destruct (concat_head p rest) as (s' & C & S').
  rewrite C, F in E. apply under_inj in E.
  apply key_ok_spec in K as [_ K]. apply key_ok_spec in P as [_ P].
  apply (dotfree_split k p s s' K P S S') in E. subst k.
  apply N. now apply (in_map fst) in M.
Qed.

Lemma getitem_mapping (v : pyval) (part : string) (x : pyval) :
  getitem v part = Ok x ->
  exists d, v = PyDict d /\ dict_get d part = Some x.
Proof.
  destruct v as [l|xs|d]; cbn [getitem]; try discriminate.
  destruct (dict_get d part) as [y|] eqn:E; [|discriminate].
  intros [= ->]. now exists d.
Qed.

Lemma flatten_lookup (path : list string) :
  forall v parent_key leaf,
    well_formed v = true ->
    path <> [] ->
    resolve path v = Ok leaf ->
    is_mapping leaf = false ->
    last_of (flatten_mapping "." v parent_key)
      (under parent_key (String.concat "." path))
    = Some leaf.
Proof.
  induction path as [|p rest IH]; intros v parent_key leaf W N R L;
    [contradiction|].
  cbn [resolve] in R.
  destruct (getitem v p) as [v1|] eqn:G; [|discriminate R]. cbn [bind] in R.
  apply getitem_mapping in G as (d & -> & G).
  rewrite last_of_dict by apply flatten_keys_distinct.
  cbn [flatten_mapping well_formed] in *. rewrite dict_get_dict.
  revert W G. induction d as [|[k v] d IHd]; cbn [dict_get]; [discriminate|].
  intros W G. pose proof W as W0. cbn [entries_ok] in W.
  apply andb_true_iff in W as [W W4].
  apply andb_true_iff in W as [W W3]. apply andb_true_iff in W as [W1 W2].
  cbn [_flatten_dict_gen]. rewrite last_of_app.
  destruct (String.eqb k p) eqn:E.
  - apply String.eqb_eq in E. subst k. injection G as ->.
    rewrite (last_of_none (_flatten_dict_gen _ _ d parent_key)).
    + fold (under parent_key p). destruct rest as [|r rest].
      * injection R as ->. rewrite L. cbn [String.concat last_of].
        now rewrite String.eqb_refl.
      * assert (M : is_mapping v1 = true).
        { cbn [resolve] in R. destruct (getitem v1 r) eqn:G1; [|discriminate R].
          now apply getitem_mapping in G1 as (d1 & -> & _). }
        rewrite M.
        change (String.concat "." (p :: r :: rest))
          with (p ++ "." ++ String.concat "." (r :: rest))%string.
        rewrite <- under_under by now apply key_ok_spec in W1 as [? _].
        apply IH; [exact W3 | discriminate | exact R | exact L].
    + apply gen_keys_elsewhere; [exact W4 | exact W1|].
      intros I. apply negb_true_iff in W2. apply not_true_iff_false in W2.
      apply W2, existsb_exists. exists p. split; [exact I | apply String.eqb_refl].
  - now rewrite (IHd W4 G).
Qed.

Lemma flatten_sound v :
  forall parent_key key x,
    well_formed v = true ->
    In (key, x) (flatten_mapping "." v parent_key) ->
    exists path,
      path <> []
      /\ key = under parent_key (String.concat "." path)
      /\ resolve path v = Ok x.
Proof.
  induction v as [l|xs|d IH] using pyval_tree_ind; intros parent_key key x W H;
    try contradiction.
  apply flatten_member in H as (k & v & I & H). cbv zeta in H.
  fold (under parent_key k) in H. cbn [well_formed] in W.
  destruct (entries_ok_member _ _ _ _ W I) as [K Wv].
  assert (G : getitem (PyDict d) k = Ok v).
  { cbn [getitem].
    now rewrite (dict_get_member d k v (entries_ok_nodup _ _ W) I). }
  destruct (is_mapping v).
  - rewrite Forall_forall in IH.
    apply (IH (k, v) I _ _ _ Wv) in H as (path & N & -> & R).
    exists (k :: path). split; [discriminate|]. split.
    + rewrite under_under by now apply key_ok_spec in K as [? _].
      now destruct path.
    + cbn [resolve]. now rewrite G.
  - injection H as -> ->. exists [k]. split; [discriminate|].
    split; [reflexivity|]. cbn [resolve]. now rewrite G.
Qed.

Lemma dict_get_in kv key x : dict_get kv key = Some x -> In (key, x) kv.
Proof.
  induction kv as [|[k v] kv IH]; cbn [dict_get In]; [discriminate|].
  destruct (String.eqb k key) eqn:E; [|auto].
  apply String.eqb_eq in E. intros [= ->]. left. now subst.
Qed.

(** Flattening keeps the leaves and nothing else: in a mapping whose
    keys, at every depth, are distinct, not empty and without a point,
    the value that is no mapping at the end of a path is found in the
    flat dict under the names of the path joined by points, and every
    entry of the flat dict is the value at the end of such a path. *)
Theorem flatten_dict_keeps_the_leaves (d : list (string * pyval)) :
  well_formed (PyDict d) = true ->
  (forall path leaf,
      path <> [] ->
      resolve path (PyDict d) = Ok leaf ->
      is_mapping leaf = false ->
      dict_get (_flatten_dict d "" ".") (String.concat "." path) = Some leaf)
  /\ (forall key x,
         dict_get (_flatten_dict d "" ".") key = Some x ->
         exists path,
           path <> []
           /\ key = String.concat "." path
           /\ resolve path (PyDict d) = Ok x).
Proof.
  intros W. unfold _flatten_dict. split.
  - intros path leaf N R L.
    rewrite <- (last_of_dict _ _ (flatten_keys_distinct "." (PyDict d) "")).
    exact (flatten_lookup path (PyDict d) "" leaf W N R L).
  - intros key x H. apply dict_get_in in H.
    exact (flatten_sound (PyDict d) "" key x W H).
Qed.

Lemma flatten_dict_keeps_the_leaves_witness :
  dict_get
    (_flatten_dict
       [ ("a", PyDict [ ("b", Scalar (PyInt 1)) ]); ("c", Scalar (PyStr "x")) ]
       "" ".")
    "a.b"
  = Some (Scalar (PyInt 1)).
Proof.
  apply (proj1 (flatten_dict_keeps_the_leaves
                  [ ("a", PyDict [ ("b", Scalar (PyInt 1)) ]);
                    ("c", Scalar (PyStr "x")) ]
                  eq_refl) ["a"; "b"] (Scalar (PyInt 1))).
  - discriminate.
  - reflexivity.
  - reflexivity.
Defined.

(** ** The overrides passed on to a job *)

Lemma starts_with_spec (sub s : string) :
  starts_with sub s = true <-> exists b, s = (sub ++ b)%string.
Proof.
  revert s. induction sub as [|c sub IH]; intros s; cbn [starts_with append].
  - split; [intros _; now exists s | reflexivity].
  - destruct s as [|x s]; [split; [discriminate | intros (b & E); discriminate E]|].
    rewrite andb_true_iff, IH. split.
    + intros [E (b & ->)]. apply Ascii.eqb_eq in E. subst x. now exists b.
    + intros (b & [= -> ->]). split; [apply Ascii.eqb_refl | now exists b].
Qed.

Lemma contains_spec (sub s : string) :
  contains sub s = true <-> exists a b, s = (a ++ sub ++ b)%string.
Proof.
  induction s as [|x s IH]; cbn [contains]; rewrite orb_true_iff.
  - rewrite starts_with_spec. split.
    + intros [(b & E)|H]; [now exists "", b | discriminate H].
    + intros (a & b & E). left. destruct a; [now exists b | discriminate E].
  - rewrite starts_with_spec, IH. split.
    + intros [(b & E)|(a & b & ->)]; [now exists "", b|].
      now exists (String x a), b.
    + intros (a & b & E). destruct a as [|y a]; [left; now exists b|].
      right. injection E as -> ->. now exists a, b.
Qed.

Lemma starts_with_before (c : ascii) (sub : string) :
  forall_chars (fun x => negb (Ascii.eqb x c)) sub = true ->
  forall a b, starts_with sub (a ++ String c b) = starts_with sub a.
Proof.
  induction sub as [|x sub IH]; intros H a b; [reflexivity|].
  cbn [forall_chars] in H. apply andb_true_iff in H as [Hc H].
  destruct a as [|y a]; cbn [append starts_with].
  - apply negb_true_iff in Hc. now rewrite Hc.
  - now rewrite IH.
Qed.

Lemma contains_across_space (sub : string) :
  sub <> "" ->
  forall_chars (fun c => negb (Ascii.eqb c " ")) sub = true ->
  forall a b,
    contains sub (a ++ String " " b) = contains sub a || contains sub b.
Proof.
  intros N H a b. induction a as [|x a IH].
  - cbn [append]. cbn [contains].
    pose proof (starts_with_before " " sub H "" b) as E.
    cbn [append] in E. rewrite E.
    destruct sub; [contradiction | reflexivity].
  - cbn [append]. cbn [contains].
    pose proof (starts_with_before " " sub H (String x a) b) as E.
    cbn [append] in E. rewrite E, IH.
    now rewrite orb_assoc.
Qed.

Lemma contains_join (sub : string) (pieces : list string) :
  sub <> "" ->
  forall_chars (fun c => negb (Ascii.eqb c " ")) sub = true ->
  contains sub (String.concat " " pieces) = existsb (contains sub) pieces.
Proof.
  intros N H. induction pieces as [|x pieces IH].
  - destruct sub; [contradiction | reflexivity].
  - destruct pieces as [|y pieces].
    + cbn [String.concat existsb]. now rewrite orb_false_r.
    + change (String.concat " " (x :: y :: pieces))
        with (x ++ String " " (String.concat " " (y :: pieces)))%string.
      rewrite (contains_across_space sub N H), IH. reflexivity.
Qed.

(** The arguments handed to a job never mention the scheduler or the
    parent log directory, whatever the overrides of the command line
    were; when no override mentions them, all are handed on, separated
    by blanks. *)
Theorem job_overrides_never_mention_the_scheduler (overrides : list string) :
  contains "scheduler" (_get_overrides overrides) = false
  /\ contains "logger.parent_log_dir" (_get_overrides overrides) = false
  /\ (forallb filter_fn overrides = true ->
      _get_overrides overrides = String.concat " " overrides).
Proof.
  unfold _get_overrides. cbv zeta.
  assert (F : forall x, In x (filter filter_fn overrides) ->
                        contains "scheduler" x = false
                        /\ contains "logger.parent_log_dir" x = false).
  { intros x I. apply filter_In in I as [_ I]. unfold filter_fn in I.
    apply andb_true_iff in I as [I1 I2].
    now apply negb_true_iff in I1, I2. }
  repeat split.
  - rewrite contains_join; [|discriminate|reflexivity].
    apply not_true_iff_false. intros E.
    apply existsb_exists in E as (x & I & E).
    apply F in I as [I _]. congruence.
  - rewrite contains_join; [|discriminate|reflexivity].
    apply not_true_iff_false. intros E.
    apply existsb_exists in E as (x & I & E).
    apply F in I as [_ I]. congruence.
  - intros A. f_equal. induction overrides as [|x xs IH]; [reflexivity|].
    cbn [forallb filter] in *. apply andb_true_iff in A as [Ax A].
    rewrite Ax. f_equal. apply IH; [|exact A].
    intros y I. apply F. cbn [filter]. rewrite Ax. now right.
Qed.

Lemma job_overrides_never_mention_the_scheduler_witness :
  _get_overrides ["lr=0.1"; "seed=3"] = "lr=0.1 seed=3".
Proof.
  apply (job_overrides_never_mention_the_scheduler ["lr=0.1"; "seed=3"]).
  reflexivity.
Defined.

(** ** Field names *)

Lemma word_matches (c : ascii) :
  set_matches true false
    [range "a" "z"; range "A" "Z"; only "_"; range "0" "9"] c
  = is_word c.
Proof. destruct c as [[] [] [] [] [] [] [] []]; reflexivity. Qed.

Lemma greedy_words (k : string -> option string) (rest x : string) :
  match rest with
  | "" => True
  | String c _ => is_word c = false
  end ->
  k rest = Some x ->
  forall body n,
    forall_chars is_word body = true ->
    String.length (body ++ rest) <= n ->
    repeat_ (backtrack true Lexer.word_char) true k n (body ++ rest) = Some x.
Proof.
  intros Hrest Hk.
  remember (backtrack true Lexer.word_char) as m eqn:Em.
  assert (Hm : forall c s k0,
             m (String c s) k0 = if is_word c then k0 s else None).
  { intros c s k0. rewrite Em. unfold Lexer.word_char. cbn [backtrack].
    now rewrite word_matches. }
  assert (Hnil : forall k0, m "" k0 = None).
  { intros k0. rewrite Em. reflexivity. }
  clear Em.
  induction body as [|c body IH]; intros n Hd Hn.
  - cbn [append]. destruct n as [|n]; cbn [repeat_ or_else]; [exact Hk|].
    destruct rest as [|c rest]; [now rewrite Hnil|].
    now rewrite Hm, Hrest.
  - cbn [forall_chars] in Hd. apply andb_true_iff in Hd as [Hc Hd].
    cbn [append String.length] in *. destruct n as [|n]; [lia|].
    cbn [repeat_]. rewrite Hm, Hc.
    cbn [String.length].
    rewrite (proj2 (Nat.ltb_lt _ _) (Nat.lt_succ_diag_r _)).
    now rewrite (IH n Hd); [|lia].
Qed.

Lemma word_segment_spec (s : string) :
  word_segment s = true ->
  exists w ws, s = String w ws /\ is_word w = true
               /\ forall_chars is_word ws = true.
Proof.
  unfold word_segment. destruct s as [|w ws]; [discriminate|].
  cbn [forall_chars]. intros H. apply andb_true_iff in H as [_ H].
  apply andb_true_iff in H as [H1 H2]. now exists w, ws.
Qed.

Lemma after_first_stops (segments : list string) (rest : string) :
  name_ends rest ->
  match (after_first segments ++ rest)%string with
  | "" => True
  | String c _ => is_word c = false
  end.
Proof.
  intros H. destruct segments as [|s segments]; cbn [after_first append].
  - destruct rest; [exact Logic.I | apply H].
  - reflexivity.
Qed.

Lemma segments_match (rest : string) :
  name_ends rest ->
  forall segments n,
    forallb word_segment segments = true ->
    String.length (after_first segments ++ rest) <= n ->
    repeat_ (backtrack true (Cat (Chr ".") (Plus Lexer.word_char))) true Some n
      (after_first segments ++ rest)
    = Some rest.
Proof.
  intros Hrest.
  remember (backtrack true (Cat (Chr ".") (Plus Lexer.word_char))) as m eqn:Em.
  assert (Hm : forall c s k0,
             m (String c s) k0
             = if chr_matches true "." c
               then match s with
                    | String x s' =>
                        if is_word x
                        then repeat_ (backtrack true Lexer.word_char) true k0
                               (String.length s') s'
                        else None
                    | "" => None
                    end
               else None).
  { intros c s k0. rewrite Em. unfold Plus, Lexer.word_char. cbn [backtrack].
    destruct (chr_matches true "." c); [|reflexivity].
    destruct s as [|x s']; [reflexivity|]. now rewrite word_matches. }
  assert (Hnil : forall k0, m "" k0 = None).
  { intros k0. rewrite Em. reflexivity. }
  clear Em.
  induction segments as [|seg segments IH]; intros n Hs Hn.
  - cbn [after_first append]. destruct n as [|n]; cbn [repeat_ or_else];
      [reflexivity|].
    destruct rest as [|c rest]; [now rewrite Hnil|].
    rewrite Hm. destruct Hrest as [Hc Hp].
    destruct (chr_matches true "." c) eqn:Q; [|reflexivity].
    apply chr_matches_exact in Q; [|reflexivity|reflexivity].
    specialize (Hp Q). destruct rest as [|x rest]; [reflexivity|].
    now rewrite Hp.
  - cbn [forallb] in Hs. apply andb_true_iff in Hs as [Hseg Hs].
    apply word_segment_spec in Hseg as (w & ws & -> & Hw & Hws).
    cbn [after_first append String.length] in *.
    rewrite app_assoc_s in *.
    destruct n as [|n]; [lia|]. cbn [repeat_].
    rewrite Hm. change (chr_matches true "." ".") with true. cbv iota.
    rewrite Hw.
    rewrite (greedy_words _ (after_first segments ++ rest) rest);
      [reflexivity | now apply after_first_stops | | exact Hws | apply le_n].
    cbn [String.length].
    assert (L : String.length (ws ++ after_first segments ++ rest)
                = String.length ws + String.length (after_first segments ++ rest))
      by apply length_app.
    rewrite L in *.
    rewrite (proj2 (Nat.ltb_lt _ _)) by lia.
    apply IH; [exact Hs | lia].
Qed.

Lemma name_rule_matches (seg : string) (segments : list string) (rest : string) :
  word_segment seg = true ->
  forallb word_segment segments = true ->
  name_ends rest ->
  re_match true Lexer.t_ID_doc ((seg ++ after_first segments) ++ rest)
  = Some rest.
Proof.
  intros Hseg Hs Hrest.
  apply word_segment_spec in Hseg as (w & ws & -> & Hw & Hws).
  rewrite app_assoc_s. cbn [append].
  unfold re_match, Lexer.t_ID_doc, Plus, Lexer.word_char. cbn [backtrack].
  rewrite word_matches, Hw.
  refine (greedy_words
            (fun s1 => backtrack true
                         (Star true (Cat (Chr ".") (Plus Lexer.word_char))) s1 Some)
            (after_first segments ++ rest) rest
            (after_first_stops segments rest Hrest) _ ws _ Hws (le_n _)).
  cbn [backtrack].
  exact (segments_match rest Hrest segments _ Hs (le_n _)).
Qed.

Lemma concat_first (seg : string) (segments : list string) :
  String.concat "." (seg :: segments) = (seg ++ after_first segments)%string.
Proof.
  revert seg. induction segments as [|s segments IH]; intros seg.
  - cbn. now rewrite app_empty_r.
  - change (String.concat "." (seg :: s :: segments))
      with (seg ++ String "." (String.concat "." (s :: segments)))%string.
    now rewrite IH.
Qed.

Lemma lowercase_app (a b : string) :
  lowercase (a ++ b) = (lowercase a ++ lowercase b)%string.
Proof. induction a as [|c a IH]; cbn [append lowercase]; congruence. Qed.

Lemma word_needs_prefix (w : string) :
  forall_chars (fun c => Ascii.eqb (lower c) c) w = true ->
  forall s k,
    starts_with w (lowercase s) = false -> backtrack true (Word w) s k = None.
Proof.
  induction w as [|c w IH]; intros Hw s k H; [discriminate H|].
  cbn [forall_chars] in Hw. apply andb_true_iff in Hw as [Hc Hw].
  apply Ascii.eqb_eq in Hc.
  destruct s as [|x s]; cbn [Word backtrack]; [reflexivity|].
  cbn [lowercase starts_with] in H. unfold chr_matches. rewrite Hc.
  destruct (Ascii.eqb c (lower x)); [|reflexivity].
  now apply IH.
Qed.

Lemma no_boolean_prefix (s : string) :
  boolean_prefix s = false -> re_match true Lexer.t_BOOL_doc s = None.
Proof.
  unfold boolean_prefix. intros H. apply orb_false_iff in H as [H1 H2].
  unfold re_match, Lexer.t_BOOL_doc. cbn [backtrack].
  rewrite (word_needs_prefix "true" eq_refl s Some H1).
  now rewrite (word_needs_prefix "false" eq_refl s Some H2).
Qed.

Lemma letters_differ (c : ascii) :
  is_word c = false ->
  forall_chars (fun x => negb (Ascii.eqb x (lower c))) "true" = true
  /\ forall_chars (fun x => negb (Ascii.eqb x (lower c))) "false" = true.
Proof.
  intros H. destruct c as [[] [] [] [] [] [] [] []];
    first [discriminate H | split; reflexivity].
Qed.

Lemma boolean_prefix_app (name rest : string) :
  name_ends rest ->
  boolean_prefix (name ++ rest) = boolean_prefix name.
Proof.
  intros H. destruct rest as [|c rest]; [now rewrite app_empty_r|].
  destruct H as [H _]. apply letters_differ in H as [T F].
  unfold boolean_prefix. rewrite lowercase_app. cbn [lowercase].
  now rewrite (starts_with_before _ _ T), (starts_with_before _ _ F).
Qed.

Lemma name_begins (c : ascii) (s : string) :
  is_word c = true -> is_digit c = false ->
  re_match true Lexer.t_LIST_doc (String c s) = None
  /\ re_match true Lexer.t_STRING_doc (String c s) = None
  /\ re_match true Lexer.t_SCALAR_doc (String c s) = None
  /\ Lexer.t_ignore c = false.
Proof.
  intros W D. destruct c as [[] [] [] [] [] [] [] []];
    first [discriminate W | discriminate D | repeat split; reflexivity].
Qed.

Lemma token_of_name (segments : list string) (rest : string) :
  let name := String.concat "." segments in
  segments <> [] ->
  forallb word_segment segments = true ->
  begins_with_digit name = false ->
  boolean_prefix name = false ->
  name_ends rest ->
  Lexer.token (name ++ rest)
  = Ok (Some ({| type := if String.eqb "in" name then IN else ID;
                 value := text name |}, rest)).
Proof.
  cbv zeta. intros N S D B E.
  destruct segments as [|seg segments]; [contradiction|].
  cbn [forallb] in S. apply andb_true_iff in S as [S1 S2].
  pose proof (name_rule_matches seg segments rest S1 S2 E) as M.
  rewrite <- (boolean_prefix_app _ rest E) in B. apply no_boolean_prefix in B.
  rewrite concat_first in *.
  destruct (word_segment_spec seg S1) as (w & ws & -> & Hw & _).
  cbn [append begins_with_digit] in D.
  assert (X : ((String w ws ++ after_first segments) ++ rest)%string
              = (String w (ws ++ after_first segments) ++ rest)%string)
    by reflexivity.
  rewrite X in *.
  destruct (name_begins w ((ws ++ after_first segments) ++ rest) Hw D)
    as (L & Q & C & I).
  rewrite (token_of_match w _ rest id_rule I).
  - cbn [id_rule Lexer.produce]. unfold Lexer.t_ID. now rewrite reserved_get_in.
  - unfold Lexer.rules. cbn [Lexer.first_match Lexer.pattern].
    unfold Lexer.ignorecase. cbn [append] in *.
    now rewrite L, B, Q, C, M.
Qed.

(** A dotted name is read as one token that carries the whole name: when
    its segments are made of letters, digits and underscores, it does not
    begin with a digit nor with [true] or [false] in any letter case, and
    the text does not go on with the name.  The token is an identifier,
    but for the name [in]. *)
Theorem field_name_is_read_back (segments : list string) (rest : string) :
  let name := String.concat "." segments in
  segments <> [] ->
  forallb word_segment segments = true ->
  begins_with_digit name = false ->
  boolean_prefix name = false ->
  name_ends rest ->
  Lexer.token (name ++ rest)
  = Ok (Some ({| type := if String.eqb "in" name then IN else ID;
                 value := text name |}, rest)).
Proof. exact (token_of_name segments rest). Qed.

Lemma field_name_is_read_back_witness :
  Lexer.token "user_config.seed==1"
  = Ok (Some ({| type := ID; value := text "user_config.seed" |}, "==1")).
Proof.
  apply (field_name_is_read_back ["user_config"; "seed"] "==1").
  - discriminate.
  - reflexivity.
  - reflexivity.
  - reflexivity.
  - split; [reflexivity | discriminate].
Defined.

(** ** From the text of a comparison to its query *)

Lemma written_token (v : literal) (txt : string) :
  written v txt ->
  Lexer.token txt = Ok (Some ({| type := SCALAR; value := Const v |}, ""))
  /\ not_followed_by "=" txt.
Proof.
  destruct v as [z|x|body|b|]; cbn [written]; try contradiction.
  - intros (n & -> & -> & L). split.
    + rewrite <- (app_empty_r (decimal n)) at 1.
      now apply token_of_natural.
    + destruct (decimal_canonical n) as (d & ds & -> & D & _).
      cbn [forall_chars] in D. apply andb_true_iff in D as [D _].
      cbn. intros ->. discriminate D.
  - intros (q & Q & P & ->). split.
    + now apply token_of_quoted.
    + destruct Q as [-> | ->]; cbn; discriminate.
  - intros ->. destruct b; (split; [reflexivity | cbn; discriminate]).
Qed.

Lemma operator_is_lexed (f : operator.fn) (rest : string) :
  not_followed_by "=" rest ->
  Lexer.token (op_text f ++ rest) = Ok (Some (operator_token f, rest)).
Proof.
  intros H.
  destruct (operators_lexed rest) as (E & N & L & G & O).
  destruct (O H) as (Lt & Gt & _).
  destruct f; assumption.
Qed.

Lemma comparison_parsed (k : string) (f : operator.fn) (v : literal) :
  Parser.parse_tokens (comparison_tokens k f v) = parsed (Comparison k f v).
Proof. destruct f; reflexivity. Qed.

(** The text of a comparison, a field name, an operator and a constant
    written one after the other, is parsed to the comparison of that
    field with that constant: for every dotted name that is read as an
    identifier, every operator, and every constant that is a natural
    number, a quoted text, [True] or [False]. *)
Theorem comparison_is_read_back
  (segments : list string) (f : operator.fn) (v : literal) (txt : string) :
  let name := String.concat "." segments in
  segments <> [] ->
  forallb word_segment segments = true ->
  begins_with_digit name = false ->
  boolean_prefix name = false ->
  name <> "in" ->
  written v txt ->
  Parser.parse (name ++ op_text f ++ txt) = parsed (Comparison name f v).
Proof.
  cbv zeta. intros N S D B I W.
  apply written_token in W as [T E].
  rewrite <- comparison_parsed. apply parse_of_tokens.
  unfold comparison_tokens.
  eapply reads_token.
  { rewrite (token_of_name segments _ N S D B).
    - apply not_eq_sym, String.eqb_neq in I. rewrite I. reflexivity.
    - destruct f; (split; [reflexivity | discriminate]). }
  eapply reads_token; [now apply operator_is_lexed|].
  eapply reads_token; [exact T|].
  now apply reads_end.
Qed.

Lemma comparison_is_read_back_witness :
  Parser.parse "optimizer.lr<='adam'"
  = parsed (Comparison "optimizer.lr" operator.le (PyStr "adam")).
Proof.
  apply (comparison_is_read_back ["optimizer"; "lr"] operator.le
           (PyStr "adam") "'adam'").
  - discriminate.
  - reflexivity.
  - reflexivity.
  - reflexivity.
  - discriminate.
  - exists "'"%char. split; [now left|]. split; reflexivity.
Defined.

Lemma written_texts (vs : list literal) (txts : list string) :
  List.Forall2 written vs txts -> List.Forall2 scalar_text txts vs.
Proof.
  induction 1 as [|v txt vs txts W _ IH]; constructor; [|exact IH].
  now apply written_token in W as [T _].
Qed.

Lemma membership_parsed (k : string) (vs : list literal) :
  Parser.parse_tokens
    [ {| type := ID; value := text k |};
      {| type := IN; value := text "in" |};
      {| type := LIST; value := Items vs |} ]
  = parsed (Membership k vs).
Proof. reflexivity. Qed.

(** The text of a membership test, a field name, the word [in] and a
    bracketed list of constants separated by commas, is parsed to the
    test that the field is one of these constants. *)
Theorem membership_is_read_back
  (segments : list string) (vs : list literal) (txts : list string) :
  let name := String.concat "." segments in
  segments <> [] ->
  forallb word_segment segments = true ->
  begins_with_digit name = false ->
  boolean_prefix name = false ->
  name <> "in" ->
  List.Forall2 written vs txts ->
  forallb no_bracket txts = true ->
  Parser.parse (name ++ " in [" ++ String.concat "," txts ++ "]")
  = parsed (Membership name vs).
Proof.
  cbv zeta. intros N S D B I W K.
  apply written_texts in W.
  rewrite <- membership_parsed. apply parse_of_tokens.
  set (body := String.concat "," txts).
  assert (Hbody : no_bracket body = true) by now apply no_bracket_concat.
  eapply reads_token.
  { rewrite (token_of_name segments _ N S D B).
    - apply not_eq_sym, String.eqb_neq in I. rewrite I. reflexivity.
    - split; [reflexivity | discriminate]. }
  eapply reads_token.
  { change (" in [" ++ body ++ "]")%string
      with (String " " (String.concat "." ["in"] ++ " [" ++ body ++ "]"))%string.
    cbn [Lexer.token]. change (Lexer.t_ignore " ") with true. cbv iota.
    rewrite (token_of_name ["in"]); try reflexivity.
    - discriminate.
    - split; [reflexivity | discriminate]. }
  apply (reads_token _ _ {| type := LIST; value := Items vs |} "" []);
    [|apply reads_end; reflexivity].
  change (" [" ++ body ++ "]")%string
    with (String " " (String "[" (body ++ String "]" ""))).
  cbn [Lexer.token]. change (Lexer.t_ignore " ") with true.
  change (Lexer.t_ignore "[") with false. cbv iota.
  unfold Lexer.scan, Lexer.rules. cbn [Lexer.first_match Lexer.pattern].
  unfold Lexer.ignorecase. rewrite (list_rule_matches body "" Hbody).
  replace (String "[" (body ++ "]")) with (String "[" (body ++ "]") ++ "")%string
    by apply app_empty_r.
  rewrite consumed_app. cbn [Lexer.produce]. unfold Lexer.t_LIST.
  rewrite literal_eval_head. change (Ascii.eqb "[" "[") with true. cbv iota.
  rewrite without_last_app. unfold body. rewrite (eval_list_concat txts vs W).
  reflexivity.
Qed.

Lemma membership_is_read_back_witness :
  Parser.parse "seed in [1,2,'x']"
  = parsed (Membership "seed" [PyInt 1; PyInt 2; PyStr "x"]).
Proof.
  apply (membership_is_read_back ["seed"] [PyInt 1; PyInt 2; PyStr "x"]
           ["1"; "2"; "'x'"]).
  - discriminate.
  - reflexivity.
  - reflexivity.
  - reflexivity.
  - discriminate.
  - repeat constructor.
    + exists 1. repeat split. cbn. lia.
    + exists 2. repeat split. cbn. lia.
    + exists "'"%char. split; [now left|]. split; reflexivity.
  - reflexivity.
Defined.

Lemma two_names_refused (k1 k2 : string) (f : operator.fn) :
  Parser.parse_tokens
    [ {| type := ID; value := text k1 |};
      operator_token f;
      {| type := ID; value := text k2 |} ]
  = Some (Raise Parser.p_error).
Proof. destruct f; reflexivity. Qed.

Lemma name_not_followed (segments : list string) :
  segments <> [] ->
  forallb word_segment segments = true ->
  not_followed_by "=" (String.concat "." segments).
Proof.
  intros N S. destruct segments as [|seg segments]; [contradiction|].
  rewrite concat_first. cbn [forallb] in S. apply andb_true_iff in S as [S _].
  apply word_segment_spec in S as (w & ws & -> & W & _).
  cbn. intros ->. discriminate W.
Qed.

(** The right-hand side of a comparison must be a constant: a name there,
    and so a text without quotes or the word [None], makes the parser
    raise its syntax error. *)
Theorem comparison_with_a_name_is_refused
  (left right : list string) (f : operator.fn) :
  let name := String.concat "." left in
  let other := String.concat "." right in
  left <> [] -> right <> [] ->
  forallb word_segment left = true ->
  forallb word_segment right = true ->
  begins_with_digit name = false -> begins_with_digit other = false ->
  boolean_prefix name = false -> boolean_prefix other = false ->
  name <> "in" -> other <> "in" ->
  Parser.parse (name ++ op_text f ++ other) = Some (Raise Parser.p_error).
Proof.
  cbv zeta. intros N1 N2 S1 S2 D1 D2 B1 B2 I1 I2.
  rewrite <- (two_names_refused (String.concat "." left)
                (String.concat "." right) f).
  apply parse_of_tokens.
  eapply reads_token.
  { rewrite (token_of_name left _ N1 S1 D1 B1).
    - apply not_eq_sym, String.eqb_neq in I1. rewrite I1. reflexivity.
    - destruct f; (split; [reflexivity | discriminate]). }
  eapply reads_token.
  { apply operator_is_lexed. now apply name_not_followed. }
  apply (reads_token _ _ {| type := ID; value := text (String.concat "." right) |}
           "" []); [|apply reads_end; reflexivity].
  rewrite <- (app_empty_r (String.concat "." right)) at 1.
  rewrite (token_of_name right "" N2 S2 D2 B2 Logic.I).
  apply not_eq_sym, String.eqb_neq in I2. rewrite I2. reflexivity.
Qed.

Lemma comparison_with_a_name_is_refused_witness :
  Parser.parse "x==None" = Some (Raise Parser.p_error).
Proof.
  apply (comparison_with_a_name_is_refused ["x"] ["None"] operator.eq);
    first [discriminate | reflexivity].
Defined.

(** ** The name of a scheduler class *)

Lemma rsplit_point_spec (s : string) :
  match rsplit_point s with
  | Some (a, b) =>
      s = (a ++ String "." b)%string
      /\ count_points s = S (count_points a) /\ count_points b = 0
  | None => count_points s = 0
  end.
Proof.
  induction s as [|c s IH]; cbn [rsplit_point count_points]; [reflexivity|].
  destruct (rsplit_point s) as [[a b]|].
  - destruct IH as (-> & -> & Hb). cbn [append count_points].
    repeat split; [lia | exact Hb].
  - destruct (Ascii.eqb c ".") eqn:E.
    + apply Ascii.eqb_eq in E. subst c. cbn. auto.
    + exact IH.
Qed.

Lemma identifier_has_no_point (s : string) :
  isidentifier s = Some true -> count_points s = 0.
Proof.
  destruct s as [|c s]; [discriminate|]. unfold isidentifier.
  destruct (_ || _) eqn:E; [discriminate|]. intros _.
  apply orb_false_iff in E as [E1 E2]. apply negb_false_iff in E2.
  cbn [count_points].
  assert (P : forall x, (negb (is_ascii x) || is_word x) = true ->
                        Ascii.eqb x "." = false).
  { intros x. destruct x as [[] [] [] [] [] [] [] []];
      first [reflexivity | discriminate]. }
  assert (C : Ascii.eqb c "." = false).
  { destruct (Ascii.eqb c ".") eqn:Q; [|reflexivity].
    apply Ascii.eqb_eq in Q. subst c. discriminate E1. }
  rewrite C. clear E1 C. induction s as [|x s IH]; [reflexivity|].
  cbn [forall_chars count_points] in *.
  apply andb_true_iff in E2 as [Hx Hs]. now rewrite (P x Hx), (IH Hs).
Qed.

Lemma point_is_no_identifier (s : string) :
  0 < count_points s -> isidentifier s = Some false.
Proof.
  intros H. destruct (isidentifier s) as [[|]|] eqn:E; [|reflexivity|].
  - apply identifier_has_no_point in E. lia.
  - destruct s as [|c s]; [discriminate E|]. unfold isidentifier in E.
    destruct (_ || _) eqn:F; [discriminate E|].
    destruct (forall_chars is_ascii (String c s)) eqn:A; [discriminate E|].
    exfalso. apply orb_false_iff in F as [F1 F2]. apply negb_false_iff in F2.
    assert (P : forall x, (negb (is_ascii x) || is_word x) = true ->
                          Ascii.eqb x "." = false).
    { intros x. destruct x as [[] [] [] [] [] [] [] []];
        first [reflexivity | discriminate]. }
    cbn [count_points] in H.
    assert (C : Ascii.eqb c "." = false).
    { destruct (Ascii.eqb c ".") eqn:Q; [|reflexivity].
      apply Ascii.eqb_eq in Q. subst c. discriminate F1. }
    rewrite C in H. clear - H F2 P.
    induction s as [|x s IH]; cbn [count_points forall_chars] in *; [lia|].
    apply andb_true_iff in F2 as [Hx Hs]. rewrite (P x Hx) in H. auto.
Qed.

Lemma all_identifiers_spec (names : list string) :
  (all_identifiers names = Some true ->
   forall name, In name names -> isidentifier name = Some true)
  /\ (forall name, In name names -> isidentifier name = Some false ->
      all_identifiers names = Some false).
Proof.
  unfold all_identifiers.
  assert (G : forall names v,
             (fold_left
                (fun is_valid name =>
                   match isidentifier name, is_valid with
                   | Some false, _ => Some false
                   | Some true, v => v
                   | None, Some false => Some false
                   | None, _ => None
                   end) names v = Some true ->
              v = Some true
              /\ forall name, In name names -> isidentifier name = Some true)
             /\ ((v = Some false
                  \/ exists name, In name names /\ isidentifier name = Some false) ->
                 fold_left
                   (fun is_valid name =>
                      match isidentifier name, is_valid with
                      | Some false, _ => Some false
                      | Some true, v => v
                      | None, Some false => Some false
                      | None, _ => None
                      end) names v = Some false)).
  { clear names. induction names as [|n names IH]; intros v; cbn [fold_left In].
    - split; [now split|]. intros [H|(name & [] & _)]. exact H.
    - split.
      + intros H. apply IH in H as [H1 H2].
        destruct (isidentifier n) as [[|]|] eqn:E; try discriminate H1.
        * split; [exact H1|]. intros name [<-|I]; auto.
        * destruct v as [[|]|]; discriminate H1.
      + intros H. apply IH.
        destruct H as [->|(name & [<-|I] & H)].
        * left. now destruct (isidentifier n) as [[|]|].
        * left. now rewrite H.
        * right. now exists name. }
  split.
  - intros H. now apply G in H.
  - intros name I H. apply G. right. now exists name.
Qed.

(** A scheduler name is accepted when, without the blanks around it, it
    is an identifier or two identifiers joined by a point, and it is kept
    as typed, blanks included.  A name with two points or more, such as
    that of a class in a nested package, is never accepted: the loop asks
    again. *)
Theorem scheduler_name_has_one_point_at_most :
  (forall inputs name rest,
      _configure_scheduler inputs = (Chosen name, rest) ->
      let s := str_strip name in
      In name inputs
      /\ (isidentifier s = Some true
          \/ exists a b, s = (a ++ String "." b)%string
                         /\ isidentifier a = Some true
                         /\ isidentifier b = Some true)
      /\ count_points s <= 1)
  /\ (forall name rest,
         2 <= count_points (str_strip name) ->
         _configure_scheduler (name :: rest) = _configure_scheduler rest).
Proof.
  split.
  - intros inputs name rest. cbv zeta.
    induction inputs as [|x inputs IH]; cbn [_configure_scheduler];
      [discriminate|].
    destruct (negb (String.eqb x "")); [|discriminate].
    destruct (all_identifiers (rsplit (str_strip x))) as [[|]|] eqn:V;
      [| |discriminate].
    + intros [= -> ->]. split; [now left|].
      pose proof (proj1 (all_identifiers_spec _) V) as V'. clear V.
      rename V' into V. unfold rsplit in V.
      pose proof (rsplit_point_spec (str_strip name)) as R.
      destruct (rsplit_point (str_strip name)) as [[a b]|].
      * destruct R as (E & C & _).
        pose proof (V a (or_introl eq_refl)) as Ha.
        pose proof (V b (or_intror (or_introl eq_refl))) as Hb.
        split; [right; now exists a, b|].
        rewrite C, (identifier_has_no_point a Ha). lia.
      * split; [left; apply V; now left | lia].
    + intros H. apply IH in H as (I & H). split; [now right | exact H].
  - intros name rest H. cbn [_configure_scheduler].
    assert (N : String.eqb name "" = false).
    { destruct name; [cbn in H; lia | reflexivity]. }
    rewrite N. cbn [negb].
    assert (V : all_identifiers (rsplit (str_strip name)) = Some false).
    { unfold rsplit. pose proof (rsplit_point_spec (str_strip name)) as R.
      destruct (rsplit_point (str_strip name)) as [[a b]|]; [|lia].
      destruct R as (_ & C & _).
      apply (proj2 (all_identifiers_spec [a; b]) a (or_introl eq_refl)).
      apply point_is_no_identifier. lia. }
    now rewrite V.
Qed.

Lemma scheduler_name_has_one_point_at_most_witness :
  _configure_scheduler ["my_app.schedulers.Custom"; " OARScheduler"]
  = _configure_scheduler [" OARScheduler"]
  /\ count_points (str_strip " OARScheduler") <= 1.
Proof.
  split.
  - apply (proj2 scheduler_name_has_one_point_at_most). vm_compute. lia.
  - apply (proj1 scheduler_name_has_one_point_at_most
             [" OARScheduler"] " OARScheduler" []).
    reflexivity.
Defined.
